(** * Field-extraction pipeline over OCR block graphs

    A shallow embedding of the document field-extraction core of the
    repository: [textract-utils.js] (block text derivation, key-value
    extraction, pattern fallback, company identification, the single-page
    and the multi-page orchestrators), the variants of [getText] and
    [extractKeyValuePairs] in [LocalFileProcessing.js], and the table zone
    extractor [extractTableData] of [LocalFileProcessingAdvanced.js].

    Conventions of the embedding:
    - a JavaScript string is a list of characters ([str]); the model covers
      ASCII text, on which [toLowerCase], [trim] and the regular
      expressions of the source act character by character;
    - a JavaScript exception is an explicit outcome ([Throw]) of the
      [result] monad; reading a property of [undefined] is [TypeError];
    - a plain object used as a dictionary is a [JsObject.t]: its own
      properties in creation order, enumerated the way [for ... in] and
      [Object.keys] do (array-index keys first, ascending); its keys are
      block ids, key texts and field names, and the members an object
      inherits from its prototype are not modelled;
    - a JavaScript number is an IEEE-754 double; a finite one is given by
      its exact rational value ([Q]).  Comparisons, subtraction signs and
      [Math.min] of doubles agree with the rationals; a product or a
      quotient is rounded to the nearest double ([JsDouble.nearest]);
      bounding-box coordinates are finite doubles;
    - the calls to the analysis service, to the registry and to the sink
      lookup are parameters of the orchestrators, given as their outcomes;
      a loop that may not terminate is observed for a number of
      iterations ([fuel]) and reports [StillPolling] beyond it. *)

From Stdlib Require Import List Bool Ascii String NArith ZArith QArith Qround Lia.
From Stdlib Require Import Sorted Lqa.
Import ListNotations.

(* ================================================================== *)
(** ** JavaScript strings *)

Module JsString.

Definition str := list ascii.

(** String literals of the source, written [lit "..."]. *)
Definition lit (s : string) : str := list_ascii_of_string s.

Fixpoint streq (a b : str) : bool :=
  match a, b with
  | [], [] => true
  | x :: a', y :: b' => Ascii.eqb x y && streq a' b'
  | _, _ => false
  end.

Definition isUpper (c : ascii) : bool :=
  let n := N_of_ascii c in ((65 <=? n) && (n <=? 90))%N.

Definition isDigit (c : ascii) : bool :=
  let n := N_of_ascii c in ((48 <=? n) && (n <=? 57))%N.

(** [\s] and the characters removed by [trim], within ASCII:
    tab, line feed, vertical tab, form feed, carriage return, space. *)
Definition isSpace (c : ascii) : bool :=
  let n := N_of_ascii c in (((9 <=? n) && (n <=? 13)) || (n =? 32))%N.

Definition toLowerChar (c : ascii) : ascii :=
  if isUpper c then ascii_of_N (N_of_ascii c + 32) else c.

(** [s.toLowerCase()] *)
Definition toLowerCase (s : str) : str := map toLowerChar s.

Fixpoint startsWith (s p : str) {struct p} : bool :=
  match p, s with
  | [], _ => true
  | _ :: _, [] => false
  | y :: p', x :: s' => Ascii.eqb x y && startsWith s' p'
  end.

(** [s.includes(p)]: [p] occurs in [s] as a contiguous substring. *)
Fixpoint includes (s p : str) : bool :=
  startsWith s p ||
  match s with
  | [] => false
  | _ :: s' => includes s' p
  end.

(** [s.split(sep)] for a separator that matches exactly one character
    (a one-character string, or an alternation of single characters):
    always at least one piece. *)
Fixpoint split (isSep : ascii -> bool) (s : str) : list str :=
  match s with
  | [] => [[]]
  | c :: s' =>
      if isSep c then [] :: split isSep s'
      else match split isSep s' with
           | [] => [[c]]
           | piece :: pieces => (c :: piece) :: pieces
           end
  end.

(** [parts.join(sep)] *)
Fixpoint join (sep : str) (parts : list str) : str :=
  match parts with
  | [] => []
  | [p] => p
  | p :: rest => p ++ sep ++ join sep rest
  end.

Fixpoint trimStart (s : str) : str :=
  match s with
  | [] => []
  | c :: s' => if isSpace c then trimStart s' else s
  end.

Definition trimEnd (s : str) : str := rev (trimStart (rev s)).

(** [s.trim()] *)
Definition trim (s : str) : str := trimEnd (trimStart s).

Definition newline : ascii := ascii_of_N 10.

End JsString.
Import JsString.

(* ================================================================== *)
(** ** Exceptions *)

Inductive Exn : Type :=
| TypeError                 (* property access on [undefined] *)
| Error (message : str).    (* [throw new Error(message)] *)

Inductive result (A : Type) : Type :=
| Ok (a : A)
| Throw (e : Exn).
Arguments Ok {A} a.
Arguments Throw {A} e.

Definition bind {A B : Type} (m : result A) (k : A -> result B) : result B :=
  match m with
  | Ok a => k a
  | Throw e => Throw e
  end.

Notation "x <- m ;; k" := (bind m (fun x => k))
  (at level 61, m at next level, right associativity).

(** A [for ... of] loop threading an accumulator; the first exception
    leaves the loop. *)
Fixpoint forOf {A S : Type} (xs : list A) (body : S -> A -> result S) (s : S)
  : result S :=
  match xs with
  | [] => Ok s
  | x :: xs' => s' <- body s x ;; forOf xs' body s'
  end.

(* ================================================================== *)
(** ** Plain objects used as dictionaries *)

Module JsObject.

(** Own properties, in creation order; keys are unique. *)
Definition t (V : Type) := list (str * V).

Definition empty {V : Type} : t V := [].

(** [o[k]]; [None] is [undefined]. *)
Fixpoint get {V : Type} (o : t V) (k : str) : option V :=
  match o with
  | [] => None
  | (k', v) :: o' => if streq k k' then Some v else get o' k
  end.

(** [o[k] = v]: an existing property keeps its place, a new one is
    created last. *)
Fixpoint set {V : Type} (o : t V) (k : str) (v : V) : t V :=
  match o with
  | [] => [(k, v)]
  | (k', v') :: o' =>
      if streq k k' then (k, v) :: o' else (k', v') :: set o' k v
  end.

Definition digitsValue (k : str) : N :=
  fold_left (fun n c => (n * 10 + (N_of_ascii c - 48))%N) k 0%N.

(** A key is an array index when it is the canonical decimal form of an
    integer in [0, 2^32 - 2]. *)
Definition arrayIndex (k : str) : option N :=
  match k with
  | [] => None
  | c :: rest =>
      if forallb isDigit k
         && (negb (Ascii.eqb c "0") || match rest with [] => true | _ => false end)
         && (digitsValue k <? 2 ^ 32 - 1)%N
      then Some (digitsValue k) else None
  end.

Fixpoint insertIndex (n : N) (k : str) (l : list (N * str)) : list (N * str) :=
  match l with
  | [] => [(n, k)]
  | (m, k') :: l' =>
      if (n <? m)%N then (n, k) :: l else (m, k') :: insertIndex n k l'
  end.

Fixpoint indexKeys {V : Type} (o : t V) : list (N * str) :=
  match o with
  | [] => []
  | (k, _) :: o' =>
      match arrayIndex k with
      | Some n => insertIndex n k (indexKeys o')
      | None => indexKeys o'
      end
  end.

Definition isIndexKey (k : str) : bool :=
  match arrayIndex k with Some _ => true | None => false end.

(** [Object.keys(o)] and the order of [for (k in o)]: array-index keys in
    ascending numeric order, then the other keys in creation order. *)
Definition keys {V : Type} (o : t V) : list str :=
  map snd (indexKeys o)
  ++ filter (fun k => negb (isIndexKey k)) (map fst o).

End JsObject.

(* ================================================================== *)
(** ** Scanning text: prefixes, [parseInt], anchored matches *)

Module JsText.

(** Longest prefix of characters satisfying [p], and the rest. *)
Fixpoint spanWhile (p : ascii -> bool) (s : str) : str * str :=
  match s with
  | [] => ([], [])
  | c :: s' =>
      if p c then let (a, b) := spanWhile p s' in (c :: a, b) else ([], s)
  end.

Definition isLower (c : ascii) : bool :=
  let n := N_of_ascii c in ((97 <=? n) && (n <=? 122))%N.

(** [[a-zA-Z0-9]] *)
Definition isAlnum (c : ascii) : bool := isLower c || isUpper c || isDigit c.

(** A JavaScript number that is an integer, or [NaN]. *)
Inductive JsNumber : Type :=
| Num (z : Z)
| NaN.

(** [n > 1] *)
Definition greaterThanOne (n : JsNumber) : bool :=
  match n with
  | Num z => (1 <? z)%Z
  | NaN => false
  end.

(** The value of a character as a digit of the given radix. *)
Definition digitOf (radix : N) (c : ascii) : option N :=
  let n := N_of_ascii c in
  let v := if isDigit c then Some (n - 48)%N
           else if isLower c then Some (n - 87)%N
           else if isUpper c then Some (n - 55)%N
           else None in
  match v with
  | Some d => if (d <? radix)%N then Some d else None
  | None => None
  end.

Definition isDigitOf (radix : N) (c : ascii) : bool :=
  match digitOf radix c with Some _ => true | None => false end.

Definition digitsValueIn (radix : N) (digits : str) : N :=
  fold_left (fun n c => match digitOf radix c with
                        | Some d => (n * radix + d)%N
                        | None => n
                        end) digits 0%N.

(** [parseInt(s)] without a radix argument: leading white space is
    skipped, then an optional sign, then the prefix "0x" or "0X" selects
    radix 16; the longest run of digits is read and what follows is
    ignored; no digit gives [NaN]. *)
Definition parseInt (s : str) : JsNumber :=
  let s0 := trimStart s in
  let '(negative, s1) :=
    match s0 with
    | c :: r => if Ascii.eqb c "-" then (true, r)
                else if Ascii.eqb c "+" then (false, r)
                else (false, s0)
    | [] => (false, s0)
    end in
  let '(radix, s2) :=
    match s1 with
    | z :: x :: r =>
        if Ascii.eqb z "0" && (Ascii.eqb x "x" || Ascii.eqb x "X")
        then (16%N, r) else (10%N, s1)
    | _ => (10%N, s1)
    end in
  match fst (spanWhile (isDigitOf radix) s2) with
  | [] => NaN
  | digits =>
      let v := Z.of_N (digitsValueIn radix digits) in
      Num (if negative then (- v)%Z else v)
  end.

(** [text.match(re)[1]] for an unanchored [re] that starts with the
    literal [prefix]: the match starts at the left-most position where
    [prefix] occurs and the rest of [re] ([capture], applied to what
    follows the literal) succeeds. *)
Fixpoint matchAfter (prefix : str) (capture : str -> option str) (text : str)
  : option str :=
  match (if startsWith text prefix
         then capture (skipn (List.length prefix) text) else None) with
  | Some c => Some c
  | None =>
      match text with
      | [] => None
      | _ :: text' => matchAfter prefix capture text'
      end
  end.

Definition notNewline (c : ascii) : bool := negb (Ascii.eqb c newline).

(** The last character of [w] that is no newline, as a string. *)
Definition lastOnLine (w : str) : option str :=
  match filter notNewline (rev w) with
  | c :: _ => Some [c]
  | [] => None
  end.

(** [\s*([^\n]+)] at the start of [rest].  The white space is taken
    greedily; when it reaches the end of the text the capture falls back
    on the last white-space character that is no newline. *)
Definition restOfLine (rest : str) : option str :=
  let (w, r) := spanWhile isSpace rest in
  match r with
  | _ :: _ => Some (fst (spanWhile notNewline r))
  | [] => lastOnLine w
  end.

(** [\s*([0-9\/]+)] at the start of [rest]. *)
Definition digitsAndSlashes (rest : str) : option str :=
  let (w, r) := spanWhile isSpace rest in
  match fst (spanWhile (fun c => isDigit c || Ascii.eqb c "/") r) with
  | [] => None
  | d => Some d
  end.

End JsText.
Import JsText.

(* ================================================================== *)
(** ** Block graph model *)

Inductive BlockTypeT : Type :=
| PAGE | LINE | WORD | KEY_VALUE_SET | SELECTION_ELEMENT | TABLE | CELL.

Inductive RelationKind : Type := CHILD | VALUE | OTHER_RELATION.

Inductive EntityType : Type := KEY | VALUE_ENTITY | OTHER_ENTITY.

Inductive SelectionStatusT : Type := SELECTED | NOT_SELECTED.

Record Relationship : Type := mkRelationship {
  Type_ : RelationKind;
  Ids : list str
}.

Record BoundingBoxT : Type := mkBoundingBox {
  Top : Q;
  Left : Q;
  Width : Q;
  Height : Q
}.

(** A block of a provider response.  Optional members are [option]s:
    [None] is a member the response does not carry ([undefined]). *)
Record Block : Type := mkBlock {
  Id : str;
  BlockType : BlockTypeT;
  Text : str;
  EntityTypes : option (list EntityType);
  SelectionStatus : option SelectionStatusT;
  Relationships : option (list Relationship);
  BoundingBox : BoundingBoxT;
  Page : option Z
}.

Definition isBlockType (ty : BlockTypeT) (b : Block) : bool :=
  match ty, BlockType b with
  | PAGE, PAGE | LINE, LINE | WORD, WORD | KEY_VALUE_SET, KEY_VALUE_SET
  | SELECTION_ELEMENT, SELECTION_ELEMENT | TABLE, TABLE | CELL, CELL => true
  | _, _ => false
  end.

Definition isRelation (k : RelationKind) (r : Relationship) : bool :=
  match k, Type_ r with
  | CHILD, CHILD | VALUE, VALUE | OTHER_RELATION, OTHER_RELATION => true
  | _, _ => false
  end.

Definition isKEY (e : EntityType) : bool :=
  match e with KEY => true | _ => false end.

(** [ids.includes(id)] on an array of strings. *)
Definition idsInclude (ids : list str) (id : str) : bool :=
  existsb (streq id) ids.

Record CompanyRecord : Type := mkCompanyRecord {
  company : str;
  fields : list str;
  targetTables : option (list str)
}.

(** [extractedFields] maps a field name to a string or to [null] ([None]). *)
Record ExtractionResult : Type := mkExtractionResult {
  res_company : str;
  pageNumber : nat;
  extractedFields : JsObject.t (option str);
  res_targetTables : list str
}.

Inductive JobStatusT : Type := IN_PROGRESS | SUCCEEDED | FAILED | PARTIAL_SUCCESS.

(** A [GetDocumentAnalysis] response. *)
Record Response : Type := mkResponse {
  JobStatus : JobStatusT;
  Blocks : option (list Block);
  NextToken : option str
}.

(** Truthiness of a string-valued expression that may be [undefined]:
    [undefined], [null] and the empty string are falsy. *)
Definition truthy (v : option str) : bool :=
  match v with
  | Some (_ :: _) => true
  | _ => false
  end.

(* ================================================================== *)
(** ** textract-utils.js *)

Module TextractUtils.

(** [findMatchingCompanyInPage]: [companyRecords.find(...)]; [None] is
    the [undefined] that [find] returns when no record matches. *)
Definition findMatchingCompanyInPage (pageText : str)
    (companyRecords : list CompanyRecord) : option CompanyRecord :=
  let normalizedText := toLowerCase pageText in
  find (fun c => includes normalizedText (toLowerCase (company c)))
       companyRecords.

Definition relsSome (rels : option (list Relationship))
    (p : Relationship -> bool) : bool :=
  match rels with
  | None => false
  | Some rs => existsb p rs
  end.

(** [extractTextFromPage] *)
Definition extractTextFromPage (blocks : list Block) (pageId : str) : str :=
  let pageBlocks :=
    filter (fun block =>
              isBlockType LINE block &&
              relsSome (Relationships block)
                (fun rel => isRelation CHILD rel && idsInclude (Ids rel) pageId))
           blocks in
  join [newline] (map Text pageBlocks).

(** [extractText] *)
Definition extractText (blocks : list Block) : str :=
  let lineBlocks := filter (isBlockType LINE) blocks in
  join [newline] (map Text lineBlocks).

(** The text a child block contributes in [getTextForBlock]. *)
Definition childTexts (texts : list str) (wordBlock : option Block)
  : result (list str) :=
  match wordBlock with
  | None => Throw TypeError            (* [wordBlock.BlockType] *)
  | Some w =>
      if isBlockType WORD w then Ok (texts ++ [Text w])
      else if isBlockType SELECTION_ELEMENT w then
        Ok (texts ++ [match SelectionStatus w with
                      | Some SELECTED => lit "[X]"
                      | _ => lit "[ ]"
                      end])
      else Ok texts
  end.

(** [getTextForBlock]; the block argument may be [undefined]. *)
Definition getTextForBlock (block : option Block)
    (blockMap : JsObject.t Block) : result str :=
  match block with
  | None => Throw TypeError            (* [block.Relationships] *)
  | Some b =>
      match Relationships b with
      | None => Ok []
      | Some rels =>
          texts <- forOf rels (fun texts rel =>
                     if isRelation CHILD rel then
                       forOf (Ids rel) (fun texts childId =>
                         childTexts texts (JsObject.get blockMap childId))
                         texts
                     else Ok texts) [] ;;
          Ok (join (lit " ") texts)
      end
  end.

Record BlockMaps : Type := mkBlockMaps {
  keyMap : JsObject.t Block;
  valueMap : JsObject.t Block;
  blockMap : JsObject.t Block
}.

(** First loop of [extractKeyValuePairs]: the lookup maps. *)
Definition organizeBlocks (blocks : list Block) : result BlockMaps :=
  forOf blocks (fun m block =>
    let bm := JsObject.set (blockMap m) (Id block) block in
    if isBlockType KEY_VALUE_SET block then
      match EntityTypes block with
      | None => Throw TypeError        (* [block.EntityTypes.includes] *)
      | Some ets =>
          if existsb isKEY ets
          then Ok (mkBlockMaps (JsObject.set (keyMap m) (Id block) block)
                               (valueMap m) bm)
          else Ok (mkBlockMaps (keyMap m)
                               (JsObject.set (valueMap m) (Id block) block) bm)
      end
    else Ok (mkBlockMaps (keyMap m) (valueMap m) bm))
    (mkBlockMaps JsObject.empty JsObject.empty JsObject.empty).

(** Body of the loop over the keys of [keyMap]. *)
Definition matchKey (m : BlockMaps) (keyValues : JsObject.t str)
    (keyBlockId : str) : result (JsObject.t str) :=
  let keyBlock := JsObject.get (keyMap m) keyBlockId in
  keyText <- getTextForBlock keyBlock (blockMap m) ;;
  match keyBlock with
  | None => Throw TypeError
  | Some kb =>
      match Relationships kb with
      | None => Ok keyValues
      | Some rels =>
          forOf rels (fun keyValues rel =>
            if isRelation VALUE rel then
              forOf (Ids rel) (fun keyValues valueId =>
                let valueBlock := JsObject.get (valueMap m) valueId in
                valueText <- getTextForBlock valueBlock (blockMap m) ;;
                Ok (JsObject.set keyValues keyText valueText))
                keyValues
            else Ok keyValues) keyValues
      end
  end.

(** [extractKeyValuePairs] *)
Definition extractKeyValuePairs (blocks : list Block)
  : result (JsObject.t str) :=
  m <- organizeBlocks blocks ;;
  forOf (JsObject.keys (keyMap m)) (matchKey m) JsObject.empty.

(** The separators of [line.split(/:|-|=/)]. *)
Definition isSeparator (c : ascii) : bool :=
  Ascii.eqb c ":" || Ascii.eqb c "-" || Ascii.eqb c "=".

(** The loop over the lines in [extractFieldByPattern]. *)
Fixpoint scanLines (lines : list str) (fieldName : str) : option str :=
  match lines with
  | [] => None
  | line :: rest =>
      if includes line (toLowerCase fieldName) then
        let parts := split isSeparator line in
        if (1 <? List.length parts)%nat
        then Some (trim (join (lit ":") (skipn 1 parts)))
        else scanLines rest fieldName
      else scanLines rest fieldName
  end.

(** [extractFieldByPattern]; [None] is [null]. *)
Definition extractFieldByPattern (blocks : list Block) (fieldName : str)
  : option str :=
  let text := toLowerCase (extractText blocks) in
  let lines := split (Ascii.eqb newline) text in
  scanLines lines fieldName.

(** [keyValuePairs[field] || extractFieldByPattern(blocks, field)] *)
Definition fieldValue (keyValuePairs : JsObject.t str) (blocks : list Block)
    (field : str) : option str :=
  if truthy (JsObject.get keyValuePairs field)
  then JsObject.get keyValuePairs field
  else extractFieldByPattern blocks field.

(** [extractFields] *)
Definition extractFields (blocks : list Block) (fieldsToExtract : list str)
  : result (JsObject.t (option str)) :=
  keyValuePairs <- extractKeyValuePairs blocks ;;
  Ok (fold_left (fun results field =>
                   JsObject.set results field
                     (fieldValue keyValuePairs blocks field))
                fieldsToExtract JsObject.empty).

(** [extractFieldsFromPage].  [block.Page] is a number and [pageId] the
    identifier string of a PAGE block, so [block.Page === pageId] never
    holds. *)
Definition pageIsId (page : option Z) (pageId : str) : bool := false.

Definition extractFieldsFromPage (blocks : list Block) (pageId : str)
    (fieldsToExtract : list str) : result (JsObject.t (option str)) :=
  let pageBlocks :=
    filter (fun block =>
              pageIsId (Page block) pageId ||
              relsSome (Relationships block)
                (fun rel => idsInclude (Ids rel) pageId))
           blocks in
  keyValuePairs <- extractKeyValuePairs pageBlocks ;;
  Ok (fold_left (fun results field =>
                   JsObject.set results field
                     (fieldValue keyValuePairs pageBlocks field))
                fieldsToExtract JsObject.empty).

Record Identified : Type := mkIdentified {
  id_company : option str;            (* [None] is [null] *)
  fieldsToExtract : list str
}.

(** [identifyCompanyAndFields]; the registry scan
    ([getAllCompanyRecords]) either yields the records or throws. *)
Definition identifyCompanyAndFields (registry : result (list CompanyRecord))
    (documentText : str) : result Identified :=
  companyRecords <- registry ;;
  let lowerText := toLowerCase documentText in
  Ok (match find (fun record =>
                    includes lowerText (toLowerCase (company record)))
                 companyRecords with
      | Some record => mkIdentified (Some (company record)) (fields record)
      | None => mkIdentified None []
      end).

(** [processSinglePageDocument].  The collaborators are parameters:
    [analysis] is the outcome of [analyzeDocument] (its [Blocks], or the
    exception it rethrows), [registry] the outcome of the registry scan,
    [getTargetTablesForCompany] the sink lookup (it never throws). *)
Definition processSinglePageDocument
    (analysis : result (option (list Block)))
    (registry : result (list CompanyRecord))
    (getTargetTablesForCompany : str -> list str)
  : result (list ExtractionResult) :=
  textractBlocks <- analysis ;;
  match textractBlocks with
  | None => Throw TypeError            (* [blocks.filter] in [extractText] *)
  | Some blocks =>
      let documentText := extractText blocks in
      ident <- identifyCompanyAndFields registry documentText ;;
      if negb (truthy (id_company ident)) then
        Throw (Error (lit "Company not recognized in single page document"))
      else
        let company := match id_company ident with
                       | Some c => c
                       | None => []
                       end in
        extractionResults <- extractFields blocks (fieldsToExtract ident) ;;
        Ok [mkExtractionResult company 1 extractionResults
              (getTargetTablesForCompany company)]
  end.

(** *** The multi-page orchestrator *)

(** The provider of asynchronous analyses: [startDocumentAnalysis] is the
    outcome of the job submission (a job id, or an exception);
    [getDocumentAnalysis n jobId token] is the outcome of the poll made
    after [n] earlier polls, with the cursor [token] when one is sent. *)
Record Provider : Type := mkProvider {
  startDocumentAnalysis : result str;
  getDocumentAnalysis : nat -> str -> option str -> result Response
}.

(** The variables of [processMultiPageDocument]. *)
Record LoopState : Type := mkLoopState {
  results : list ExtractionResult;
  nextToken : option str;
  currentPage : nat;
  finished : bool
}.

Definition initialState : LoopState := mkLoopState [] None 1 false.

(** [getAsyncResults]: the cursor is sent only when it is truthy. *)
Definition getAsyncResults (provider : Provider) (polls : nat) (jobId : str)
    (token : option str) : result Response :=
  getDocumentAnalysis provider polls jobId
    (if truthy token then token else None).

(** Body of the loop over the PAGE blocks of a batch. *)
Definition processPage (blocks : list Block)
    (companyRecords : list CompanyRecord) (st : LoopState)
    (pageBlock : Block) : result LoopState :=
  let pageText := extractTextFromPage blocks (Id pageBlock) in
  match findMatchingCompanyInPage pageText companyRecords with
  | Some matchedCompany =>
      extracted <- extractFieldsFromPage blocks (Id pageBlock)
                     (fields matchedCompany) ;;
      Ok (mkLoopState
            (results st ++
             [mkExtractionResult (company matchedCompany) (currentPage st)
                extracted
                (match targetTables matchedCompany with
                 | Some tables => tables
                 | None => []
                 end)])
            (nextToken st) (S (currentPage st)) (finished st))
  | None =>
      Ok (mkLoopState (results st) (nextToken st) (S (currentPage st))
            (finished st))
  end.

Definition isInProgress (s : JobStatusT) : bool :=
  match s with IN_PROGRESS => true | _ => false end.

(** The completion test that closes an iteration:
    [!response.NextToken || response.JobStatus !== 'IN_PROGRESS']. *)
Definition processingComplete (response : Response) : bool :=
  negb (truthy (NextToken response)) || negb (isInProgress (JobStatus response)).

(** What one iteration does with the response it received. *)
Definition processResponse (response : Response)
    (companyRecords : list CompanyRecord) (st : LoopState)
  : result LoopState :=
  match Blocks response with
  | None => Throw TypeError            (* [response.Blocks.filter] *)
  | Some blocks =>
      let pageBlocks := filter (isBlockType PAGE) blocks in
      st' <- forOf pageBlocks (processPage blocks companyRecords) st ;;
      if processingComplete response
      then Ok (mkLoopState (results st') (nextToken st') (currentPage st') true)
      else Ok (mkLoopState (results st') (NextToken response)
                 (currentPage st') (finished st'))
  end.

(** How a run of the loop observed for a bounded number of iterations
    ends: the function returned or threw after [polls] polls, or it is
    still polling. *)
Inductive Outcome : Type :=
| Returned (r : result (list ExtractionResult)) (polls : nat)
| StillPolling.

(** [while (!finished) { ... }], observed for at most [fuel] iterations. *)
Fixpoint pollingLoop (fuel : nat) (provider : Provider) (jobId : str)
    (companyRecords : list CompanyRecord) (polls : nat) (st : LoopState)
  : Outcome :=
  if finished st then Returned (Ok (results st)) polls
  else
    match fuel with
    | O => StillPolling
    | S fuel' =>
        match getAsyncResults provider polls jobId (nextToken st) with
        | Throw e => Returned (Throw e) (S polls)
        | Ok response =>
            match processResponse response companyRecords st with
            | Throw e => Returned (Throw e) (S polls)
            | Ok st' =>
                pollingLoop fuel' provider jobId companyRecords (S polls) st'
            end
        end
    end.

(** [processMultiPageDocument] *)
Definition processMultiPageDocument (fuel : nat) (provider : Provider)
    (companyRecords : list CompanyRecord) : Outcome :=
  match startDocumentAnalysis provider with
  | Throw e => Returned (Throw e) 0
  | Ok jobId => pollingLoop fuel provider jobId companyRecords 0 initialState
  end.

(** *** Page count, registry access and the sink *)

(** [getPageCount].  [head] is the outcome of the metadata request (the
    [Metadata] of the object, when it has some), [layout] the outcome of
    the layout analysis (its [Blocks]); every exception is caught and
    answered with 1. *)
Definition getPageCount (head : result (option (JsObject.t str)))
    (layout : result (option (list Block))) : JsNumber :=
  match head with
  | Throw _ => Num 1
  | Ok metadata =>
      let declared := match metadata with
                      | Some md => JsObject.get md (lit "x-amz-meta-page-count")
                      | None => None
                      end in
      if truthy declared then
        parseInt (match declared with Some v => v | None => [] end)
      else
        match layout with
        | Throw _ => Num 1
        | Ok None => Num 1             (* [data.Blocks.filter], caught *)
        | Ok (Some blocks) =>
            Num (Z.of_nat (List.length (filter (isBlockType PAGE) blocks)))
        end
  end.

(** [getAllCompanyRecords]: [scan] is the outcome of the table scan (its
    [Items]); an exception is thrown again. *)
Definition getAllCompanyRecords (scan : result (option (list CompanyRecord)))
  : result (list CompanyRecord) :=
  data <- scan ;;
  Ok (match data with Some items => items | None => [] end).

(** [getTargetTablesForCompany]: [lookup] is the outcome of the item
    request (the [targetTables] of the [Item], when there are);
    an exception is answered with the empty list. *)
Definition getTargetTablesForCompany
    (lookup : result (option (option (list str)))) : list str :=
  match lookup with
  | Ok (Some (Some tables)) => tables
  | _ => []
  end.

Record S3Location : Type := mkS3Location {
  bucket : str;
  key : str
}.

(** [key.replace(/[^a-zA-Z0-9]/g, '-')] *)
Definition sanitizeKey (key : str) : str :=
  map (fun c => if isAlnum c then c else "-"%char) key.

(** The [documentId] of [storeResultsInTables]. *)
Definition documentIdOf (s3Location : S3Location) : str :=
  bucket s3Location ++ lit "-" ++ sanitizeKey (key s3Location).

(** The [Item] of a write. *)
Record StoredItem : Type := mkStoredItem {
  documentId : str;
  item_company : str;
  item_pageNumber : nat;
  item_extractedFields : JsObject.t (option str);
  processedAt : str
}.

(** A write that was sent to the sink, and whether it succeeded. *)
Record PutAttempt : Type := mkPutAttempt {
  tableName : str;
  item : StoredItem;
  stored : bool
}.

(** The sink and the clock: [put n table item] tells whether the write
    made after [n] earlier ones succeeds (otherwise it throws, and the
    exception is caught and logged); [now n] is the time stamp taken for
    that write. *)
Record Sink : Type := mkSink {
  put : nat -> str -> StoredItem -> bool;
  now : nat -> str
}.

(** The inner loop of [storeResultsInTables], over the target tables of
    one result; [sent] holds the writes sent so far. *)
Definition storeInTables (sink : Sink) (s3Location : S3Location)
    (r : ExtractionResult) (sent : list PutAttempt) : list PutAttempt :=
  fold_left (fun sent table =>
               let n := List.length sent in
               let it := mkStoredItem (documentIdOf s3Location)
                           (res_company r) (pageNumber r)
                           (extractedFields r) (now sink n) in
               sent ++ [mkPutAttempt table it (put sink n table it)])
            (res_targetTables r) sent.

(** [storeResultsInTables]: the writes it sends, in order.  A result
    without target tables is passed over. *)
Definition storeResultsInTables (sink : Sink)
    (results : list ExtractionResult) (s3Location : S3Location)
  : list PutAttempt :=
  fold_left (fun sent r =>
               match res_targetTables r with
               | [] => sent
               | _ :: _ => storeInTables sink s3Location r sent
               end) results [].

End TextractUtils.

(* ================================================================== *)
(** ** AMTTextractProcessorFunctionAdvanced.js: the storage-event handler *)

Module ProcessorFunction.

Import TextractUtils.

(** The services a run of the handler talks to, as the outcomes of its
    requests. *)
Record Services : Type := mkServices {
  headObject : result (option (JsObject.t str));
  layoutAnalysis : result (option (list Block));
  scanCompanies : result (option (list CompanyRecord));
  formsAnalysis : result (option (list Block));
  targetTablesItem : str -> result (option (option (list str)));
  asyncProvider : Provider
}.

(** What the handler returns: status code 200 with the body members
    [pageCount], [resultsCount] and [results], or status code 500 with the
    message "Document processing failed", the exception and the document
    when its location was read. *)
Inductive HandlerResponse : Type :=
| Success (pageCount : JsNumber) (resultsCount : nat)
          (results : list ExtractionResult)
| Failure (error : Exn) (document : option S3Location).

(** [handler].  [location] is the outcome of reading the bucket and the
    decoded key from the event.  The multi-page flow is observed for
    [fuel] polls; [None] says it is still polling. *)
Definition handler (fuel : nat) (location : result S3Location)
    (services : Services) : option HandlerResponse :=
  match location with
  | Throw e => Some (Failure e None)
  | Ok s3Location =>
      let pageCount := getPageCount (headObject services)
                         (layoutAnalysis services) in
      let isMultiPage := greaterThanOne pageCount in
      let registry := getAllCompanyRecords (scanCompanies services) in
      if isMultiPage then
        match registry with
        | Throw e => Some (Failure e (Some s3Location))
        | Ok companyRecords =>
            match processMultiPageDocument fuel (asyncProvider services)
                    companyRecords with
            | StillPolling => None
            | Returned (Throw e) _ => Some (Failure e (Some s3Location))
            | Returned (Ok processingResults) _ =>
                Some (Success pageCount (List.length processingResults)
                        processingResults)
            end
        end
      else
        match processSinglePageDocument (formsAnalysis services) registry
                (fun company =>
                   getTargetTablesForCompany
                     (targetTablesItem services company)) with
        | Throw e => Some (Failure e (Some s3Location))
        | Ok processingResults =>
            Some (Success pageCount (List.length processingResults)
                    processingResults)
        end
  end.

End ProcessorFunction.

(* ================================================================== *)
(** ** LocalFileProcessing.js *)

Module LocalFileProcessing.

(** [getText] *)
Definition getText (block : Block) (blockMap : JsObject.t Block)
  : result str :=
  match Relationships block with
  | None => Ok (trim [])
  | Some rels =>
      text <- forOf rels (fun text relationship =>
                if isRelation CHILD relationship then
                  forOf (Ids relationship) (fun text childId =>
                    match JsObject.get blockMap childId with
                    | None => Throw TypeError      (* [child.BlockType] *)
                    | Some child =>
                        if isBlockType WORD child
                        then Ok (text ++ Text child ++ lit " ")
                        else Ok text
                    end) text
                else Ok text) [] ;;
      Ok (trim text)
  end.

(** [keyBlock.Relationships.find(r => r.Type === 'VALUE').Ids[0]]; an
    empty [Ids] gives [undefined], which as a property name reads
    "undefined". *)
Definition valueBlockIdOf (keyBlock : Block) : result str :=
  match Relationships keyBlock with
  | None => Throw TypeError
  | Some rels =>
      match find (isRelation VALUE) rels with
      | None => Throw TypeError
      | Some r =>
          match Ids r with
          | [] => Ok (lit "undefined")
          | id :: _ => Ok id
          end
      end
  end.

(** Body of [Object.keys(keyMap).forEach(...)]. *)
Definition pairKey (m : TextractUtils.BlockMaps)
    (keyValuePairs : JsObject.t str) (keyBlockId : str)
  : result (JsObject.t str) :=
  match JsObject.get (TextractUtils.keyMap m) keyBlockId with
  | None => Throw TypeError
  | Some keyBlock =>
      valueBlockId <- valueBlockIdOf keyBlock ;;
      match JsObject.get (TextractUtils.valueMap m) valueBlockId with
      | Some valueBlock =>
          keyText <- getText keyBlock (TextractUtils.blockMap m) ;;
          valueText <- getText valueBlock (TextractUtils.blockMap m) ;;
          if truthy (Some keyText) && truthy (Some valueText)
          then Ok (JsObject.set keyValuePairs (trim keyText) (trim valueText))
          else Ok keyValuePairs
      | None => Ok keyValuePairs
      end
  end.

(** [extractKeyValuePairs]; its first loop builds the same three maps as
    the one of [textract-utils.js]. *)
Definition extractKeyValuePairs (blocks : list Block)
  : result (JsObject.t str) :=
  m <- TextractUtils.organizeBlocks blocks ;;
  forOf (JsObject.keys (TextractUtils.keyMap m)) (pairKey m) JsObject.empty.

(** [extractText] of this file: every LINE text is followed by a
    newline. *)
Definition extractText (blocks : list Block) : str :=
  fold_left (fun text block =>
               if isBlockType LINE block
               then text ++ Text block ++ [newline] else text)
            blocks [].

(** The [result] object of the handler. *)
Record OrderFields : Type := mkOrderFields {
  orderNumber : str;
  deliverTo : str;
  date : str
}.

(** [if (keyValuePairs[name]) result.member = keyValuePairs[name]], on a
    member that holds the empty string. *)
Definition fromPairs (keyValuePairs : JsObject.t str) (name : str) : str :=
  match JsObject.get keyValuePairs name with
  | Some (c :: v) => c :: v
  | _ => []
  end.

(** [if (!member) { m = text.match(re); if (m) member = m[1].trim() }] *)
Definition orElseMatch (member : str) (found : option str) : str :=
  match member with
  | _ :: _ => member
  | [] => match found with
          | Some c => trim c
          | None => []
          end
  end.

(** The part of [handler] that reads the three order fields off the
    blocks of the analysis. *)
Definition handlerFields (blocks : list Block) : result OrderFields :=
  keyValuePairs <- extractKeyValuePairs blocks ;;
  let orderNumber := fromPairs keyValuePairs (lit "Your Order No") in
  let deliverTo := fromPairs keyValuePairs (lit "Deliver to:") in
  let date := fromPairs keyValuePairs (lit "Date:") in
  if negb (truthy (Some orderNumber)) || negb (truthy (Some deliverTo))
     || negb (truthy (Some date))
  then
    let text := extractText blocks in
    Ok (mkOrderFields
          (orElseMatch orderNumber
             (matchAfter (lit "Your Order No") restOfLine text))
          (orElseMatch deliverTo
             (matchAfter (lit "Deliver to:") restOfLine text))
          (orElseMatch date
             (matchAfter (lit "Date:") digitsAndSlashes text)))
  else Ok (mkOrderFields orderNumber deliverTo date).

End LocalFileProcessing.

(* ================================================================== *)
(** ** JavaScript numbers *)

Module JsDouble.

(** A double that is not NaN: a finite one, by its exact value, or an
    infinity.  The two zeros are one value here; they convert to the
    same string and compare equal. *)
Inductive t : Type :=
| Finite (value : Q)
| PlusInfinity
| MinusInfinity.

(** [2 ^ e] *)
Definition pow2 (e : Z) : Q :=
  if (0 <=? e)%Z then inject_Z (2 ^ e) else / inject_Z (2 ^ (- e)).

(** The exponent [e] with [2 ^ e <= x < 2 ^ (e + 1)], for [0 < x]. *)
Definition binade (x : Q) : Z :=
  if Qle_bool 1 x then Z.log2 (Qfloor x)
  else (- Z.log2_up (Qceiling (/ x)))%Z.

(** The nearest integer; a half goes to the even neighbour. *)
Definition roundHalfEven (z : Q) : Z :=
  let f := Qfloor z in
  match Qcompare (z - inject_Z f) (1 # 2) with
  | Lt => f
  | Gt => (f + 1)%Z
  | Eq => if Z.even f then f else (f + 1)%Z
  end.

(** Round to nearest, ties to even, for [0 < x]: 53 significant bits,
    the spacing of the subnormal numbers below [2 ^ -1022], and [None]
    for the overflow to infinity. *)
Definition nearestPositive (x : Q) : option Q :=
  let ulp := pow2 (Z.max (binade x - 52) (-1074)) in
  let y := inject_Z (roundHalfEven (x / ulp)) * ulp in
  if Qle_bool (pow2 1024) y then None else Some (Qred y).

(** The double nearest to the real number [x]: the result of an
    arithmetic operation whose exact result is [x], and the value of
    the numeric literal that reads [x]. *)
Definition nearest (x : Q) : t :=
  match Qcompare x 0 with
  | Eq => Finite 0
  | Gt => match nearestPositive x with
          | Some y => Finite y
          | None => PlusInfinity
          end
  | Lt => match nearestPositive (- x) with
          | Some y => Finite (- y)
          | None => MinusInfinity
          end
  end.

(** The finite double a decimal literal such as [0.9] denotes. *)
Definition decimal (q : Q) : Q :=
  match nearest q with
  | Finite value => value
  | _ => 0
  end.

(** [x * y] on finite doubles. *)
Definition times (x y : Q) : t := nearest (x * y).

(** [x / y] for a finite [y] above zero. *)
Definition divide (x : t) (y : Q) : t :=
  match x with
  | Finite value => nearest (value / y)
  | infinite => infinite
  end.

(** [Math.round(x)]: the nearest integer, halves upwards.  A double of
    magnitude [2 ^ 52] or more is an integer already, so that the result
    is a double again. *)
Definition Math_round (x : t) : t :=
  match x with
  | Finite value => Finite (inject_Z (Qfloor (value + (1 # 2))))
  | infinite => infinite
  end.

(** [String(x) === String(y)]: as property keys, two doubles name the
    same property exactly when they are the same number. *)
Definition sameKey (x y : t) : bool :=
  match x, y with
  | Finite a, Finite b => Qeq_bool a b
  | PlusInfinity, PlusInfinity => true
  | MinusInfinity, MinusInfinity => true
  | _, _ => false
  end.

(** The property key [String(x)] is an array index when [x] is an
    integer in [0, 2^32 - 2]. *)
Definition arrayIndex (x : t) : option Z :=
  match x with
  | Finite value =>
      let n := Qfloor value in
      if Qeq_bool (inject_Z n) value && (0 <=? n)%Z && (n <? 2 ^ 32 - 1)%Z
      then Some n else None
  | _ => None
  end.

End JsDouble.

(* ================================================================== *)
(** ** LocalFileProcessingAdvanced.js: the table zone extractor *)

Module LocalFileProcessingAdvanced.

(** The item under construction ([descriptions] is still an array). *)
Record CurrentItem : Type := mkCurrentItem {
  cur_itemNo : str;
  cur_quantity : str;
  cur_quantityUnit : str;
  cur_descriptions : list str;
  cur_unitPrice : str;
  cur_amount : str
}.

(** A returned item ([descriptions] joined into one string). *)
Record LineItem : Type := mkLineItem {
  itemNo : str;
  quantity : str;
  quantityUnit : str;
  descriptions : str;
  unitPrice : str;
  amount : str
}.

(** The [text] members of [headers]. *)
Definition headers : list str :=
  [lit "Item No."; lit "Quantity"; lit "Descriptions"; lit "Unit Price";
   lit "Amount"].

(** [headers.map(h => blocks.find(...)).filter(Boolean)] *)
Definition headerBlocks (blocks : list Block) : list Block :=
  flat_map (fun header =>
              match find (fun block => isBlockType LINE block
                                       && streq (Text block) header) blocks with
              | Some b => [b]
              | None => []
              end) headers.

(** [Math.min(...xs)] on a non-empty list. *)
Definition Qmin_list (x : Q) (xs : list Q) : Q :=
  fold_left (fun m y => if Qle_bool m y then m else y) xs x.

(** [const tableBottom = 0.9] *)
Definition tableBottom : Q := JsDouble.decimal (9 # 10).

Definition Qlt_bool (x y : Q) : bool := negb (Qle_bool y x).

(** [const y = Math.round(line.Geometry.BoundingBox.Top * 1000) / 1000] *)
Definition groupKey (line : Block) : JsDouble.t :=
  JsDouble.divide
    (JsDouble.Math_round (JsDouble.times (Top (BoundingBox line)) 1000))
    1000.

(** [lineGroups]: the groups under their keys, in creation order. *)
Definition LineGroups := list (JsDouble.t * list Block).

(** [if (!lineGroups[y]) lineGroups[y] = []; lineGroups[y].push(line)] *)
Fixpoint pushLine (groups : LineGroups) (y : JsDouble.t) (line : Block)
  : LineGroups :=
  match groups with
  | [] => [(y, [line])]
  | (y', g) :: groups' =>
      if JsDouble.sameKey y y' then (y', g ++ [line]) :: groups'
      else (y', g) :: pushLine groups' y line
  end.

(** The array index a key of [lineGroups] is, if it is one. *)
Definition groupIndex (y : JsDouble.t) : option Z := JsDouble.arrayIndex y.

Fixpoint insertGroup (n : Z) (g : list Block) (l : list (Z * list Block))
  : list (Z * list Block) :=
  match l with
  | [] => [(n, g)]
  | (m, g') :: l' =>
      if (n <? m)%Z then (n, g) :: l else (m, g') :: insertGroup n g l'
  end.

Fixpoint indexGroups (groups : LineGroups) : list (Z * list Block) :=
  match groups with
  | [] => []
  | (k, g) :: groups' =>
      match groupIndex k with
      | Some n => insertGroup n g (indexGroups groups')
      | None => indexGroups groups'
      end
  end.

(** [Object.values(lineGroups)]: groups under array-index keys first,
    ascending, then the others in creation order. *)
Definition Object_values (groups : LineGroups) : list (list Block) :=
  map snd (indexGroups groups)
  ++ map snd (filter (fun kg => match groupIndex (fst kg) with
                                | Some _ => false
                                | None => true
                                end) groups).

(** [group.sort((a, b) => a.Left - b.Left)]: stable, ascending. *)
Fixpoint insertByLeft (x : Block) (l : list Block) : list Block :=
  match l with
  | [] => [x]
  | y :: l' =>
      if Qle_bool (Left (BoundingBox x)) (Left (BoundingBox y))
      then x :: l else y :: insertByLeft x l'
  end.

Definition sortByLeft (group : list Block) : list Block :=
  fold_right insertByLeft [] group.

(** Longest prefix of characters satisfying [p], and the rest. *)
Fixpoint span (p : ascii -> bool) (s : str) : str * str :=
  match s with
  | [] => ([], [])
  | c :: s' =>
      if p c then let (a, b) := span p s' in (c :: a, b) else ([], s)
  end.

(** [/^(\d+)\.$/]: the captured digits. *)
Definition matchItemNo (s : str) : option str :=
  let (digits, rest) := span isDigit s in
  match digits with
  | [] => None
  | _ :: _ => if streq rest (lit ".") then Some digits else None
  end.

Definition units : list str :=
  [lit "PCS"; lit "PLS"; lit "EA"; lit "UNIT"; lit "UNITES"; lit "UNITS"].

(** [/^([\d,]+)\s+(PCS|PLS|EA|UNIT|UNITES|UNITS)$/i]: both captures. *)
Definition matchQuantity (s : str) : option (str * str) :=
  let (number, rest) := span (fun c => isDigit c || Ascii.eqb c ",") s in
  let (spaces, unit) := span isSpace rest in
  match number, spaces with
  | _ :: _, _ :: _ =>
      if existsb (fun u => streq (toLowerCase unit) (toLowerCase u)) units
      then Some (number, unit) else None
  | _, _ => None
  end.

(** [/^[A-Z]{2}\d+/] *)
Definition matchProductCode (s : str) : bool :=
  match s with
  | a :: b :: d :: _ => isUpper a && isUpper b && isDigit d
  | _ => false
  end.

(** [/^CODE\s/] *)
Definition matchCode (s : str) : bool :=
  match s with
  | c :: o :: d :: e :: w :: _ =>
      streq [c; o; d; e] (lit "CODE") && isSpace w
  | _ => false
  end.

(** [/^LOT\sNo/i] *)
Definition matchLot (s : str) : bool :=
  match s with
  | l :: o :: t :: w :: n :: o' :: _ =>
      streq (toLowerCase [l; o; t]) (lit "lot") && isSpace w
      && streq (toLowerCase [n; o']) (lit "no")
  | _ => false
  end.

(** [group.some(line => headers.some(h => line.Text === h.text))] *)
Definition isHeaderRow (group : list Block) : bool :=
  existsb (fun line => existsb (fun h => streq (Text line) h) headers) group.

Definition newItem (no : str) : CurrentItem :=
  mkCurrentItem no [] [] [] [] [].

(** The classification of a line of the current item. *)
Definition classify (currentItem : CurrentItem) (lineText : str)
  : CurrentItem :=
  match matchQuantity lineText with
  | Some (q, u) =>
      mkCurrentItem (cur_itemNo currentItem) q (toLowerCase u)
        (cur_descriptions currentItem) (cur_unitPrice currentItem)
        (cur_amount currentItem)
  | None =>
      if matchProductCode lineText || matchCode lineText || matchLot lineText
      then mkCurrentItem (cur_itemNo currentItem) (cur_quantity currentItem)
             (cur_quantityUnit currentItem)
             (cur_descriptions currentItem ++ [lineText])
             (cur_unitPrice currentItem) (cur_amount currentItem)
      else currentItem
  end.

(** Body of [Object.values(lineGroups).forEach(group => ...)], on the
    pair of [items] and [currentItem]. *)
Definition processGroup (st : list CurrentItem * option CurrentItem)
    (group : list Block) : list CurrentItem * option CurrentItem :=
  let (items, currentItem) := st in
  if isHeaderRow group then st
  else
    match sortByLeft group with
    | [] => st
    | first :: _ =>
        match matchItemNo (Text first) with
        | Some no =>
            (match currentItem with
             | Some cur => items ++ [cur]
             | None => items
             end, Some (newItem no))
        | None =>
            match currentItem with
            | Some cur => (items, Some (classify cur (Text first)))
            | None => st
            end
        end
    end.

Definition finalize (item : CurrentItem) : LineItem :=
  mkLineItem (cur_itemNo item) (cur_quantity item) (cur_quantityUnit item)
    (join (lit " ") (cur_descriptions item))
    (cur_unitPrice item) (cur_amount item).

(** [Math.min(...headerBlocks.map(h => h.Top))]; [None] when no header
    line is found. *)
Definition tableTopOf (blocks : list Block) : option Q :=
  match map (fun h => Top (BoundingBox h)) (headerBlocks blocks) with
  | [] => None
  | t :: ts => Some (Qmin_list t ts)
  end.

Definition tableLines (blocks : list Block) (tableTop : Q) : list Block :=
  filter (fun block => isBlockType LINE block
                       && Qlt_bool tableTop (Top (BoundingBox block))
                       && Qlt_bool (Top (BoundingBox block)) tableBottom)
         blocks.

Definition lineGroupsOf (lines : list Block) : LineGroups :=
  fold_left (fun groups line => pushLine groups (groupKey line) line)
            lines [].

(** [extractTableData] *)
Definition extractTableData (blocks : list Block) : list LineItem :=
  match tableTopOf blocks with
  | None => []
  | Some tableTop =>
      let lineGroups := lineGroupsOf (tableLines blocks tableTop) in
      let (items, currentItem) :=
        fold_left processGroup (Object_values lineGroups) ([], None) in
      let items := match currentItem with
                   | Some cur => items ++ [cur]
                   | None => items
                   end in
      map finalize items
  end.

(** The [response] the handler of this file builds from the blocks: the
    three order fields (read as in [LocalFileProcessing.js], whose helpers
    this file repeats) and the table items. *)
Definition handlerResponse (blocks : list Block)
  : result (LocalFileProcessing.OrderFields * list LineItem) :=
  result <- LocalFileProcessing.handlerFields blocks ;;
  Ok (result, extractTableData blocks).

End LocalFileProcessingAdvanced.

(* ================================================================== *)
(** ** Sample blocks, records and providers *)

Module Samples.

Local Open Scope string_scope.

Definition box (top left : Q) : BoundingBoxT := mkBoundingBox top left 0 0.

Definition lineAt (id text : string) (top left : Q) : Block :=
  mkBlock (lit id) LINE (lit text) None None None (box top left) None.

Definition line (id text : string) : Block := lineAt id text 0 0.

(** A LINE block carrying a CHILD relationship to the given ids. *)
Definition lineOf (id text : string) (ids : list string) : Block :=
  mkBlock (lit id) LINE (lit text) None None
    (Some [mkRelationship CHILD (map lit ids)]) (box 0 0) None.

Definition page (id : string) : Block :=
  mkBlock (lit id) PAGE [] None None None (box 0 0) None.

Definition word (id text : string) : Block :=
  mkBlock (lit id) WORD (lit text) None None None (box 0 0) None.

Definition keySet (id : string) (children values : list string) : Block :=
  mkBlock (lit id) KEY_VALUE_SET [] (Some [KEY]) None
    (Some [mkRelationship VALUE (map lit values);
           mkRelationship CHILD (map lit children)]) (box 0 0) None.

Definition valueSet (id : string) (children : list string) : Block :=
  mkBlock (lit id) KEY_VALUE_SET [] (Some [VALUE_ENTITY]) None
    (Some [mkRelationship CHILD (map lit children)]) (box 0 0) None.

Definition acme : CompanyRecord :=
  mkCompanyRecord (lit "Acme") [lit "Date:"] (Some [lit "orders"]).

Definition acmeCorp : CompanyRecord :=
  mkCompanyRecord (lit "Acme Corp") [lit "Date:"] (Some [lit "invoices"]).

(** The pattern-fallback input whose flattened text is
    "Date: 2024-01-05" followed by a newline. *)
Definition dateBlocks : list Block :=
  [line "l1" "Date: 2024-01-05"; line "l2" ""].

(** A block whose only child id resolves to nothing. *)
Definition orphanParent : Block :=
  mkBlock (lit "k") KEY_VALUE_SET [] (Some [KEY]) None
    (Some [mkRelationship CHILD [lit "missing"]]) (box 0 0) None.

(** Two form keys; the first is paired with a value id that no block
    carries, the second with the value "Bob". *)
Definition danglingValueBlocks : list Block :=
  [ word "w1" "Ref"; word "w2" "Name"; word "w3" "Bob";
    keySet "k1" ["w1"] ["gone"];
    keySet "k2" ["w2"] ["v2"];
    valueSet "v2" ["w3"] ].

(** Two form keys with the same text "Name"; "k1" is met first. *)
Definition duplicateKeyBlocks : list Block :=
  [ word "w1" "Name"; word "w2" "Alice"; word "w3" "Name"; word "w4" "Bob";
    keySet "k1" ["w1"] ["v1"]; valueSet "v1" ["w2"];
    keySet "k2" ["w3"] ["v2"]; valueSet "v2" ["w4"] ].

Definition duplicateKeyMaps : TextractUtils.BlockMaps :=
  Eval vm_compute in
    match TextractUtils.organizeBlocks duplicateKeyBlocks with
    | Ok m => m
    | Throw _ => TextractUtils.mkBlockMaps [] [] []
    end.

(** A two-batch job: each batch holds one page of an Acme order; the
    first response carries the cursor "t1" and the given status. *)
Definition batch1 (status : JobStatusT) : Response :=
  mkResponse status
    (Some [page "p1"; lineOf "a1" "Acme order" ["p1"]])
    (Some (lit "t1")).

Definition batch2 : Response :=
  mkResponse SUCCEEDED
    (Some [page "p2"; lineOf "a2" "Acme order, page two" ["p2"]])
    None.

Definition twoBatches (status : JobStatusT) : TextractUtils.Provider :=
  TextractUtils.mkProvider (Ok (lit "job-1"))
    (fun polls _ _ => Ok (match polls with
                          | O => batch1 status
                          | _ => batch2
                          end)).

(** A job that reports IN_PROGRESS with a cursor at every poll. *)
Definition neverDone : TextractUtils.Provider :=
  TextractUtils.mkProvider (Ok (lit "job-2"))
    (fun _ _ _ => Ok (mkResponse IN_PROGRESS (Some []) (Some (lit "more")))).

(** A job that terminates at the poll made after [n] earlier ones. *)
Definition doneAfter (n : nat) : TextractUtils.Provider :=
  TextractUtils.mkProvider (Ok (lit "job-3"))
    (fun polls _ _ =>
       Ok (if (polls <? n)%nat
           then mkResponse IN_PROGRESS (Some []) (Some (lit "more"))
           else mkResponse SUCCEEDED (Some []) None)).

(** The table of the order form: a header row at top 0.10 and four
    rows below it. *)
Definition tableBlocks : list Block :=
  [ lineAt "h1" "Item No." (1 # 10) (1 # 10);
    lineAt "h2" "Quantity" (1 # 10) (3 # 10);
    lineAt "r1" "1." (2 # 10) (1 # 10);
    lineAt "r2" "2,000 PCS" (25 # 100) (3 # 10);
    lineAt "r3" "2." (3 # 10) (1 # 10);
    lineAt "r4" "500 EA" (35 # 100) (3 # 10) ].

(** An order whose number stands on the line after its label and whose
    date is written with hyphens; it holds no form keys. *)
Definition hyphenDateOrder : list Block :=
  [line "l1" "Your Order No"; line "l2" " PO-77 ";
   line "l3" "Date: 2024-01-05"].

(** A LINE block placed at the coordinates the decimal literals denote. *)
Definition lineNear (id text : string) (top left : Q) : Block :=
  lineAt id text (JsDouble.decimal top) (JsDouble.decimal left).

(** The order table with double coordinates: two header lines at top
    0.10 and four rows of one line each. *)
Definition orderTable : list Block :=
  [ lineNear "h1" "Item No." (1 # 10) (1 # 10);
    lineNear "h2" "Quantity" (1 # 10) (3 # 10);
    lineNear "r1" "1." (2 # 10) (1 # 10);
    lineNear "r2" "2,000 PCS" (25 # 100) (3 # 10);
    lineNear "r3" "2." (3 # 10) (1 # 10);
    lineNear "r4" "500 EA" (35 # 100) (3 # 10) ].

(** The same table, whose first row also holds, to the right of "1.",
    a line that reads "Quantity". *)
Definition orderTableWithLabel : list Block :=
  [ lineNear "h1" "Item No." (1 # 10) (1 # 10);
    lineNear "h2" "Quantity" (1 # 10) (3 # 10);
    lineNear "r1" "1." (2 # 10) (1 # 10);
    lineNear "q1" "Quantity" (2 # 10) (3 # 10);
    lineNear "r2" "2,000 PCS" (25 # 100) (3 # 10);
    lineNear "r3" "2." (3 # 10) (1 # 10);
    lineNear "r4" "500 EA" (35 # 100) (3 # 10) ].

(** A table whose lines come out of row order and out of left-to-right
    order: the tops 0.1025 and 0.1034 fall in one row, 0.3 in another;
    the header sits at top 0.0001 and the last line, at top 0.0004, is
    quantised to 0. *)
Definition shuffledTable : list Block :=
  [ lineNear "c" "FG0244" (3 # 10) (5 # 10);
    lineNear "b" "7 units" (1034 # 10000) (6 # 10);
    lineNear "h" "Amount" (1 # 10000) (1 # 10);
    lineNear "d" "12." (3 # 10) (2 # 10);
    lineNear "a" "3." (1025 # 10000) (2 # 10);
    lineNear "z" "9." (4 # 10000) (2 # 10) ].

(** The services of a run in which the stored object declares its page
    count, the registry holds Acme Corp only and every text reads
    "Acme order". *)
Definition declaring (count : string) : ProcessorFunction.Services :=
  ProcessorFunction.mkServices
    (Ok (Some [(lit "x-amz-meta-page-count", lit count)]))
    (Throw TypeError)
    (Ok (Some [acmeCorp]))
    (Ok (Some [line "l1" "Acme order"]))
    (fun _ => Ok None)
    (twoBatches IN_PROGRESS).

Definition inbox : TextractUtils.S3Location :=
  TextractUtils.mkS3Location (lit "inbox") (lit "po/17.pdf").

End Samples.

(* ================================================================== *)
(** ** Vocabulary of the statements *)

(** [p] occurs in [s] as a contiguous substring. *)
Definition Substring (p s : str) : Prop :=
  exists before after, s = before ++ p ++ after.

(** [name] occurs in [text] up to letter case. *)
Definition MatchesIgnoringCase (name text : str) : Prop :=
  Substring (toLowerCase name) (toLowerCase text).

(** A separator of the pattern fallback read as a colon. *)
Definition colonize (c : ascii) : ascii :=
  if TextractUtils.isSeparator c then ":"%char else c.

(** Every id of every CHILD relationship of [block] is a key of [blockMap]. *)
Definition ChildrenResolve (block : Block) (blockMap : JsObject.t Block) : Prop :=
  forall rels rel id,
    Relationships block = Some rels -> In rel rels ->
    isRelation CHILD rel = true -> In id (Ids rel) ->
    JsObject.get blockMap id <> None.

(** Some id of a CHILD relationship of [block] is no key of [blockMap]. *)
Definition DanglingChild (block : Block) (blockMap : JsObject.t Block) : Prop :=
  exists rels rel id,
    Relationships block = Some rels /\ In rel rels /\
    isRelation CHILD rel = true /\ In id (Ids rel) /\
    JsObject.get blockMap id = None.

(** The ids a key block lists in its VALUE relationships, in order. *)
Definition valueIdsOf (keyBlock : Block) : list str :=
  match Relationships keyBlock with
  | None => []
  | Some rels => flat_map Ids (filter (isRelation VALUE) rels)
  end.

(** The text of the left-most line of a group. *)
Definition leftmostText (group : list Block) : option str :=
  option_map Text (hd_error (LocalFileProcessingAdvanced.sortByLeft group)).

(** [id] is a key of [blockMap]. *)
Definition resolves (blockMap : JsObject.t Block) (id : str) : bool :=
  match JsObject.get blockMap id with Some _ => true | None => false end.

(** The ids a block lists in its CHILD relationships, in order. *)
Definition childIds (block : Block) : list str :=
  match Relationships block with
  | None => []
  | Some rels => flat_map Ids (filter (isRelation CHILD) rels)
  end.

(** The write one VALUE id of a key block makes to the result of
    [TextractUtils.extractKeyValuePairs], under the key text. *)
Definition writer (m : TextractUtils.BlockMaps) (keyText : str)
    (keyValues : JsObject.t str) (valueId : str) : result (JsObject.t str) :=
  valueText <- TextractUtils.getTextForBlock
                 (JsObject.get (TextractUtils.valueMap m) valueId)
                 (TextractUtils.blockMap m) ;;
  Ok (JsObject.set keyValues keyText valueText).

(** What the child [id] adds to the text of its parent in
    [TextractUtils.getTextForBlock]. *)
Definition contribution (blockMap : JsObject.t Block) (id : str) : list str :=
  match JsObject.get blockMap id with
  | Some w =>
      if isBlockType WORD w then [Text w]
      else if isBlockType SELECTION_ELEMENT w then
        [match SelectionStatus w with
         | Some SELECTED => lit "[X]"
         | _ => lit "[ ]"
         end]
      else []
  | None => []
  end.

(** A string that is not empty and has no white space at either end. *)
Definition Trimmed (s : str) : Prop := s <> [] /\ trim s = s.

(** No LINE block of [blocks] lists [pageId] in a CHILD relationship. *)
Definition NoLineOfPage (blocks : list Block) (pageId : str) : Prop :=
  forall block, In block blocks -> isBlockType LINE block = true ->
    TextractUtils.relsSome (Relationships block)
      (fun rel => isRelation CHILD rel && idsInclude (Ids rel) pageId) = false.

(** The item number a line group opens, if it opens an item. *)
Definition itemNumberOf (group : list Block) : list str :=
  if LocalFileProcessingAdvanced.isHeaderRow group then []
  else match leftmostText group with
       | Some text =>
           match LocalFileProcessingAdvanced.matchItemNo text with
           | Some no => [no]
           | None => []
           end
       | None => []
       end.

(** The members of a returned item are of the shapes the row patterns
    produce. *)
Definition WellShapedItem (i : LocalFileProcessingAdvanced.LineItem) : Prop :=
  LocalFileProcessingAdvanced.itemNo i <> [] /\
  forallb isDigit (LocalFileProcessingAdvanced.itemNo i) = true /\
  LocalFileProcessingAdvanced.unitPrice i = [] /\
  LocalFileProcessingAdvanced.amount i = [] /\
  ((LocalFileProcessingAdvanced.quantity i = [] /\
    LocalFileProcessingAdvanced.quantityUnit i = []) \/
   (LocalFileProcessingAdvanced.quantity i <> [] /\
    forallb (fun c => isDigit c || Ascii.eqb c ",")
      (LocalFileProcessingAdvanced.quantity i) = true /\
    In (LocalFileProcessingAdvanced.quantityUnit i)
       (map toLowerCase LocalFileProcessingAdvanced.units))).

(** The part of a write that does not depend on the sink or the clock. *)
Definition writeOf (a : TextractUtils.PutAttempt) : str * str * nat * str :=
  (TextractUtils.tableName a,
   TextractUtils.item_company (TextractUtils.item a),
   TextractUtils.item_pageNumber (TextractUtils.item a),
   TextractUtils.documentId (TextractUtils.item a)).

(** The page of a batch finds no company in the registry. *)
Definition NoCompanyOnPages (blocks : list Block)
    (records : list CompanyRecord) : Prop :=
  forall pageBlock, In pageBlock (filter (isBlockType PAGE) blocks) ->
    TextractUtils.findMatchingCompanyInPage
      (TextractUtils.extractTextFromPage blocks (Id pageBlock)) records = None.

(** The results gathered so far carry strictly increasing page numbers,
    all at least 1 and below the counter. *)
Definition Numbered (st : TextractUtils.LoopState) : Prop :=
  StronglySorted lt (map pageNumber (TextractUtils.results st)) /\
  Forall (fun r => (1 <= pageNumber r < TextractUtils.currentPage st)%nat)
         (TextractUtils.results st).

(** The items of the row-detection state: those already pushed, then the
    current one. *)
Definition itemsOf
    (st : list LocalFileProcessingAdvanced.CurrentItem
          * option LocalFileProcessingAdvanced.CurrentItem)
  : list LocalFileProcessingAdvanced.CurrentItem :=
  fst st ++ match snd st with Some cur => [cur] | None => [] end.

(** The page count of the document cannot be established: the metadata
    request fails, or it declares no count and the layout analysis fails
    or carries no blocks. *)
Definition PageCountUnknown (services : ProcessorFunction.Services) : Prop :=
  (exists e, ProcessorFunction.headObject services = Throw e) \/
  (exists metadata,
      ProcessorFunction.headObject services = Ok metadata /\
      truthy (match metadata with
              | Some md => JsObject.get md (lit "x-amz-meta-page-count")
              | None => None
              end) = false /\
      ((exists e, ProcessorFunction.layoutAnalysis services = Throw e) \/
       ProcessorFunction.layoutAnalysis services = Ok None)).

(** Every response the provider gives carries blocks, and no page of it
    finds a company in the registry. *)
Definition NoCompanyInJob (provider : TextractUtils.Provider)
    (records : list CompanyRecord) : Prop :=
  forall polls jobId token response,
    TextractUtils.getDocumentAnalysis provider polls jobId token = Ok response ->
    exists blocks,
      Blocks response = Some blocks /\ NoCompanyOnPages blocks records.

(** A double below 1: as a property key it is no array index, unless
    it is 0. *)
Definition BelowOne (x : JsDouble.t) : Prop :=
  match x with
  | JsDouble.Finite v => v < 1
  | JsDouble.MinusInfinity => True
  | JsDouble.PlusInfinity => False
  end.

(** *** The table zone, in the words of its description *)

Module TableSpec.

(** The vertical position of a line quantised to three decimals: the
    top times 1000, rounded to the nearest whole number, divided by
    1000, each step in double arithmetic. *)
Definition quantizedTop (line : Block) : JsDouble.t :=
  JsDouble.divide
    (JsDouble.Math_round (JsDouble.times (Top (BoundingBox line)) 1000))
    1000.

(** Two lines are in the same row when their quantised tops are the
    same number. *)
Definition sameRow (a b : Block) : bool :=
  JsDouble.sameKey (quantizedTop a) (quantizedTop b).

(** [h] is the first LINE block of [blocks] whose text is [label]. *)
Definition FirstLineWith (blocks : list Block) (label : str) (h : Block)
  : Prop :=
  exists before after,
    blocks = before ++ h :: after /\
    BlockType h = LINE /\ Text h = label /\
    forall b, In b before -> ~ (BlockType b = LINE /\ Text b = label).

(** [tableTop] is the least top among the matched header lines: the
    first LINE block of each header label that some LINE block
    carries. *)
Definition LeastHeaderTop (blocks : list Block) (tableTop : Q) : Prop :=
  (exists label h,
      In label LocalFileProcessingAdvanced.headers /\
      FirstLineWith blocks label h /\
      Top (BoundingBox h) == tableTop) /\
  (forall label h,
      In label LocalFileProcessingAdvanced.headers ->
      FirstLineWith blocks label h ->
      tableTop <= Top (BoundingBox h)).

(** The lines of the table region, in block order: the LINE blocks whose
    top lies strictly between [tableTop] and 0.9. *)
Definition regionLines (blocks : list Block) (tableTop : Q) : list Block :=
  filter (fun block =>
            isBlockType LINE block
            && negb (Qle_bool (Top (BoundingBox block)) tableTop)
            && negb (Qle_bool (JsDouble.decimal (9 # 10))
                              (Top (BoundingBox block))))
         blocks.

(** The lines that open a row: those with no earlier line in their
    row. *)
Fixpoint rowOpeners (earlier lines : list Block) : list Block :=
  match lines with
  | [] => []
  | line :: lines' =>
      if existsb (sameRow line) earlier
      then rowOpeners (earlier ++ [line]) lines'
      else line :: rowOpeners (earlier ++ [line]) lines'
  end.

(** The rows of [lines]: one for each line that opens a row, in block
    order; a row holds the lines of its opener's row, in block order. *)
Definition rowsOf (lines : list Block) : list (list Block) :=
  map (fun opener => filter (sameRow opener) lines) (rowOpeners [] lines).

(** The left-most line of a row: the first, in block order, of the lines
    whose left is least. *)
Definition leftmostLine (row : list Block) : option Block :=
  find (fun line =>
          forallb (fun other => Qle_bool (Left (BoundingBox line))
                                         (Left (BoundingBox other))) row)
       row.

(** Some line of the row carries a header label as its whole text. *)
Definition repeatsHeader (row : list Block) : bool :=
  existsb (fun line =>
             existsb (streq (Text line)) LocalFileProcessingAdvanced.headers)
          row.

(** The digits of a text made of one digit or more and a final full
    stop. *)
Definition itemNumberIn (text : str) : option str :=
  match rev text with
  | last :: d :: digits =>
      if Ascii.eqb last "." && forallb isDigit (d :: digits)
      then Some (rev (d :: digits)) else None
  | _ => None
  end.

(** The item number a row opens, if it opens an item: it repeats no
    header label and its left-most line reads as an item number. *)
Definition rowNumber (row : list Block) : list str :=
  if repeatsHeader row then []
  else match leftmostLine row with
       | Some line =>
           match itemNumberIn (Text line) with
           | Some no => [no]
           | None => []
           end
       | None => []
       end.

(** The line is quantised to the top of the page, 0. *)
Definition atPageTop (line : Block) : bool :=
  JsDouble.sameKey (quantizedTop line) (JsDouble.Finite 0).

(** The rows of [lines] in the order in which the extractor walks them:
    the row quantised to 0, if there is one, then the other rows in the
    order in which they open. *)
Definition rowsInOrder (lines : list Block) : list (list Block) :=
  map (fun opener => filter (sameRow opener) lines)
      (filter atPageTop (rowOpeners [] lines)
       ++ filter (fun opener => negb (atPageTop opener))
                 (rowOpeners [] lines)).

(** No line of the region has a quantised top that, as a property key,
    is an array index (a whole number from 0 to 2^32 - 2). *)
Definition NoWholeNumberRow (lines : list Block) : Prop :=
  forall line, In line lines -> JsDouble.arrayIndex (quantizedTop line) = None.

End TableSpec.

(** The groups the grouping loop holds once the lines [seen] are in:
    one for each of [openers], under its quantised top, with the lines
    of [seen] in its row. *)
Definition groupsOver (openers seen : list Block)
  : LocalFileProcessingAdvanced.LineGroups :=
  map (fun opener => (TableSpec.quantizedTop opener,
                      filter (TableSpec.sameRow opener) seen))
      openers.

(** The invariant of the grouping loop. *)
Definition Grouped (seen : list Block)
    (groups : LocalFileProcessingAdvanced.LineGroups) : Prop :=
  groups = groupsOver (TableSpec.rowOpeners [] seen) seen /\
  ForallOrdPairs (fun a b => TableSpec.sameRow a b = false)
    (TableSpec.rowOpeners [] seen) /\
  (forall line, In line seen ->
     exists opener, In opener (TableSpec.rowOpeners [] seen) /\
                    TableSpec.sameRow opener line = true) /\
  (forall opener, In opener (TableSpec.rowOpeners [] seen) -> In opener seen).

(** A digit or a slash. *)
Definition isDateChar (c : ascii) : bool := isDigit c || Ascii.eqb c "/".

(** [s] does not begin with a character satisfying [p]. *)
Definition StopsAt (p : ascii -> bool) (s : str) : Prop :=
  match s with
  | [] => True
  | c :: _ => p c = false
  end.

(** After the prefix [before], [text] reads "Date:", then white space
    (possibly none), then [d], where [d] is a whole run of digits and
    slashes: it is not empty and the text does not go on with a digit or
    a slash. *)
Definition DateRunAt (text before d : str) : Prop :=
  exists spaces after,
    text = before ++ lit "Date:" ++ spaces ++ d ++ after /\
    forallb isSpace spaces = true /\
    d <> [] /\ forallb isDateChar d = true /\ StopsAt isDateChar after.

(** Decides whether the text at hand is an item number. *)
Ltac item_number :=
  match goal with
  | |- context [LocalFileProcessingAdvanced.matchItemNo ?text] =>
      let r := eval vm_compute in (LocalFileProcessingAdvanced.matchItemNo text) in
      change (LocalFileProcessingAdvanced.matchItemNo text) with r; cbv iota
  end.

(* ================================================================== *)
(** * Properties *)

(** ** Strings *)

Section StringFacts.

Lemma streq_eq (a b : str) : streq a b = true <-> a = b.
Proof.
  revert b; induction a as [|x a IH]; intros [|y b]; simpl;
    try (split; [discriminate | congruence]); try tauto.
  rewrite andb_true_iff, Ascii.eqb_eq, IH.
  split; [intros [-> ->]; reflexivity | intros H; inversion H; auto].
Qed.

Lemma streq_refl (a : str) : streq a a = true.
Proof. apply streq_eq; reflexivity. Qed.

Lemma streq_neq (a b : str) : streq a b = false <-> a <> b.
Proof.
  rewrite <- streq_eq. destruct (streq a b); split; congruence.
Qed.

Lemma startsWith_spec (s p : str) :
  startsWith s p = true <-> exists rest, s = p ++ rest.
Proof.
  revert s; induction p as [|y p IH]; intros s; simpl.
  - split; [intros _; exists s; reflexivity | reflexivity].
  - destruct s as [|x s].
    + split; [discriminate | intros [r H]; discriminate].
    + rewrite andb_true_iff, Ascii.eqb_eq, IH. split.
      * intros [-> [r ->]]. exists r; reflexivity.
      * intros [r H]. inversion H; subst. split; [reflexivity | eauto].
Qed.

(** [includes] decides the substring relation. *)
Lemma includes_spec (s p : str) :
  includes s p = true <-> exists before after, s = before ++ p ++ after.
Proof.
  induction s as [|x s IH]; simpl.
  - rewrite orb_false_r, startsWith_spec. split.
    + intros [r H]. exists [], r. exact H.
    + intros [b [a H]]. destruct b; simpl in H.
      * exists a; exact H.
      * discriminate.
  - rewrite orb_true_iff, startsWith_spec, IH. split.
    + intros [[r H] | [b [a H]]].
      * exists [], r; exact H.
      * exists (x :: b), a. simpl. rewrite H. reflexivity.
    + intros [[|y b] [a H]]; simpl in H.
      * left; exists a; exact H.
      * right. inversion H; subst. exists b, a; reflexivity.
Qed.

Lemma toLowerChar_not_upper (c : ascii) : isUpper (toLowerChar c) = false.
Proof.
  destruct c as [[] [] [] [] [] [] [] []]; vm_compute; reflexivity.
Qed.

Lemma toLowerCase_app (a b : str) :
  toLowerCase (a ++ b) = toLowerCase a ++ toLowerCase b.
Proof. apply map_app. Qed.

Lemma toLowerCase_no_upper (s : str) (c : ascii) :
  In c (toLowerCase s) -> isUpper c = false.
Proof.
  unfold toLowerCase. rewrite in_map_iff.
  intros [x [<- _]]. apply toLowerChar_not_upper.
Qed.

Lemma trimStart_incl (s : str) (c : ascii) : In c (trimStart s) -> In c s.
Proof.
  induction s as [|x s IH]; simpl; [tauto|].
  destruct (isSpace x); simpl; tauto.
Qed.

Lemma trim_incl (s : str) (c : ascii) : In c (trim s) -> In c s.
Proof.
  unfold trim, trimEnd. intros H.
  apply in_rev in H. apply trimStart_incl in H. apply in_rev in H.
  apply trimStart_incl in H. exact H.
Qed.

Lemma trimStart_decompose (s : str) :
  exists lead, s = lead ++ trimStart s /\ forallb isSpace lead = true.
Proof.
  induction s as [|c s IH]; simpl.
  - exists []. auto.
  - destruct (isSpace c) eqn:Hc.
    + destruct IH as [lead [Hs Hlead]]. exists (c :: lead). simpl.
      rewrite Hc, Hlead, <- Hs. auto.
    + exists []. auto.
Qed.

(** [trim] removes white space at both ends and nothing else. *)
Lemma trim_decompose (s : str) :
  exists lead trail,
    s = lead ++ trim s ++ trail /\
    forallb isSpace lead = true /\ forallb isSpace trail = true.
Proof.
  unfold trim, trimEnd.
  destruct (trimStart_decompose s) as [lead [Hs Hlead]].
  destruct (trimStart_decompose (rev (trimStart s))) as [tl [Hr Htl]].
  exists lead, (rev tl). split; [|split; [exact Hlead|]].
  - rewrite <- rev_app_distr, <- Hr, rev_involutive. exact Hs.
  - apply forallb_forall. intros c Hc. apply in_rev in Hc.
    rewrite forallb_forall in Htl. exact (Htl c Hc).
Qed.

End StringFacts.

(** ** Pattern fallback *)

Section PatternFallback.

Import TextractUtils.

Lemma split_not_nil (p : ascii -> bool) (s : str) : split p s <> [].
Proof.
  induction s as [|c s IH]; simpl; [discriminate|].
  destruct (p c); [discriminate|].
  destruct (split p s); discriminate.
Qed.

(** Splitting on the separators and joining with a colon rewrites every
    separator to a colon and keeps everything else. *)
Lemma join_split_colonize (s : str) :
  join (lit ":") (split isSeparator s) = map colonize s.
Proof.
  induction s as [|c s IH]; simpl; [reflexivity|].
  unfold colonize at 1.
  destruct (isSeparator c) eqn:Hc.
  - destruct (split isSeparator s) as [|q qs] eqn:Hs.
    + exfalso; eapply split_not_nil; eassumption.
    + rewrite <- IH. reflexivity.
  - destruct (split isSeparator s) as [|q qs] eqn:Hs.
    + exfalso; eapply split_not_nil; eassumption.
    + rewrite <- IH. destruct qs; reflexivity.
Qed.

(** The first piece of a split ends at the first separator. *)
Lemma split_first (p : ascii -> bool) (s : str) :
  exists piece pieces,
    split p s = piece :: pieces /\
    forallb (fun c => negb (p c)) piece = true /\
    ((pieces = [] /\ s = piece) \/
     (exists c rest, p c = true /\ s = piece ++ c :: rest /\
                     pieces = split p rest)).
Proof.
  induction s as [|c s IH]; simpl.
  - exists [], []. auto.
  - destruct (p c) eqn:Hc.
    + exists [], (split p s). repeat split; auto.
      right. exists c, s. auto.
    + destruct IH as [q [qs [Hs [Hq Hcase]]]]. rewrite Hs.
      exists (c :: q), qs. split; [reflexivity|]. split.
      * simpl. rewrite Hc, Hq. reflexivity.
      * destruct Hcase as [[-> ->] | [d [rest [Hd [-> ->]]]]].
        -- left; auto.
        -- right. exists d, rest. auto.
Qed.

Lemma split_chars (p : ascii -> bool) (s piece : str) (c : ascii) :
  In piece (split p s) -> In c piece -> In c s.
Proof.
  revert piece; induction s as [|x s IH]; simpl; intros piece Hp Hc.
  - destruct Hp as [<- | []]. destruct Hc.
  - destruct (p x).
    + destruct Hp as [<- | Hp]; [destruct Hc | right; eauto].
    + destruct (split p s) as [|q qs] eqn:Hs.
      * destruct Hp as [<- | []]. destruct Hc as [-> | []]. left; reflexivity.
      * destruct Hp as [<- | Hp].
        -- destruct Hc as [-> | Hc]; [left; reflexivity|].
           right. apply (IH q); [left; reflexivity | exact Hc].
        -- right. apply (IH piece); [right; exact Hp | exact Hc].
Qed.

(** What a successful scan returns, and from which line. *)
Lemma scanLines_some (lines : list str) (fieldName v : str) :
  scanLines lines fieldName = Some v ->
  exists skipped line after before sep rest,
    lines = skipped ++ line :: after /\
    (forall l, In l skipped -> scanLines [l] fieldName = None) /\
    includes line (toLowerCase fieldName) = true /\
    line = before ++ sep :: rest /\
    isSeparator sep = true /\
    forallb (fun c => negb (isSeparator c)) before = true /\
    v = trim (map colonize rest).
Proof.
  induction lines as [|l lines IH]; [discriminate|].
  cbn [scanLines].
  assert (Hskip : scanLines lines fieldName = Some v ->
                  scanLines [l] fieldName = None ->
                  exists skipped line after before sep rest,
                    l :: lines = skipped ++ line :: after /\
                    (forall l, In l skipped -> scanLines [l] fieldName = None) /\
                    includes line (toLowerCase fieldName) = true /\
                    line = before ++ sep :: rest /\
                    isSeparator sep = true /\
                    forallb (fun c => negb (isSeparator c)) before = true /\
                    v = trim (map colonize rest)).
  { intros H Hl.
    destruct (IH H) as (sk & ln & af & b & sp & r & -> & Hsk & Hrest).
    exists (l :: sk), ln, af, b, sp, r. split; [reflexivity|].
    split; [|exact Hrest].
    intros l' [<- | Hin]; [exact Hl | exact (Hsk _ Hin)]. }
  destruct (includes l (toLowerCase fieldName)) eqn:Hinc.
  - destruct (split_first isSeparator l)
      as [q [qs [Hs [Hq [[-> ->] | [c [rest [Hc [Hl Hqs]]]]]]]]].
    + rewrite Hs. cbn [List.length Nat.ltb Nat.leb]. intros H.
      apply Hskip; [exact H|].
      cbn [scanLines]. rewrite Hinc, Hs. reflexivity.
    + rewrite Hs.
      destruct qs as [|q' qs'].
      * exfalso. symmetry in Hqs. eapply split_not_nil; eassumption.
      * change (1 <? List.length (q :: q' :: qs'))%nat with true.
        cbn [skipn]. intros H. injection H as <-.
        exists [], l, lines, q, c, rest.
        repeat split; auto.
        -- intros ? [].
        -- rewrite <- join_split_colonize, <- Hqs. reflexivity.
  - intros H. apply Hskip; [exact H|].
    cbn [scanLines]. rewrite Hinc. reflexivity.
Qed.

End PatternFallback.

Section PatternFallbackClaims.

Import TextractUtils Samples.

(** C2, as the claim states it: on the text "Date: 2024-01-05" followed
    by a newline and the field name "Date:" the extractor would return
    "2024-01-05".  It does not. *)
Lemma date_example_hyphens_not_kept :
  extractText dateBlocks = lit "Date: 2024-01-05" ++ [newline] /\
  extractFieldByPattern dateBlocks (lit "Date:") <> Some (lit "2024-01-05").
Proof.
  split; [reflexivity|]. vm_compute. discriminate.
Qed.

(** C2, amended.  For blocks whose flattened text is "Date: 2024-01-05"
    followed by a newline, and the field name "Date:", the pattern
    fallback extractor returns "2024:01:05": the first matching line is
    split at every separator among ':', '-', '=' and the pieces after the
    first are joined with ':' and trimmed. *)
Theorem extractFieldByPattern_date_example (blocks : list Block) :
  extractText blocks = lit "Date: 2024-01-05" ++ [newline] ->
  extractFieldByPattern blocks (lit "Date:") = Some (lit "2024:01:05") /\
  split isSeparator (lit "date: 2024-01-05")
  = [lit "date"; lit " 2024"; lit "01"; lit "05"].
Proof.
  intros Htext. unfold extractFieldByPattern. rewrite Htext.
  split; vm_compute; reflexivity.
Qed.

Lemma extractFieldByPattern_date_example_witness :
  extractFieldByPattern dateBlocks (lit "Date:") = Some (lit "2024:01:05").
Proof.
  apply (extractFieldByPattern_date_example dateBlocks).
  vm_compute; reflexivity.
Defined.

(** C10.  Whenever the pattern fallback extractor returns a value [v]
    (not null), [v] holds no upper-case letter, and [v] is the remainder
    of the matched line after its first separator, with every separator
    character turned into a colon and the white space at both ends
    removed: [v] holds neither a hyphen nor an equals sign.  The matched
    line is the first line of the lower-cased text that contains the
    lower-cased field name and a separator. *)
Theorem extractFieldByPattern_lowercased_colons
    (blocks : list Block) (fieldName v : str) :
  extractFieldByPattern blocks fieldName = Some v ->
  (forall c, In c v -> isUpper c = false) /\
  (exists skipped line after before sep rest,
      split (Ascii.eqb newline) (toLowerCase (extractText blocks))
        = skipped ++ line :: after /\
      (forall l, In l skipped -> scanLines [l] fieldName = None) /\
      Substring (toLowerCase fieldName) line /\
      line = before ++ sep :: rest /\
      isSeparator sep = true /\
      (forall c, In c before -> isSeparator c = false) /\
      v = trim (map colonize rest) /\
      exists lead trail,
        map colonize rest = lead ++ v ++ trail /\
        forallb isSpace lead = true /\ forallb isSpace trail = true) /\
  (forall c, In c v -> c <> "-"%char /\ c <> "="%char).
Proof.
  unfold extractFieldByPattern. intros H.
  destruct (scanLines_some _ _ _ H)
    as (sk & ln & af & b & sp & r & Hlines & Hsk & Hinc & Hln & Hsp & Hb & Hv).
  assert (Hchars : forall c, In c v ->
            c = ":"%char \/ (isSeparator c = false /\ In c ln)).
  { intros c Hc. rewrite Hv in Hc. apply trim_incl in Hc.
    apply in_map_iff in Hc. destruct Hc as [x [Hx Hin]].
    unfold colonize in Hx. destruct (isSeparator x) eqn:Hsx.
    - left; congruence.
    - right. subst c. split; [exact Hsx|].
      rewrite Hln. apply in_or_app. right. right. exact Hin. }
  split; [|split].
  - intros c Hc. destruct (Hchars c Hc) as [-> | [_ Hin]]; [reflexivity|].
    apply toLowerCase_no_upper with (s := extractText blocks).
    apply split_chars with (p := Ascii.eqb newline) (piece := ln);
      [|exact Hin].
    rewrite Hlines. apply in_or_app. right. left. reflexivity.
  - exists sk, ln, af, b, sp, r.
    split; [exact Hlines|]. split; [exact Hsk|].
    split; [apply includes_spec; exact Hinc|].
    split; [exact Hln|]. split; [exact Hsp|]. split; [|split; [exact Hv|]].
    + intros c Hc. rewrite forallb_forall in Hb.
      specialize (Hb c Hc). destruct (isSeparator c); [discriminate|reflexivity].
    + rewrite Hv. apply trim_decompose.
  - intros c Hc. destruct (Hchars c Hc) as [-> | [Hs _]].
    + split; discriminate.
    + split; intros ->; discriminate.
Qed.

Lemma extractFieldByPattern_lowercased_colons_witness :
  extractFieldByPattern dateBlocks (lit "Date:") = Some (lit "2024:01:05") /\
  (forall c, In c (lit "2024:01:05") ->
             c <> "-"%char /\ c <> "="%char).
Proof.
  split.
  - vm_compute; reflexivity.
  - apply (extractFieldByPattern_lowercased_colons dateBlocks (lit "Date:")).
    vm_compute; reflexivity.
Defined.

End PatternFallbackClaims.

(** ** Dictionaries *)

Section ObjectFacts.

Context {V : Type}.

Lemma get_set_same (o : JsObject.t V) (k : str) (v : V) :
  JsObject.get (JsObject.set o k v) k = Some v.
Proof.
  induction o as [|[k' v'] o IH]; simpl.
  - rewrite streq_refl. reflexivity.
  - destruct (streq k k') eqn:E; simpl.
    + rewrite streq_refl. reflexivity.
    + rewrite E. exact IH.
Qed.

Lemma get_set_other (o : JsObject.t V) (k k' : str) (v : V) :
  k <> k' -> JsObject.get (JsObject.set o k v) k' = JsObject.get o k'.
Proof.
  intros Hne. induction o as [|[k0 v0] o IH]; simpl.
  - assert (E : streq k' k = false) by (apply streq_neq; congruence).
    rewrite E. reflexivity.
  - destruct (streq k k0) eqn:E; simpl.
    + apply streq_eq in E. subst k0.
      assert (E' : streq k' k = false) by (apply streq_neq; congruence).
      rewrite E'. reflexivity.
    + destruct (streq k' k0); [reflexivity | exact IH].
Qed.

(** Filling an object field by field binds every listed field. *)
Lemma get_fold_set (g : str -> V) (names : list str) (o : JsObject.t V)
    (k : str) :
  JsObject.get
    (fold_left (fun acc name => JsObject.set acc name (g name)) names o) k
  = if existsb (streq k) names then Some (g k) else JsObject.get o k.
Proof.
  revert o; induction names as [|x names IH]; intros o; simpl; [reflexivity|].
  rewrite IH. destruct (existsb (streq k) names).
  - rewrite orb_true_r. reflexivity.
  - rewrite orb_false_r. destruct (streq k x) eqn:E.
    + apply streq_eq in E. subst x. apply get_set_same.
    + apply get_set_other. apply streq_neq in E. congruence.
Qed.

Lemma get_in_keys (o : JsObject.t V) (k : str) (v : V) :
  JsObject.get o k = Some v -> In k (map fst o).
Proof.
  induction o as [|[k' v'] o IH]; simpl; [discriminate|].
  destruct (streq k k') eqn:E.
  - apply streq_eq in E. auto.
  - auto.
Qed.

Lemma insertIndex_in (n : N) (k : str) (l : list (N * str)) (x : N * str) :
  In x (JsObject.insertIndex n k l) <-> x = (n, k) \/ In x l.
Proof.
  induction l as [|[m k'] l IH]; simpl.
  - intuition.
  - destruct (n <? m)%N; simpl; [intuition|].
    rewrite IH. intuition.
Qed.

Lemma indexKeys_in (o : JsObject.t V) (k : str) :
  In k (map fst o) -> JsObject.isIndexKey k = true ->
  In k (map snd (JsObject.indexKeys o)).
Proof.
  unfold JsObject.isIndexKey.
  induction o as [|[k' v'] o IH]; simpl; [tauto|].
  intros [-> | Hin] Hidx.
  - destruct (JsObject.arrayIndex k) as [n|]; [|discriminate].
    apply in_map_iff. exists (n, k). split; [reflexivity|].
    apply insertIndex_in. left; reflexivity.
  - specialize (IH Hin Hidx).
    destruct (JsObject.arrayIndex k') as [n|]; [|exact IH].
    apply in_map_iff in IH. destruct IH as [x [Hx Hinx]].
    apply in_map_iff. exists x. split; [exact Hx|].
    apply insertIndex_in. right; exact Hinx.
Qed.

(** Every own property is enumerated. *)
Lemma keys_complete (o : JsObject.t V) (k : str) (v : V) :
  JsObject.get o k = Some v -> In k (JsObject.keys o).
Proof.
  intros H. apply get_in_keys in H. unfold JsObject.keys.
  apply in_or_app. destruct (JsObject.isIndexKey k) eqn:E.
  - left. apply indexKeys_in; assumption.
  - right. apply filter_In. rewrite E. auto.
Qed.

End ObjectFacts.

(** ** Company identification *)

Section CompanyFacts.

Import TextractUtils Samples.

Lemma find_first {A : Type} (f : A -> bool) (l : list A) (x : A) :
  find f l = Some x ->
  exists earlier later,
    l = earlier ++ x :: later /\ f x = true /\
    forall e, In e earlier -> f e = false.
Proof.
  induction l as [|a l IH]; simpl; [discriminate|].
  destruct (f a) eqn:Ha.
  - intros [= ->]. exists [], l. repeat split; auto. intros e [].
  - intros H. destruct (IH H) as (earlier & later & -> & Hx & He).
    exists (a :: earlier), later. repeat split; auto.
    intros e [<- | Hin]; auto.
Qed.

Lemma includes_matches (name text : str) :
  includes (toLowerCase text) (toLowerCase name) = true
  <-> MatchesIgnoringCase name text.
Proof. apply includes_spec. Qed.

Lemma includes_no_match (name text : str) :
  includes (toLowerCase text) (toLowerCase name) = false
  <-> ~ MatchesIgnoringCase name text.
Proof.
  rewrite <- includes_matches.
  destruct (includes (toLowerCase text) (toLowerCase name));
    split; congruence.
Qed.

(** C6.  The company identifier returns the first record, in registry
    order, whose company name occurs in the text up to letter case, and
    no record ([undefined], or a null company in
    [identifyCompanyAndFields]) when no name occurs; it never throws.
    With the registry Acme, Acme Corp and any text containing
    "acme corp invoice" the match is Acme. *)
Theorem company_identifier_first_in_registry_order :
  (forall pageText records,
      match findMatchingCompanyInPage pageText records with
      | Some r =>
          exists earlier later,
            records = earlier ++ r :: later /\
            MatchesIgnoringCase (company r) pageText /\
            forall e, In e earlier ->
                      ~ MatchesIgnoringCase (company e) pageText
      | None =>
          forall r, In r records -> ~ MatchesIgnoringCase (company r) pageText
      end) /\
  (forall documentText records,
      identifyCompanyAndFields (Ok records) documentText =
      Ok (match findMatchingCompanyInPage documentText records with
          | Some r => mkIdentified (Some (company r)) (fields r)
          | None => mkIdentified None []
          end)) /\
  (forall before after f1 t1 f2 t2,
      let first := mkCompanyRecord (lit "Acme") f1 t1 in
      let second := mkCompanyRecord (lit "Acme Corp") f2 t2 in
      let text := before ++ lit "acme corp invoice" ++ after in
      findMatchingCompanyInPage text [first; second] = Some first /\
      identifyCompanyAndFields (Ok [first; second]) text =
      Ok (mkIdentified (Some (lit "Acme")) f1)).
Proof.
  split; [|split].
  - intros pageText records. unfold findMatchingCompanyInPage.
    destruct (find _ records) as [r|] eqn:Hfind.
    + destruct (find_first _ _ _ Hfind) as (earlier & later & -> & Hr & He).
      exists earlier, later. split; [reflexivity|]. split.
      * apply includes_matches. exact Hr.
      * intros e Hin. apply includes_no_match. exact (He e Hin).
    + intros r Hin. apply includes_no_match.
      exact (find_none _ _ Hfind r Hin).
  - reflexivity.
  - intros before after f1 t1 f2 t2 first second text.
    assert (Hm : includes (toLowerCase text) (toLowerCase (lit "Acme")) = true).
    { apply includes_spec. subst text.
      rewrite !toLowerCase_app.
      exists (toLowerCase before), (lit " corp invoice" ++ toLowerCase after).
      reflexivity. }
    unfold identifyCompanyAndFields, findMatchingCompanyInPage, bind.
    cbn [find company first]. rewrite Hm. split; reflexivity.
Qed.

Lemma company_identifier_first_in_registry_order_witness :
  findMatchingCompanyInPage (lit "Re: acme corp invoice 7") [acme; acmeCorp]
  = Some acme.
Proof.
  apply (proj2 (proj2 company_identifier_first_in_registry_order)
           (lit "Re: ") (lit " 7")).
Defined.

(** C8.  A single-page document in whose flattened text no registry
    company name occurs (up to letter case) makes the single-page
    orchestrator throw the error "Company not recognized in single page
    document": no extraction result is produced.  When a company with a
    non-empty name is identified and the key-value extraction completes,
    one result for page 1 is returned in which every requested field is
    bound, to null when neither strategy finds it. *)
Theorem processSinglePageDocument_company_required
    (blocks : list Block) (records : list CompanyRecord)
    (getTargetTables : str -> list str) :
  ((forall r, In r records ->
              ~ MatchesIgnoringCase (company r) (extractText blocks)) ->
   processSinglePageDocument (Ok (Some blocks)) (Ok records) getTargetTables
   = Throw (Error (lit "Company not recognized in single page document")))
  /\
  (forall r keyValuePairs,
      findMatchingCompanyInPage (extractText blocks) records = Some r ->
      company r <> [] ->
      extractKeyValuePairs blocks = Ok keyValuePairs ->
      exists extracted,
        processSinglePageDocument (Ok (Some blocks)) (Ok records)
          getTargetTables
        = Ok [mkExtractionResult (company r) 1 extracted
                (getTargetTables (company r))] /\
        forall field, In field (fields r) ->
          JsObject.get extracted field
          = Some (fieldValue keyValuePairs blocks field) /\
          (truthy (JsObject.get keyValuePairs field) = false ->
           extractFieldByPattern blocks field = None ->
           JsObject.get extracted field = Some None)).
Proof.
  split.
  - intros Hnone.
    unfold processSinglePageDocument, identifyCompanyAndFields, bind.
    destruct (find _ records) as [r|] eqn:Hfind; [|reflexivity].
    exfalso. destruct (find_first _ _ _ Hfind) as (e & l & -> & Hr & _).
    apply (Hnone r); [apply in_or_app; right; left; reflexivity|].
    apply includes_matches. exact Hr.
  - intros r kv Hfind Hname Hkv.
    unfold findMatchingCompanyInPage in Hfind.
    unfold processSinglePageDocument, identifyCompanyAndFields, bind.
    rewrite Hfind. cbn [id_company fieldsToExtract].
    destruct (company r) as [|c cs] eqn:Hc; [congruence|].
    cbn [truthy negb]. unfold extractFields, bind. rewrite Hkv.
    eexists. split; [reflexivity|].
    intros field Hin.
    assert (Hget : JsObject.get
              (fold_left (fun results f =>
                            JsObject.set results f (fieldValue kv blocks f))
                         (fields r) JsObject.empty) field
            = Some (fieldValue kv blocks field)).
    { rewrite (get_fold_set (fun f => fieldValue kv blocks f)).
      assert (E : existsb (streq field) (fields r) = true).
      { apply existsb_exists. exists field. split; [exact Hin|apply streq_refl]. }
      rewrite E. reflexivity. }
    split; [exact Hget|].
    intros Hkvf Hpat. rewrite Hget. unfold fieldValue.
    rewrite Hkvf, Hpat. reflexivity.
Qed.

Lemma processSinglePageDocument_company_required_witness :
  processSinglePageDocument (Ok (Some dateBlocks)) (Ok [acme; acmeCorp])
    (fun _ => [])
  = Throw (Error (lit "Company not recognized in single page document")).
Proof.
  apply (proj1 (processSinglePageDocument_company_required
                  dateBlocks [acme; acmeCorp] (fun _ => []))).
  intros r Hin. apply includes_no_match.
  destruct Hin as [<- | [<- | []]]; vm_compute; reflexivity.
Defined.

End CompanyFacts.

(** ** The polling loop *)

Section PollingLoop.

Import TextractUtils Samples.
Local Open Scope nat_scope.

Lemma processPage_keeps_control (blocks : list Block)
    (records : list CompanyRecord) (st st' : LoopState) (pageBlock : Block) :
  processPage blocks records st pageBlock = Ok st' ->
  finished st' = finished st /\ nextToken st' = nextToken st.
Proof.
  unfold processPage.
  destruct (findMatchingCompanyInPage _ records) as [m|].
  - destruct (extractFieldsFromPage _ _ _); simpl; [|discriminate].
    intros [= <-]. auto.
  - intros [= <-]. auto.
Qed.

Lemma pages_keep_control (blocks : list Block) (records : list CompanyRecord)
    (pages : list Block) (st st' : LoopState) :
  forOf pages (processPage blocks records) st = Ok st' ->
  finished st' = finished st /\ nextToken st' = nextToken st.
Proof.
  revert st; induction pages as [|p pages IH]; simpl; intros st.
  - intros [= <-]. auto.
  - destruct (processPage blocks records st p) as [st1|] eqn:Hp; simpl;
      [|discriminate].
    intros H. apply IH in H. apply processPage_keeps_control in Hp.
    destruct H as [-> ->]. exact Hp.
Qed.

(** An iteration that completes normally ends the loop exactly when its
    completion test holds: no cursor, or a status other than
    IN_PROGRESS. *)
Lemma processResponse_finished (response : Response)
    (records : list CompanyRecord) (st st' : LoopState) :
  finished st = false ->
  processResponse response records st = Ok st' ->
  finished st' = processingComplete response /\
  (finished st' = false -> nextToken st' = NextToken response).
Proof.
  intros Hst. unfold processResponse.
  destruct (Blocks response) as [blocks|]; [|discriminate].
  destruct (forOf _ _ st) as [st1|] eqn:Hp; simpl; [|discriminate].
  apply pages_keep_control in Hp. destruct Hp as [Hf _].
  destruct (processingComplete response); intros [= <-]; simpl.
  - split; [reflexivity | discriminate].
  - split; [congruence | reflexivity].
Qed.

Lemma neverDone_still_polling (fuel : nat) (jobId : str)
    (records : list CompanyRecord) (polls : nat) (st : LoopState) :
  finished st = false ->
  pollingLoop fuel neverDone jobId records polls st = StillPolling.
Proof.
  revert polls st; induction fuel as [|fuel IH]; intros polls st Hst; simpl;
    rewrite Hst; [reflexivity|].
  apply IH. reflexivity.
Qed.

Lemma doneAfter_still_polling (n : nat) (jobId : str)
    (records : list CompanyRecord) (fuel polls : nat) (st : LoopState) :
  finished st = false -> polls + fuel <= n ->
  pollingLoop fuel (doneAfter n) jobId records polls st = StillPolling.
Proof.
  revert polls st; induction fuel as [|fuel IH]; intros polls st Hst Hle;
    simpl; rewrite Hst; [reflexivity|].
  assert (E : (polls <? n)%nat = true) by (apply Nat.ltb_lt; lia).
  rewrite E. simpl. apply IH; [exact Hst | lia].
Qed.

Lemma doneAfter_returns (n : nat) (jobId : str)
    (records : list CompanyRecord) (k extra polls : nat) (st : LoopState) :
  finished st = false -> polls + k = n ->
  pollingLoop (S k + extra) (doneAfter n) jobId records polls st
  = Returned (Ok (results st)) (S n).
Proof.
  revert polls st; induction k as [|k IH]; intros polls st Hst Hn.
  - assert (E : (polls <? n)%nat = false) by (apply Nat.ltb_ge; lia).
    simpl. rewrite Hst, E. simpl.
    replace polls with n by lia.
    destruct extra; reflexivity.
  - assert (E : (polls <? n)%nat = true) by (apply Nat.ltb_lt; lia).
    change (S (S k) + extra) with (S (S k + extra)).
    cbn [pollingLoop]. rewrite Hst.
    unfold getAsyncResults. cbn [getDocumentAnalysis doneAfter].
    rewrite E.
    cbn [processResponse Blocks filter forOf bind processingComplete
         NextToken truthy lit list_ascii_of_string negb JobStatus
         isInProgress orb].
    rewrite (IH (S polls)); [reflexivity | first [exact Hst | reflexivity] | lia].
Qed.

(** C1, as the claim states it: a response that carries a continuation
    cursor would make the loop poll again whatever its status.  The first
    response of the two-batch job has the cursor "t1" and status
    SUCCEEDED: the iteration sets [finished] and the function returns
    after one poll, with the first page only. *)
Lemma cursor_with_terminal_status_ends_loop :
  truthy (NextToken (batch1 SUCCEEDED)) = true /\
  (exists st', processResponse (batch1 SUCCEEDED) [acme] initialState = Ok st'
               /\ finished st' = true) /\
  processMultiPageDocument 5 (twoBatches SUCCEEDED) [acme]
  = Returned
      (Ok [mkExtractionResult (lit "Acme") 1 [(lit "Date:", None)]
             [lit "orders"]]) 1.
Proof.
  split; [reflexivity|]. split; [|vm_compute; reflexivity].
  eexists. split; [vm_compute; reflexivity | reflexivity].
Qed.

(** C1, amended.  After an iteration has processed its response, the
    polling loop ends exactly when the response carries no continuation
    cursor OR its status is not IN_PROGRESS; the function then returns the
    results gathered so far.  A response that carries a cursor makes the
    loop poll the next batch, with that cursor, only when its status is
    IN_PROGRESS. *)
Theorem polling_ends_without_cursor_or_on_terminal_status
    (provider : Provider) (jobId : str) (records : list CompanyRecord)
    (polls : nat) (st st' : LoopState) (response : Response) :
  finished st = false ->
  getAsyncResults provider polls jobId (nextToken st) = Ok response ->
  processResponse response records st = Ok st' ->
  (finished st' = true <->
   truthy (NextToken response) = false \/ JobStatus response <> IN_PROGRESS) /\
  (finished st' = true ->
   forall fuel,
     pollingLoop (S fuel) provider jobId records polls st
     = Returned (Ok (results st')) (S polls)) /\
  (finished st' = false ->
   nextToken st' = NextToken response /\
   forall fuel,
     pollingLoop (S fuel) provider jobId records polls st
     = pollingLoop fuel provider jobId records (S polls) st').
Proof.
  intros Hst Hpoll Hproc.
  destruct (processResponse_finished _ _ _ _ Hst Hproc) as [Hfin Htok].
  assert (Hstep : forall fuel,
             pollingLoop (S fuel) provider jobId records polls st
             = pollingLoop fuel provider jobId records (S polls) st').
  { intros fuel. cbn [pollingLoop]. rewrite Hst, Hpoll, Hproc. reflexivity. }
  split; [|split].
  - rewrite Hfin. unfold processingComplete.
    destruct (truthy (NextToken response)); destruct (JobStatus response);
      simpl; split; intros H; try reflexivity; try discriminate;
      try (left; reflexivity); try (right; discriminate);
      destruct H as [H | H]; congruence.
  - intros Hdone fuel. rewrite Hstep.
    destruct fuel; cbn [pollingLoop]; rewrite Hdone; reflexivity.
  - intros Hmore. split; [exact (Htok Hmore) | exact Hstep].
Qed.

Lemma polling_ends_without_cursor_or_on_terminal_status_witness :
  exists st',
    processResponse (batch1 IN_PROGRESS) [acme] initialState = Ok st' /\
    nextToken st' = Some (lit "t1").
Proof.
  eexists. split; [vm_compute; reflexivity|].
  apply (proj2 (proj2 (polling_ends_without_cursor_or_on_terminal_status
                         (twoBatches IN_PROGRESS) (lit "job-1") [acme] 0
                         initialState _ (batch1 IN_PROGRESS)
                         eq_refl eq_refl ltac:(vm_compute; reflexivity)))).
  reflexivity.
Defined.

(** C5, as the claim states it: some bound on the number of polls would
    stop the loop on every sequence of responses.  No bound does. *)
Lemma polling_loop_has_no_cap :
  ~ exists bound, forall provider records,
      processMultiPageDocument bound provider records <> StillPolling.
Proof.
  intros [bound H]. apply (H neverDone []).
  apply neverDone_still_polling. reflexivity.
Qed.

(** C5, amended.  The polling loop has no cap on attempts or on elapsed
    time.  For every [n] the job that completes at poll [n + 1] keeps the
    loop polling through [n] iterations and makes it return after
    [n + 1] polls, and on the job whose every response carries a cursor
    with status IN_PROGRESS the loop is still polling after any number of
    iterations. *)
Theorem polling_loop_unbounded :
  (forall n records,
      processMultiPageDocument n (doneAfter n) records = StillPolling /\
      forall extra,
        processMultiPageDocument (S n + extra) (doneAfter n) records
        = Returned (Ok []) (S n)) /\
  (forall fuel records,
      processMultiPageDocument fuel neverDone records = StillPolling).
Proof.
  split.
  - intros n records. split.
    + apply doneAfter_still_polling; [reflexivity | lia].
    + intros extra.
      apply (doneAfter_returns n (lit "job-3") records n extra 0 initialState);
        [reflexivity | lia].
  - intros fuel records. apply neverDone_still_polling. reflexivity.
Qed.

Lemma polling_loop_unbounded_witness :
  processMultiPageDocument 3 (doneAfter 3) [acme] = StillPolling /\
  processMultiPageDocument 4 (doneAfter 3) [acme] = Returned (Ok []) 4 /\
  processMultiPageDocument 1000 neverDone [acme] = StillPolling.
Proof.
  split; [|split].
  - apply (proj1 polling_loop_unbounded 3 [acme]).
  - apply (proj2 (proj1 polling_loop_unbounded 3 [acme]) 0).
  - apply (proj2 polling_loop_unbounded 1000 [acme]).
Defined.

End PollingLoop.

(** ** Loops that can throw *)

Section Loops.

Context {A S : Type}.

Lemma forOf_app (xs ys : list A) (body : S -> A -> result S) (s : S) :
  forOf (xs ++ ys) body s = (s' <- forOf xs body s ;; forOf ys body s').
Proof.
  revert s; induction xs as [|x xs IH]; intros s; simpl; [reflexivity|].
  destruct (body s x); simpl; [apply IH | reflexivity].
Qed.

(** A loop whose body completes on the good elements and throws a
    [TypeError] on the others completes exactly on the lists of good
    elements. *)
Lemma forOf_total (good : A -> bool) (body : S -> A -> result S)
    (xs : list A) :
  (forall s x, good x = true -> exists s', body s x = Ok s') ->
  (forall s x, good x = false -> body s x = Throw TypeError) ->
  forall s,
    if forallb good xs
    then exists s', forOf xs body s = Ok s'
    else forOf xs body s = Throw TypeError.
Proof.
  intros Hgood Hbad. induction xs as [|x xs IH]; intros s; simpl.
  - exists s; reflexivity.
  - destruct (good x) eqn:Hx; simpl.
    + destruct (Hgood s x Hx) as [s1 ->]. simpl. apply IH.
    + rewrite (Hbad s x Hx). reflexivity.
Qed.

End Loops.

(** A loop over relationships that runs an inner loop over the ids of the
    selected ones is one loop over the selected ids. *)
Lemma forOf_relationships {S : Type} (select : Relationship -> bool)
    (body : S -> str -> result S) (rels : list Relationship) (s : S) :
  forOf rels (fun s rel => if select rel then forOf (Ids rel) body s else Ok s) s
  = forOf (flat_map Ids (filter select rels)) body s.
Proof.
  revert s; induction rels as [|rel rels IH]; intros s; simpl; [reflexivity|].
  destruct (select rel); simpl.
  - rewrite forOf_app. destruct (forOf (Ids rel) body s); simpl;
      [apply IH | reflexivity].
  - apply IH.
Qed.

(** ** Text of a block *)

Section BlockText.

Import TextractUtils Samples.

Lemma ChildrenResolve_forallb (block : Block) (blockMap : JsObject.t Block) :
  ChildrenResolve block blockMap ->
  forallb (resolves blockMap) (childIds block) = true.
Proof.
  intros H. apply forallb_forall. intros id Hin. unfold childIds in Hin.
  destruct (Relationships block) as [rels|] eqn:Hrels; [|destruct Hin].
  apply in_flat_map in Hin. destruct Hin as [rel [Hrel Hid]].
  apply filter_In in Hrel. destruct Hrel as [Hrel Hchild].
  specialize (H rels rel id Hrels Hrel Hchild Hid).
  unfold resolves. destruct (JsObject.get blockMap id); congruence.
Qed.

Lemma DanglingChild_forallb (block : Block) (blockMap : JsObject.t Block) :
  DanglingChild block blockMap ->
  forallb (resolves blockMap) (childIds block) = false.
Proof.
  intros (rels & rel & id & Hrels & Hrel & Hchild & Hid & Hget).
  destruct (forallb _ _) eqn:E; [|reflexivity].
  rewrite forallb_forall in E. specialize (E id).
  unfold resolves in E. rewrite Hget in E. symmetry. apply E.
  unfold childIds. rewrite Hrels. apply in_flat_map. exists rel.
  split; [apply filter_In; auto | exact Hid].
Qed.

Lemma getTextForBlock_total (block : Block) (blockMap : JsObject.t Block) :
  if forallb (resolves blockMap) (childIds block)
  then exists s, getTextForBlock (Some block) blockMap = Ok s
  else getTextForBlock (Some block) blockMap = Throw TypeError.
Proof.
  unfold getTextForBlock, childIds.
  destruct (Relationships block) as [rels|]; simpl; [|eexists; reflexivity].
  rewrite (forOf_relationships (isRelation CHILD)
             (fun texts childId =>
                childTexts texts (JsObject.get blockMap childId))).
  pose proof (forOf_total (resolves blockMap)
                (fun texts childId =>
                   childTexts texts (JsObject.get blockMap childId))
                (flat_map Ids (filter (isRelation CHILD) rels))) as T.
  match type of T with ?P -> ?Q -> _ => assert (HP : P); [|assert (HQ : Q)] end.
  - intros texts id. unfold resolves, childTexts.
    destruct (JsObject.get blockMap id) as [w|]; [intros _|discriminate].
    destruct (isBlockType WORD w); [eexists; reflexivity|].
    destruct (isBlockType SELECTION_ELEMENT w); eexists; reflexivity.
  - intros texts id. unfold resolves, childTexts.
    destruct (JsObject.get blockMap id); [discriminate|reflexivity].
  - specialize (T HP HQ []).
    destruct (forallb _ _).
    + destruct T as [texts ->]. simpl. eexists; reflexivity.
    + rewrite T. reflexivity.
Qed.

Lemma getText_total (block : Block) (blockMap : JsObject.t Block) :
  if forallb (resolves blockMap) (childIds block)
  then exists s, LocalFileProcessing.getText block blockMap = Ok s
  else LocalFileProcessing.getText block blockMap = Throw TypeError.
Proof.
  unfold LocalFileProcessing.getText, childIds.
  destruct (Relationships block) as [rels|]; simpl; [|eexists; reflexivity].
  set (body := fun (text : str) (childId : str) =>
                 match JsObject.get blockMap childId with
                 | None => Throw TypeError
                 | Some child =>
                     if isBlockType WORD child
                     then Ok (text ++ Text child ++ lit " ")
                     else Ok text
                 end).
  rewrite (forOf_relationships (isRelation CHILD) body).
  pose proof (forOf_total (resolves blockMap) body
                (flat_map Ids (filter (isRelation CHILD) rels))) as T.
  match type of T with ?P -> ?Q -> _ => assert (HP : P); [|assert (HQ : Q)] end.
  - intros text id. unfold resolves, body.
    destruct (JsObject.get blockMap id) as [w|]; [intros _|discriminate].
    destruct (isBlockType WORD w); eexists; reflexivity.
  - intros text id. unfold resolves, body.
    destruct (JsObject.get blockMap id); [discriminate|reflexivity].
  - specialize (T HP HQ []).
    destruct (forallb _ _).
    + destruct T as [text ->]. simpl. eexists; reflexivity.
    + rewrite T. reflexivity.
Qed.

(** C3, as the claim states it: a CHILD id that resolves to no block
    would be skipped.  On a block whose only child id is unknown both
    text derivations throw a [TypeError]. *)
Lemma unresolved_child_id_throws :
  DanglingChild orphanParent [(lit "k", orphanParent)] /\
  getTextForBlock (Some orphanParent) [(lit "k", orphanParent)]
  = Throw TypeError /\
  LocalFileProcessing.getText orphanParent [(lit "k", orphanParent)]
  = Throw TypeError.
Proof.
  split; [|split; reflexivity].
  exists [mkRelationship CHILD [lit "missing"]],
         (mkRelationship CHILD [lit "missing"]), (lit "missing").
  repeat split; simpl; auto.
Qed.

(** C3, amended.  Deriving the text of a block returns normally when
    every id of its CHILD relationships resolves to a block of the
    batch; when some CHILD id resolves to no block, the derivation
    throws a [TypeError].  Both hold for [getTextForBlock] and for
    [getText]. *)
Theorem block_text_needs_resolved_children
    (block : Block) (blockMap : JsObject.t Block) :
  (ChildrenResolve block blockMap ->
   (exists s, getTextForBlock (Some block) blockMap = Ok s) /\
   (exists s, LocalFileProcessing.getText block blockMap = Ok s)) /\
  (DanglingChild block blockMap ->
   getTextForBlock (Some block) blockMap = Throw TypeError /\
   LocalFileProcessing.getText block blockMap = Throw TypeError).
Proof.
  pose proof (getTextForBlock_total block blockMap) as T1.
  pose proof (getText_total block blockMap) as T2.
  split; intros H.
  - rewrite (ChildrenResolve_forallb _ _ H) in T1, T2. auto.
  - rewrite (DanglingChild_forallb _ _ H) in T1, T2. auto.
Qed.

Lemma block_text_needs_resolved_children_witness :
  exists s,
    getTextForBlock (Some (keySet "k1" ["w1"%string] ["v1"%string]))
      [(lit "w1", word "w1" "Name")] = Ok s.
Proof.
  apply (proj1 (block_text_needs_resolved_children
                  (keySet "k1" ["w1"%string] ["v1"%string])
                  [(lit "w1", word "w1" "Name")])).
  intros rels rel id Hrels Hrel Hchild Hid.
  injection Hrels as <-.
  destruct Hrel as [<- | [<- | []]]; [discriminate|].
  destruct Hid as [<- | []]. vm_compute. discriminate.
Defined.

End BlockText.

(** ** Key-value extraction *)

Section KeyValue.

Import TextractUtils Samples.

Lemma matchKey_writes (m : BlockMaps) (kv kv' : JsObject.t str) (k : str) :
  matchKey m kv k = Ok kv' ->
  exists kb t,
    JsObject.get (keyMap m) k = Some kb /\
    getTextForBlock (Some kb) (blockMap m) = Ok t /\
    forOf (valueIdsOf kb) (writer m t) kv = Ok kv'.
Proof.
  unfold matchKey.
  destruct (JsObject.get (keyMap m) k) as [kb|]; [|discriminate].
  destruct (getTextForBlock (Some kb) (blockMap m)) as [t|] eqn:Ht;
    [|discriminate].
  cbn [bind]. intros H. exists kb, t. split; [reflexivity|].
  split; [exact Ht|]. unfold valueIdsOf.
  destruct (Relationships kb) as [rels|].
  - rewrite <- H. symmetry.
    apply (forOf_relationships (isRelation VALUE) (writer m t)).
  - exact H.
Qed.

Lemma writes_complete (m : BlockMaps) (kv : JsObject.t str) (k : str)
    (kb : Block) (t : str) (kv' : JsObject.t str) :
  JsObject.get (keyMap m) k = Some kb ->
  getTextForBlock (Some kb) (blockMap m) = Ok t ->
  forOf (valueIdsOf kb) (writer m t) kv = Ok kv' ->
  matchKey m kv k = Ok kv'.
Proof.
  intros Hk Ht H. unfold matchKey. rewrite Hk, Ht. cbn [bind].
  unfold valueIdsOf in H. destruct (Relationships kb) as [rels|].
  - rewrite <- H.
    apply (forOf_relationships (isRelation VALUE) (writer m t)).
  - exact H.
Qed.

(** The writes of one key touch its key text only, and leave under it the
    text of the value listed last. *)
Lemma writer_effect (m : BlockMaps) (t : str) (ids : list str)
    (kv kv' : JsObject.t str) :
  forOf ids (writer m t) kv = Ok kv' ->
  (forall t', t' <> t -> JsObject.get kv' t' = JsObject.get kv t') /\
  (forall ids0 vid, ids = ids0 ++ [vid] ->
     exists v,
       getTextForBlock (JsObject.get (valueMap m) vid) (blockMap m) = Ok v /\
       JsObject.get kv' t = Some v).
Proof.
  revert kv; induction ids as [|id ids IH]; intros kv; simpl.
  - intros [= <-]. split; [reflexivity|].
    intros [|? ?] vid H; discriminate.
  - unfold writer at 1.
    destruct (getTextForBlock (JsObject.get (valueMap m) id) (blockMap m))
      as [v|] eqn:Hv; simpl; [|discriminate].
    intros H. destruct (IH _ H) as [Hother Hlast]. split.
    + intros t' Hne. rewrite (Hother t' Hne).
      apply get_set_other. congruence.
    + intros [|x ids0] vid E; simpl in E.
      * injection E as Hid Hids. subst id ids. simpl in H. injection H as <-.
        exists v. split; [exact Hv | apply get_set_same].
      * injection E as _ Hids. exact (Hlast ids0 vid Hids).
Qed.

(** Whether the writes of one key complete does not depend on what has
    been written before. *)
Lemma writer_completes (m : BlockMaps) (t : str) (ids : list str)
    (kv0 kv0' kv : JsObject.t str) :
  forOf ids (writer m t) kv0 = Ok kv0' ->
  exists kv', forOf ids (writer m t) kv = Ok kv'.
Proof.
  revert kv0 kv; induction ids as [|id ids IH]; intros kv0 kv; simpl.
  - eexists; reflexivity.
  - unfold writer at 1 3.
    destruct (getTextForBlock (JsObject.get (valueMap m) id) (blockMap m));
      simpl; [|discriminate].
    apply IH.
Qed.

Lemma later_keys_keep (m : BlockMaps) (t : str) (keys : list str)
    (kv kv' : JsObject.t str) :
  (forall k kb, In k keys -> JsObject.get (keyMap m) k = Some kb ->
                getTextForBlock (Some kb) (blockMap m) <> Ok t) ->
  forOf keys (matchKey m) kv = Ok kv' ->
  JsObject.get kv' t = JsObject.get kv t.
Proof.
  revert kv; induction keys as [|k keys IH]; intros kv Hne; simpl.
  - intros [= <-]. reflexivity.
  - destruct (matchKey m kv k) as [kv1|] eqn:Hk; simpl; [|discriminate].
    intros H. rewrite (IH kv1); [|intros; eapply Hne; eauto; right; auto|exact H].
    destruct (matchKey_writes _ _ _ _ Hk) as (kb & t' & Hkb & Ht' & Hw).
    apply (writer_effect _ _ _ _ _ Hw).
    intros ->. apply (Hne k kb); [left; reflexivity | exact Hkb | exact Ht'].
Qed.

(** Every exception of the key-value extraction is a [TypeError]. *)
Lemma getTextForBlock_exn (block : option Block) (bm : JsObject.t Block)
    (e : Exn) :
  getTextForBlock block bm = Throw e -> e = TypeError.
Proof.
  destruct block as [b|]; [|simpl; congruence].
  pose proof (getTextForBlock_total b bm) as T.
  destruct (forallb _ _).
  - destruct T as [s ->]. discriminate.
  - rewrite T. congruence.
Qed.

Lemma writes_dangling (m : BlockMaps) (t : str) (ids : list str)
    (kv : JsObject.t str) :
  (forall e, forOf ids (writer m t) kv = Throw e -> e = TypeError) /\
  (forall vid, In vid ids -> JsObject.get (valueMap m) vid = None ->
               forOf ids (writer m t) kv = Throw TypeError).
Proof.
  revert kv; induction ids as [|id ids IH]; intros kv; simpl.
  - split; [discriminate | intros vid []].
  - unfold writer at 1 3.
    destruct (getTextForBlock (JsObject.get (valueMap m) id) (blockMap m))
      as [v|e0] eqn:Hv; simpl.
    + destruct (IH (JsObject.set kv t v)) as [Hexn Hdang].
      split; [exact Hexn|].
      intros vid [<- | Hin] Hnone; [|exact (Hdang vid Hin Hnone)].
      rewrite Hnone in Hv. discriminate.
    + apply getTextForBlock_exn in Hv. subst e0.
      split; [congruence | reflexivity].
Qed.

Lemma matchKey_dangling (m : BlockMaps) (kv : JsObject.t str) (k : str) :
  (forall e, matchKey m kv k = Throw e -> e = TypeError) /\
  (forall kb vid,
      JsObject.get (keyMap m) k = Some kb ->
      In vid (valueIdsOf kb) -> JsObject.get (valueMap m) vid = None ->
      matchKey m kv k = Throw TypeError).
Proof.
  unfold matchKey.
  destruct (JsObject.get (keyMap m) k) as [kb|];
    [|cbn [getTextForBlock bind]; split; [congruence | discriminate]].
  destruct (getTextForBlock (Some kb) (blockMap m)) as [t|e0] eqn:Ht;
    cbn [bind].
  - assert (E : match Relationships kb with
                | Some rels =>
                    forOf rels
                      (fun keyValues rel =>
                         if isRelation VALUE rel
                         then forOf (Ids rel) (writer m t) keyValues
                         else Ok keyValues) kv
                | None => Ok kv
                end = forOf (valueIdsOf kb) (writer m t) kv).
    { unfold valueIdsOf. destruct (Relationships kb); [|reflexivity].
      apply (forOf_relationships (isRelation VALUE) (writer m t)). }
    unfold writer in E at 1. rewrite E.
    destruct (writes_dangling m t (valueIdsOf kb) kv) as [Hexn Hdang].
    split; [exact Hexn|].
    intros kb' vid [= <-] Hin Hnone. exact (Hdang vid Hin Hnone).
  - apply getTextForBlock_exn in Ht. subst e0.
    split; [congruence | reflexivity].
Qed.

Lemma keys_dangling (m : BlockMaps) (keys : list str) (kv : JsObject.t str)
    (k : str) (kb : Block) (vid : str) :
  In k keys ->
  JsObject.get (keyMap m) k = Some kb ->
  In vid (valueIdsOf kb) -> JsObject.get (valueMap m) vid = None ->
  forOf keys (matchKey m) kv = Throw TypeError.
Proof.
  intros Hin Hk Hvid Hnone. revert kv.
  induction keys as [|k0 keys IH]; intros kv; [destruct Hin|]. simpl.
  destruct (matchKey m kv k0) as [kv1|e] eqn:H0; simpl.
  - destruct Hin as [-> | Hin]; [|exact (IH Hin kv1)].
    rewrite (proj2 (matchKey_dangling m kv k) kb vid Hk Hvid Hnone) in H0.
    discriminate.
  - apply (proj1 (matchKey_dangling m kv k0)) in H0. congruence.
Qed.

(** C4.  In [textract-utils.js] a key block whose VALUE relationship
    names an id that is no value block is not skipped: the lookup yields
    [undefined] and deriving its text throws a [TypeError], which ends
    the extraction for all keys.  The sibling [extractKeyValuePairs] of
    [LocalFileProcessing.js] tests the lookup and skips such a key,
    keeping the other pairs. *)
Theorem dangling_value_id_throws_in_textract_utils :
  (forall blocks m k kb vid,
      organizeBlocks blocks = Ok m ->
      JsObject.get (keyMap m) k = Some kb ->
      In vid (valueIdsOf kb) ->
      JsObject.get (valueMap m) vid = None ->
      TextractUtils.extractKeyValuePairs blocks = Throw TypeError) /\
  TextractUtils.extractKeyValuePairs danglingValueBlocks = Throw TypeError /\
  LocalFileProcessing.extractKeyValuePairs danglingValueBlocks
  = Ok [(lit "Name", lit "Bob")] /\
  (forall m keyValuePairs keyBlockId keyBlock valueBlockId,
      JsObject.get (keyMap m) keyBlockId = Some keyBlock ->
      LocalFileProcessing.valueBlockIdOf keyBlock = Ok valueBlockId ->
      JsObject.get (valueMap m) valueBlockId = None ->
      LocalFileProcessing.pairKey m keyValuePairs keyBlockId
      = Ok keyValuePairs).
Proof.
  split; [|split; [reflexivity|]; split; [reflexivity|]].
  - intros blocks m k kb vid Hm Hk Hvid Hnone.
    unfold TextractUtils.extractKeyValuePairs. rewrite Hm. cbn [bind].
    apply (keys_dangling m _ _ k kb vid); auto.
    apply keys_complete with (v := kb). exact Hk.
  - intros m kv k kb vid Hk Hv Hnone.
    unfold LocalFileProcessing.pairKey. rewrite Hk, Hv. cbn [bind].
    rewrite Hnone. reflexivity.
Qed.

(** C9.  When key blocks derive the same key text, the mapping returned
    by [extractKeyValuePairs] binds that text to the value paired with
    the key block that comes last in iteration order (the order of the
    keys of [keyMap]): the last write wins.  Sharing a key text is never
    an error: the extraction completes as soon as every key block
    completes on its own. *)
Theorem duplicate_key_text_last_write_wins
    (blocks : list Block) (m : BlockMaps) :
  organizeBlocks blocks = Ok m ->
  (forall kv earlier k1 between k2 later kb1 kb2 t vids vid v,
      TextractUtils.extractKeyValuePairs blocks = Ok kv ->
      JsObject.keys (keyMap m) = earlier ++ k1 :: between ++ k2 :: later ->
      JsObject.get (keyMap m) k1 = Some kb1 ->
      JsObject.get (keyMap m) k2 = Some kb2 ->
      getTextForBlock (Some kb1) (blockMap m) = Ok t ->
      getTextForBlock (Some kb2) (blockMap m) = Ok t ->
      valueIdsOf kb2 = vids ++ [vid] ->
      getTextForBlock (JsObject.get (valueMap m) vid) (blockMap m) = Ok v ->
      (forall k kb, In k later -> JsObject.get (keyMap m) k = Some kb ->
                    getTextForBlock (Some kb) (blockMap m) <> Ok t) ->
      JsObject.get kv t = Some v) /\
  ((forall k, In k (JsObject.keys (keyMap m)) ->
              exists kv', matchKey m JsObject.empty k = Ok kv') ->
   exists kv, TextractUtils.extractKeyValuePairs blocks = Ok kv).
Proof.
  intros Hm. unfold TextractUtils.extractKeyValuePairs. rewrite Hm.
  cbn [bind]. split.
  - intros kv earlier k1 between k2 later kb1 kb2 t vids vid v
           Hkv Hkeys Hk1 Hk2 Ht1 Ht2 Hvids Hv Hlater.
    rewrite Hkeys in Hkv.
    replace (earlier ++ k1 :: between ++ k2 :: later)
      with ((earlier ++ k1 :: between) ++ [k2] ++ later) in Hkv
      by (rewrite <- app_assoc; reflexivity).
    rewrite (forOf_app (earlier ++ k1 :: between)) in Hkv.
    destruct (forOf (earlier ++ k1 :: between) (matchKey m) JsObject.empty)
      as [kv1|]; [|discriminate].
    cbn [bind forOf app] in Hkv.
    destruct (matchKey m kv1 k2) as [kv2|] eqn:H2; [|discriminate].
    cbn [bind] in Hkv.
    rewrite (later_keys_keep _ _ _ _ _ Hlater Hkv).
    destruct (matchKey_writes _ _ _ _ H2) as (kb & t' & Hkb & Ht' & Hw).
    assert (kb = kb2) by congruence. subst kb.
    assert (t' = t) by congruence. subst t'.
    destruct (proj2 (writer_effect _ _ _ _ _ Hw) vids vid Hvids)
      as [v' [Hv' Hget]].
    congruence.
  - intros Hall.
    generalize (@JsObject.empty str).
    induction (JsObject.keys (keyMap m)) as [|k keys IH]; intros kv; simpl.
    + eexists; reflexivity.
    + destruct (Hall k (or_introl eq_refl)) as [kv0 Hk].
      destruct (matchKey_writes _ _ _ _ Hk) as (kb & t & Hkb & Ht & Hw).
      destruct (writer_completes _ _ _ _ _ kv Hw) as [kv1 Hw1].
      rewrite (writes_complete _ _ _ _ _ _ Hkb Ht Hw1). cbn [bind].
      apply IH. intros k' Hin. apply Hall. right; exact Hin.
Qed.

Lemma duplicate_key_text_last_write_wins_witness :
  exists kv,
    TextractUtils.extractKeyValuePairs duplicateKeyBlocks = Ok kv /\
    JsObject.get kv (lit "Name") = Some (lit "Bob").
Proof.
  eexists. split; [vm_compute; reflexivity|].
  apply (proj1 (duplicate_key_text_last_write_wins
                  duplicateKeyBlocks duplicateKeyMaps
                  ltac:(vm_compute; reflexivity)))
    with (earlier := []) (k1 := lit "k1") (between := []) (k2 := lit "k2")
         (later := []) (kb1 := keySet "k1" ["w1"%string] ["v1"%string])
         (kb2 := keySet "k2" ["w3"%string] ["v2"%string])
         (vids := []) (vid := lit "v2");
    try (vm_compute; reflexivity).
  intros k kb [].
Defined.

End KeyValue.

(** ** Table zone *)

(** *** Double arithmetic of the row key *)

Section DoubleFacts.

Import JsDouble.

Lemma sameKey_refl (x : t) : sameKey x x = true.
Proof.
  destruct x; simpl; try reflexivity. apply Qeq_bool_iff. reflexivity.
Qed.

Lemma sameKey_sym (x y : t) : sameKey x y = sameKey y x.
Proof.
  destruct x, y; simpl; try reflexivity.
  destruct (Qeq_bool value value0) eqn:E1, (Qeq_bool value0 value) eqn:E2;
    try reflexivity.
  - apply Qeq_bool_iff in E1. symmetry in E1. apply Qeq_bool_iff in E1.
    congruence.
  - apply Qeq_bool_iff in E2. symmetry in E2. apply Qeq_bool_iff in E2.
    congruence.
Qed.

Lemma sameKey_trans (x y z : t) :
  sameKey x y = true -> sameKey y z = true -> sameKey x z = true.
Proof.
  destruct x, y, z; simpl; try discriminate; try reflexivity.
  intros H1 H2. apply Qeq_bool_iff in H1, H2. apply Qeq_bool_iff.
  rewrite H1. exact H2.
Qed.

Lemma roundHalfEven_near (z : Q) :
  z - (1 # 2) <= inject_Z (roundHalfEven z) /\
  inject_Z (roundHalfEven z) <= z + (1 # 2).
Proof.
  unfold roundHalfEven.
  pose proof (Qfloor_le z) as Hlo. pose proof (Qlt_floor z) as Hhi.
  assert (Hup : inject_Z (Qfloor z + 1) == inject_Z (Qfloor z) + 1)
    by (rewrite inject_Z_plus; reflexivity).
  rewrite Hup in Hhi.
  destruct (Qcompare (z - inject_Z (Qfloor z)) (1 # 2)) eqn:E.
  - apply Qeq_alt in E.
    destruct (Z.even (Qfloor z)); rewrite ?Hup; split; lra.
  - apply Qlt_alt in E. split; lra.
  - apply Qgt_alt in E. rewrite Hup. split; lra.
Qed.

(** On the numbers between 1 and 1024 the nearest double is finite and
    within a quarter. *)
Lemma nearest_near (x : Q) :
  1 <= x -> x < 1024 ->
  exists y, nearest x = Finite y /\ x - (1 # 4) <= y /\ y <= x + (1 # 4).
Proof.
  intros Hlo Hhi. unfold nearest.
  assert (Hpos : (x ?= 0) = Gt) by (apply Qgt_alt; lra).
  rewrite Hpos. unfold nearestPositive, binade.
  assert (H1 : Qle_bool 1 x = true) by (apply Qle_bool_iff; exact Hlo).
  rewrite H1.
  assert (Hf : (1 <= Qfloor x <= 1023)%Z).
  { split.
    - change 1%Z with (Qfloor 1). apply Qfloor_resp_le. exact Hlo.
    - assert (Qfloor x < 1024)%Z; [|lia].
      rewrite Zlt_Qlt. apply Qle_lt_trans with x; [apply Qfloor_le | exact Hhi]. }
  assert (He : (0 <= Z.log2 (Qfloor x) <= 9)%Z).
  { split; [apply Z.log2_nonneg|].
    change 9%Z with (Z.log2 1023). apply Z.log2_le_mono. lia. }
  set (e := Z.log2 (Qfloor x)) in *.
  assert (Hq : Z.max (e - 52) (-1074) = (e - 52)%Z) by lia.
  rewrite Hq.
  assert (Hcases : (e = 0 \/ e = 1 \/ e = 2 \/ e = 3 \/ e = 4 \/ e = 5 \/
                   e = 6 \/ e = 7 \/ e = 8 \/ e = 9)%Z) by lia.
  set (ulp := pow2 (e - 52)).
  assert (Hulp : 0 < ulp /\ ulp <= 1 # 2).
  { unfold ulp.
    destruct Hcases as [-> | [-> | [-> | [-> | [-> | [-> | [-> | [-> | [-> | ->]]]]]]]]];
      split; reflexivity || (vm_compute; discriminate). }
  destruct Hulp as [Hu0 Hu1].
  destruct (roundHalfEven_near (x / ulp)) as [Ha Hb].
  set (m := inject_Z (roundHalfEven (x / ulp))) in *.
  assert (Hx : x / ulp * ulp == x).
  { field. intros H0. rewrite H0 in Hu0. apply (Qlt_irrefl 0). exact Hu0. }
  assert (Hlow : x - (1 # 4) <= m * ulp).
  { assert ((x / ulp - (1 # 2)) * ulp <= m * ulp)
      by (apply Qmult_le_compat_r; [exact Ha | lra]).
    nra. }
  assert (Hupp : m * ulp <= x + (1 # 4)).
  { assert (m * ulp <= (x / ulp + (1 # 2)) * ulp)
      by (apply Qmult_le_compat_r; [exact Hb | lra]).
    nra. }
  assert (Hfin : Qle_bool (pow2 1024) (m * ulp) = false).
  { destruct (Qle_bool (pow2 1024) (m * ulp)) eqn:E; [|reflexivity].
    apply Qle_bool_iff in E.
    assert (H2 : 1025 < pow2 1024) by (vm_compute; reflexivity).
    lra. }
  rewrite Hfin. exists (Qred (m * ulp)). split; [reflexivity|].
  rewrite Qred_correct. split; assumption.
Qed.

(** The thousandths from 0.001 to 0.911, as doubles, are no array
    indices. *)
Lemma thousandths_not_index (k : Z) :
  (1 <= k <= 911)%Z ->
  arrayIndex (nearest (inject_Z k / 1000)) = None.
Proof.
  intros Hk.
  assert (Hall : forallb (fun n => match arrayIndex
                                           (nearest (inject_Z (Z.of_nat n) / 1000)) with
                                   | None => true
                                   | Some _ => false
                                   end) (seq 1 911) = true)
    by (vm_compute; reflexivity).
  rewrite forallb_forall in Hall.
  specialize (Hall (Z.to_nat k)).
  rewrite Z2Nat.id in Hall by lia.
  destruct (arrayIndex (nearest (inject_Z k / 1000))); [|reflexivity].
  discriminate Hall. apply in_seq. lia.
Qed.

(** A top between 0.001 and 0.91 is quantised to a number that is no
    array index. *)
Lemma quantized_not_index (top : Q) :
  1 # 1000 <= top -> top <= 91 # 100 ->
  arrayIndex (divide (Math_round (times top 1000)) 1000) = None.
Proof.
  intros Hlo Hhi. unfold times.
  destruct (nearest_near (top * 1000)) as (y & Hy & Hy1 & Hy2); [lra | lra |].
  rewrite Hy. cbn [Math_round divide].
  apply thousandths_not_index.
  assert (H1 : (Qfloor (1 # 1) <= Qfloor (y + (1 # 2)))%Z)
    by (apply Qfloor_resp_le; lra).
  assert (H2 : (Qfloor (y + (1 # 2)) <= Qfloor (911 # 1))%Z)
    by (apply Qfloor_resp_le; lra).
  split; [exact H1 | exact H2].
Qed.

Lemma pow2_small (q : Z) :
  (q <= -2)%Z -> 0 < pow2 q /\ pow2 q <= 1 # 4.
Proof.
  intros Hq. unfold pow2.
  assert (E : (0 <=? q)%Z = false) by (apply Z.leb_gt; lia).
  rewrite E.
  assert (Hp : (2 ^ 2 <= 2 ^ (- q))%Z) by (apply Z.pow_le_mono_r; lia).
  destruct (2 ^ (- q))%Z as [|p|p] eqn:Ep; try (cbn in Hp; lia).
  unfold Qinv, inject_Z, Qlt, Qle. cbn. split; lia.
Qed.

Lemma pow2_positive (q : Z) : 0 < pow2 q.
Proof.
  unfold pow2. destruct (0 <=? q)%Z eqn:E.
  - apply Z.leb_le in E. assert (0 < 2 ^ q)%Z by (apply Z.pow_pos_nonneg; lia).
    unfold Qlt, inject_Z. cbn. lia.
  - apply Z.leb_gt in E.
    assert (0 < 2 ^ (- q))%Z by (apply Z.pow_pos_nonneg; lia).
    destruct (2 ^ (- q))%Z as [|p|p]; try lia.
    unfold Qinv, inject_Z, Qlt. cbn. lia.
Qed.

(** The nearest double of a number above zero is not below zero. *)
Lemma nearestPositive_nonneg (x y : Q) :
  0 < x -> nearestPositive x = Some y -> 0 <= y.
Proof.
  intros Hx. unfold nearestPositive.
  set (ulp := pow2 (Z.max (binade x - 52) (-1074))).
  pose proof (pow2_positive (Z.max (binade x - 52) (-1074))) as Hulp.
  fold ulp in Hulp.
  destruct (Qle_bool (pow2 1024) _); [discriminate|].
  intros H.
  replace y with (Qred (inject_Z (roundHalfEven (x / ulp)) * ulp))
    by congruence.
  clear H. rewrite Qred_correct.
  destruct (roundHalfEven_near (x / ulp)) as [Ha _].
  assert (Hdiv : 0 < x / ulp).
  { apply Qlt_shift_div_l; [exact Hulp | lra]. }
  set (z := x / ulp) in *.
  assert (Hm : (0 <= roundHalfEven z)%Z).
  { assert (H : inject_Z (-1) < inject_Z (roundHalfEven z))
      by (change (inject_Z (-1)) with (-1); lra).
    rewrite <- Zlt_Qlt in H. lia. }
  rewrite Zle_Qle in Hm. change (inject_Z 0) with 0 in Hm.
  apply Qmult_le_0_compat; [exact Hm | lra].
Qed.

(** Below 1 the nearest double is finite, not below zero and within a
    quarter. *)
Lemma nearest_small (x : Q) :
  0 < x -> x < 1 ->
  exists y, nearest x = Finite y /\ 0 <= y /\ y <= x + (1 # 4).
Proof.
  intros Hlo Hhi. unfold nearest.
  assert (Hpos : (x ?= 0) = Gt) by (apply Qgt_alt; lra).
  rewrite Hpos.
  destruct (nearestPositive x) as [y|] eqn:Hn.
  - exists y. split; [reflexivity|].
    split; [exact (nearestPositive_nonneg _ _ Hlo Hn)|].
    revert Hn. unfold nearestPositive, binade.
    assert (H1 : Qle_bool 1 x = false).
    { destruct (Qle_bool 1 x) eqn:E; [|reflexivity].
      apply Qle_bool_iff in E. lra. }
    rewrite H1.
    set (q := Z.max (- Z.log2_up (Qceiling (/ x)) - 52) (-1074)).
    assert (Hq : (q <= -2)%Z).
    { pose proof (Z.log2_up_nonneg (Qceiling (/ x))). unfold q. lia. }
    destruct (pow2_small q Hq) as [Hu0 Hu1].
    set (ulp := pow2 q) in *.
    destruct (Qle_bool (pow2 1024) _); [discriminate|].
    intros H.
    replace y with (Qred (inject_Z (roundHalfEven (x / ulp)) * ulp))
      by congruence.
    clear H. rewrite Qred_correct.
    destruct (roundHalfEven_near (x / ulp)) as [_ Hb].
    set (m := inject_Z (roundHalfEven (x / ulp))) in *.
    assert (Hx : x / ulp * ulp == x).
    { field. intros H0. rewrite H0 in Hu0. apply (Qlt_irrefl 0). exact Hu0. }
    assert (m * ulp <= (x / ulp + (1 # 2)) * ulp)
      by (apply Qmult_le_compat_r; [exact Hb | lra]).
    nra.
  - exfalso. revert Hn. unfold nearestPositive, binade.
    assert (H1 : Qle_bool 1 x = false).
    { destruct (Qle_bool 1 x) eqn:E; [|reflexivity].
      apply Qle_bool_iff in E. lra. }
    rewrite H1.
    set (q := Z.max (- Z.log2_up (Qceiling (/ x)) - 52) (-1074)).
    assert (Hq : (q <= -2)%Z).
    { pose proof (Z.log2_up_nonneg (Qceiling (/ x))). unfold q. lia. }
    destruct (pow2_small q Hq) as [Hu0 Hu1].
    set (ulp := pow2 q) in *.
    destruct (roundHalfEven_near (x / ulp)) as [_ Hb].
    set (m := inject_Z (roundHalfEven (x / ulp))) in *.
    assert (Hx : x / ulp * ulp == x).
    { field. intros H0. rewrite H0 in Hu0. apply (Qlt_irrefl 0). exact Hu0. }
    assert (m * ulp <= (x / ulp + (1 # 2)) * ulp)
      by (apply Qmult_le_compat_r; [exact Hb | lra]).
    destruct (Qle_bool (pow2 1024) (m * ulp)) eqn:E; [|discriminate].
    apply Qle_bool_iff in E.
    assert (H2 : 1025 < pow2 1024) by (vm_compute; reflexivity).
    nra.
Qed.

Lemma nearest_below_zero (x : Q) :
  x < 0 ->
  nearest x = MinusInfinity \/ exists y, nearest x = Finite (- y) /\ 0 <= y.
Proof.
  intros Hx. unfold nearest.
  assert (Hneg : (x ?= 0) = Lt) by (apply Qlt_alt; exact Hx).
  rewrite Hneg.
  destruct (nearestPositive (- x)) as [y|] eqn:Hn; [|left; reflexivity].
  right. exists y. split; [reflexivity|].
  apply (nearestPositive_nonneg (- x)); [lra | exact Hn].
Qed.

Lemma thousandths_below_one (k : Z) :
  (k <= 911)%Z -> BelowOne (nearest (inject_Z k / 1000)).
Proof.
  intros Hk.
  destruct (Z.le_gt_cases 0 k) as [Hpos | Hneg].
  - assert (Hall : forallb (fun n => match nearest (inject_Z (Z.of_nat n) / 1000) with
                                     | Finite v => negb (Qle_bool 1 v)
                                     | _ => false
                                     end) (seq 0 912) = true)
      by (vm_compute; reflexivity).
    rewrite forallb_forall in Hall.
    specialize (Hall (Z.to_nat k)).
    rewrite Z2Nat.id in Hall by lia.
    assert (Hin : In (Z.to_nat k) (seq 0 912)) by (apply in_seq; lia).
    specialize (Hall Hin).
    destruct (nearest (inject_Z k / 1000)) as [v| |]; try discriminate.
    cbn. apply negb_true_iff in Hall. apply Qnot_le_lt. intros H.
    apply Qle_bool_iff in H. congruence.
  - assert (Hx : inject_Z k / 1000 < 0).
    { assert (inject_Z k < 0) by (change 0 with (inject_Z 0); rewrite <- Zlt_Qlt; lia).
      apply Qlt_shift_div_r; [reflexivity | lra]. }
    destruct (nearest_below_zero _ Hx) as [-> | (y & -> & Hy)]; cbn; [exact I | lra].
Qed.

(** The quantised top of a line above 0.91 of the page height is below
    1, so that the only array index it can be is 0. *)
Lemma quantized_below_one (top : Q) :
  top <= 91 # 100 ->
  BelowOne (divide (Math_round (times top 1000)) 1000).
Proof.
  intros Hhi. unfold times.
  assert (Hfinite : forall y, y <= 911 + (1 # 4) ->
            BelowOne (divide (Math_round (Finite y)) 1000)).
  { intros y Hy. cbn [Math_round divide]. apply thousandths_below_one.
    assert (H2 : (Qfloor (y + (1 # 2)) <= Qfloor (911 + (3 # 4)))%Z)
      by (apply Qfloor_resp_le; lra).
    exact H2. }
  destruct (Qlt_le_dec (top * 1000) 1) as [Hsmall | Hbig].
  - destruct (Qlt_le_dec 0 (top * 1000)) as [Hpos | Hnonpos].
    + destruct (nearest_small _ Hpos Hsmall) as (y & -> & _ & Hy).
      apply Hfinite. lra.
    + destruct (Qle_lt_or_eq _ _ Hnonpos) as [Hneg | Hzero].
      * destruct (nearest_below_zero _ Hneg) as [-> | (y & -> & Hy)].
        -- exact I.
        -- apply Hfinite. lra.
      * assert (E : nearest (top * 1000) = Finite 0).
        { unfold nearest. apply Qeq_alt in Hzero. rewrite Hzero. reflexivity. }
        rewrite E. apply Hfinite. lra.
  - destruct (nearest_near (top * 1000)) as (y & -> & _ & Hy); [exact Hbig | lra |].
    apply Hfinite. lra.
Qed.

(** Below 1, a key is an array index exactly when it is 0. *)
Lemma arrayIndex_below_one (x : t) :
  BelowOne x ->
  arrayIndex x = if sameKey x (Finite 0) then Some 0%Z else None.
Proof.
  destruct x as [v| |]; cbn [BelowOne arrayIndex sameKey]; intros Hv;
    [|destruct Hv | reflexivity].
  destruct (Qeq_bool v 0) eqn:E.
  - apply Qeq_bool_iff in E.
    assert (Hf : Qfloor v = 0%Z) by (rewrite E; reflexivity).
    rewrite Hf.
    assert (H0 : Qeq_bool (inject_Z 0) v = true)
      by (apply Qeq_bool_iff; rewrite E; reflexivity).
    rewrite H0. reflexivity.
  - destruct (Qeq_bool (inject_Z (Qfloor v)) v) eqn:Hint; [|reflexivity].
    destruct (0 <=? Qfloor v)%Z eqn:Hnn; [|reflexivity].
    exfalso. apply Qeq_bool_iff in Hint. apply Z.leb_le in Hnn.
    assert (Hlt : (Qfloor v < 1)%Z).
    { rewrite Zlt_Qlt. rewrite Hint. exact Hv. }
    assert (Hz : Qfloor v = 0%Z) by lia.
    rewrite Hz in Hint.
    assert (Qeq_bool v 0 = true)
      by (apply Qeq_bool_iff; rewrite <- Hint; reflexivity).
    congruence.
Qed.

(** The product is rounded before [Math.round] sees it: the double
    0.1025 lies below 0.1025, its product with 1000 is the double 102.5,
    and the row key is 0.103. *)
Example rounded_product_reaches_the_half :
  decimal (1025 # 10000) * 1000 < 205 # 2 /\
  times (decimal (1025 # 10000)) 1000 = Finite (205 # 2) /\
  divide (Math_round (times (decimal (1025 # 10000)) 1000)) 1000
  = Finite (decimal (103 # 1000)).
Proof.
  split; [vm_compute; reflexivity|]. split; vm_compute; reflexivity.
Qed.

End DoubleFacts.

(** *** The grouping loop builds the rows *)

Section RowFacts.

Import LocalFileProcessingAdvanced Samples TableSpec.

Lemma sameRow_refl (a : Block) : sameRow a a = true.
Proof. apply sameKey_refl. Qed.

Lemma sameRow_sym (a b : Block) : sameRow a b = sameRow b a.
Proof. apply sameKey_sym. Qed.

Lemma sameRow_trans (a b c : Block) :
  sameRow a b = true -> sameRow b c = true -> sameRow a c = true.
Proof. apply sameKey_trans. Qed.

Lemma rowOpeners_snoc (earlier lines : list Block) (line : Block) :
  rowOpeners earlier (lines ++ [line])
  = rowOpeners earlier lines
    ++ (if existsb (sameRow line) (earlier ++ lines) then [] else [line]).
Proof.
  revert earlier; induction lines as [|l lines IH]; intros earlier.
  - cbn [app rowOpeners]. rewrite app_nil_r.
    destruct (existsb (sameRow line) earlier); reflexivity.
  - cbn [app rowOpeners]. rewrite IH, <- app_assoc. cbn [app].
    destruct (existsb (sameRow l) earlier); reflexivity.
Qed.

Lemma filter_snoc {A : Type} (f : A -> bool) (l : list A) (x : A) :
  filter f (l ++ [x]) = filter f l ++ (if f x then [x] else []).
Proof. rewrite filter_app. reflexivity. Qed.

Lemma ForallOrdPairs_snoc {A : Type} (R : A -> A -> Prop) (l : list A) (x : A) :
  ForallOrdPairs R l -> Forall (fun a => R a x) l ->
  ForallOrdPairs R (l ++ [x]).
Proof.
  induction 1 as [|a l Ha Hl IH]; intros Hx; cbn [app].
  - constructor; constructor.
  - inversion Hx as [|? ? Hax Hlx]; subst. constructor.
    + apply Forall_app. split; [exact Ha | constructor; [exact Hax | constructor]].
    + apply IH. exact Hlx.
Qed.

Lemma pushLine_new (openers seen : list Block) (line : Block) :
  existsb (sameRow line) openers = false ->
  pushLine (groupsOver openers seen) (groupKey line) line
  = groupsOver openers (seen ++ [line]) ++ [(groupKey line, [line])].
Proof.
  induction openers as [|o openers IH]; intros Hnew; [reflexivity|].
  cbn [existsb] in Hnew. apply orb_false_iff in Hnew. destruct Hnew as [Ho Hnew].
  unfold groupsOver in *. cbn [map pushLine app].
  change (JsDouble.sameKey (groupKey line) (quantizedTop o))
    with (sameRow line o).
  rewrite Ho, (IH Hnew), filter_snoc.
  rewrite (sameRow_sym o line), Ho, app_nil_r. reflexivity.
Qed.

Lemma pushLine_found (openers seen : list Block) (line : Block) :
  ForallOrdPairs (fun a b => sameRow a b = false) openers ->
  existsb (sameRow line) openers = true ->
  pushLine (groupsOver openers seen) (groupKey line) line
  = groupsOver openers (seen ++ [line]).
Proof.
  induction 1 as [|o openers Ho Hrest IH]; intros Hfound; [discriminate|].
  unfold groupsOver in *. cbn [map pushLine].
  change (JsDouble.sameKey (groupKey line) (quantizedTop o))
    with (sameRow line o).
  rewrite filter_snoc, (sameRow_sym o line).
  cbn [existsb] in Hfound.
  destruct (sameRow line o) eqn:Hlo.
  - f_equal. apply map_ext_in. intros o' Ho'. rewrite filter_snoc.
    rewrite Forall_forall in Ho.
    destruct (sameRow o' line) eqn:E; [|rewrite app_nil_r; reflexivity].
    rewrite sameRow_sym in Hlo.
    rewrite sameRow_sym in E.
    pose proof (Ho o' Ho') as Hoo'.
    rewrite (sameRow_trans _ _ _ Hlo E) in Hoo'. discriminate.
  - rewrite app_nil_r. f_equal. apply IH. exact Hfound.
Qed.

Lemma Grouped_step (seen : list Block) (groups : LineGroups) (line : Block) :
  Grouped seen groups ->
  Grouped (seen ++ [line]) (pushLine groups (groupKey line) line).
Proof.
  intros (Hg & Hdistinct & Hcover & Hsub). subst groups.
  unfold Grouped. rewrite rowOpeners_snoc. cbn [app].
  destruct (existsb (sameRow line) seen) eqn:Hseen.
  - (* the row of the line is open *)
    rewrite app_nil_r.
    apply existsb_exists in Hseen. destruct Hseen as (p & Hp & Hlp).
    destruct (Hcover p Hp) as (o & Ho & Hop).
    assert (Hlo : sameRow line o = true).
    { apply sameRow_trans with p; [exact Hlp|]. rewrite sameRow_sym. exact Hop. }
    assert (Hfound : existsb (sameRow line) (rowOpeners [] seen) = true).
    { apply existsb_exists. exists o. split; assumption. }
    split; [apply pushLine_found; assumption|].
    split; [exact Hdistinct|]. split.
    + intros l Hl. apply in_app_or in Hl. destruct Hl as [Hl | [<- | []]].
      * apply Hcover. exact Hl.
      * exists o. split; [exact Ho|]. rewrite sameRow_sym. exact Hlo.
    + intros o' Ho'. apply in_or_app. left. apply Hsub. exact Ho'.
  - (* the line opens a row *)
    assert (Hnone : forall p, In p seen -> sameRow line p = false).
    { intros p Hp. destruct (sameRow line p) eqn:E; [|reflexivity].
      assert (existsb (sameRow line) seen = true)
        by (apply existsb_exists; exists p; split; assumption).
      congruence. }
    assert (Hnew : existsb (sameRow line) (rowOpeners [] seen) = false).
    { destruct (existsb (sameRow line) (rowOpeners [] seen)) eqn:E;
        [|reflexivity].
      apply existsb_exists in E. destruct E as (o & Ho & Hlo).
      rewrite (Hnone o (Hsub o Ho)) in Hlo. discriminate. }
    split.
    { rewrite (pushLine_new _ _ _ Hnew). unfold groupsOver.
      rewrite map_app. cbn [map]. f_equal. f_equal. f_equal.
      rewrite filter_snoc, sameRow_refl.
      assert (E : filter (sameRow line) seen = []).
      { clear - Hnone. induction seen as [|p seen IH]; [reflexivity|].
        cbn [filter]. rewrite (Hnone p (or_introl eq_refl)).
        apply IH. intros q Hq. apply Hnone. right. exact Hq. }
      rewrite E. reflexivity. }
    split.
    { apply ForallOrdPairs_snoc; [exact Hdistinct|].
      apply Forall_forall. intros o Ho. rewrite sameRow_sym.
      apply Hnone. apply Hsub. exact Ho. }
    split.
    + intros l Hl. apply in_app_or in Hl. destruct Hl as [Hl | [<- | []]].
      * destruct (Hcover l Hl) as (o & Ho & Hol).
        exists o. split; [apply in_or_app; left; exact Ho | exact Hol].
      * exists line. split; [apply in_or_app; right; left; reflexivity|].
        apply sameRow_refl.
    + intros o Ho. apply in_app_or in Ho. apply in_or_app.
      destruct Ho as [Ho | Ho]; [left; apply Hsub; exact Ho | right; exact Ho].
Qed.

Lemma Grouped_loop (lines seen : list Block) (groups : LineGroups) :
  Grouped seen groups ->
  Grouped (seen ++ lines)
    (fold_left (fun groups line => pushLine groups (groupKey line) line)
               lines groups).
Proof.
  revert seen groups; induction lines as [|l lines IH]; intros seen groups H.
  - rewrite app_nil_r. exact H.
  - cbn [fold_left].
    replace (seen ++ l :: lines) with ((seen ++ [l]) ++ lines)
      by (rewrite <- app_assoc; reflexivity).
    apply IH. apply Grouped_step. exact H.
Qed.

(** The grouping loop builds the rows: one group for each line that
    opens a row, in block order, holding the lines of that row in block
    order, under the quantised top of the opener. *)
Lemma lineGroupsOf_rows (lines : list Block) :
  lineGroupsOf lines = groupsOver (rowOpeners [] lines) lines.
Proof.
  assert (H0 : Grouped [] []).
  { unfold Grouped. cbn. repeat split; try constructor; intros ? []. }
  exact (proj1 (Grouped_loop lines [] [] H0)).
Qed.

Lemma rowOpeners_incl (lines earlier : list Block) (opener : Block) :
  In opener (rowOpeners earlier lines) -> In opener lines.
Proof.
  revert earlier; induction lines as [|l lines IH]; intros earlier;
    cbn [rowOpeners]; [intros []|].
  destruct (existsb (sameRow l) earlier).
  - intros H. right. exact (IH _ H).
  - intros [<- | H]; [left; reflexivity | right; exact (IH _ H)].
Qed.

Lemma groups_without_index (openers lines : list Block) :
  (forall o, In o openers -> groupIndex (quantizedTop o) = None) ->
  indexGroups (groupsOver openers lines) = [] /\
  filter (fun kg => match groupIndex (fst kg) with
                    | Some _ => false
                    | None => true
                    end) (groupsOver openers lines)
  = groupsOver openers lines.
Proof.
  induction openers as [|o openers IH]; intros Hkeys; [split; reflexivity|].
  destruct IH as [IH1 IH2].
  { intros o' Ho'. apply Hkeys. right. exact Ho'. }
  unfold groupsOver in *. cbn [map indexGroups filter fst].
  rewrite (Hkeys o (or_introl eq_refl)). split; [exact IH1|].
  rewrite IH2. reflexivity.
Qed.

(** When no key is an array index, [Object.values] lists the groups in
    creation order: they are the rows. *)
Lemma Object_values_rows (lines : list Block) :
  NoWholeNumberRow lines ->
  Object_values (lineGroupsOf lines) = rowsOf lines.
Proof.
  intros Hno. rewrite lineGroupsOf_rows. unfold rowsOf, Object_values.
  destruct (groups_without_index (rowOpeners [] lines) lines) as [E1 E2].
  { intros o Ho. apply Hno. exact (rowOpeners_incl _ _ _ Ho). }
  rewrite E1, E2. unfold groupsOver. rewrite map_map. reflexivity.
Qed.

End RowFacts.

(** *** The left-most line of a row *)

Section LeftmostFacts.

Import LocalFileProcessingAdvanced Samples TableSpec.

Lemma insertByLeft_hd (x : Block) (l : list Block) :
  hd_error (insertByLeft x l)
  = match hd_error l with
    | None => Some x
    | Some y => if Qle_bool (Left (BoundingBox x)) (Left (BoundingBox y))
                then Some x else Some y
    end.
Proof.
  destruct l as [|y l]; cbn [insertByLeft hd_error]; [reflexivity|].
  destruct (Qle_bool (Left (BoundingBox x)) (Left (BoundingBox y)));
    reflexivity.
Qed.

Lemma sortByLeft_nil (group : list Block) :
  hd_error (sortByLeft group) = None -> group = [].
Proof.
  destruct group as [|x group]; [reflexivity|].
  unfold sortByLeft. cbn [fold_right]. rewrite insertByLeft_hd.
  destruct (hd_error _); [destruct (Qle_bool _ _)|]; discriminate.
Qed.

Lemma find_refine {A : Type} (f g : A -> bool) (l : list A) (x : A) :
  find f l = Some x -> g x = true ->
  find (fun a => g a && f a) l = Some x.
Proof.
  induction l as [|a l IH]; cbn [find]; [discriminate|].
  destruct (f a) eqn:Hf.
  - intros [= ->] Hg. rewrite Hg. reflexivity.
  - rewrite andb_false_r. exact IH.
Qed.

(** The head of the sorted group is the first line of least left. *)
Lemma sortByLeft_hd (group : list Block) :
  hd_error (sortByLeft group) = leftmostLine group.
Proof.
  induction group as [|x group IH]; [reflexivity|].
  unfold sortByLeft. cbn [fold_right]. fold (sortByLeft group).
  rewrite insertByLeft_hd, IH. unfold leftmostLine at 2.
  cbn [find forallb].
  assert (Hxx : Qle_bool (Left (BoundingBox x)) (Left (BoundingBox x)) = true)
    by (apply Qle_bool_iff; apply Qle_refl).
  rewrite Hxx. cbn [andb].
  destruct (leftmostLine group) as [y|] eqn:Hy.
  - unfold leftmostLine in Hy.
    destruct (find_first _ _ _ Hy) as (before & after & Hg & Hmin & Hbefore).
    rewrite forallb_forall in Hmin.
    assert (Hyin : In y group) by (rewrite Hg; apply in_elt).
    destruct (Qle_bool (Left (BoundingBox x)) (Left (BoundingBox y))) eqn:Hxy.
    + assert (Hall : forallb (fun other => Qle_bool (Left (BoundingBox x))
                                              (Left (BoundingBox other))) group
                     = true).
      { apply forallb_forall. intros l Hl. apply Qle_bool_iff.
        apply Qle_trans with (Left (BoundingBox y)).
        - apply Qle_bool_iff. exact Hxy.
        - apply Qle_bool_iff. apply Hmin. exact Hl. }
      rewrite Hall. reflexivity.
    + assert (Hall : forallb (fun other => Qle_bool (Left (BoundingBox x))
                                              (Left (BoundingBox other))) group
                     = false).
      { destruct (forallb _ group) eqn:E; [|reflexivity].
        rewrite forallb_forall in E. rewrite (E y Hyin) in Hxy. discriminate. }
      rewrite Hall.
      assert (Hyx : Qle_bool (Left (BoundingBox y)) (Left (BoundingBox x)) = true).
      { apply Qle_bool_iff. apply Qlt_le_weak. apply Qnot_le_lt. intros H.
        apply Qle_bool_iff in H. congruence. }
      symmetry.
      exact (find_refine _ (fun line => Qle_bool (Left (BoundingBox line))
                                                  (Left (BoundingBox x)))
               group y Hy Hyx).
  - assert (group = []) as -> by (apply sortByLeft_nil; exact IH).
    reflexivity.
Qed.

End LeftmostFacts.

(** *** The header lines and the table region *)

Section HeaderFacts.

Import LocalFileProcessingAdvanced Samples TableSpec.

Lemma isBlockType_LINE (b : Block) :
  isBlockType LINE b = true <-> BlockType b = LINE.
Proof.
  unfold isBlockType. destruct (BlockType b); split; congruence.
Qed.

Lemma find_at_first {A : Type} (f : A -> bool) (before after : list A) (x : A) :
  (forall b, In b before -> f b = false) -> f x = true ->
  find f (before ++ x :: after) = Some x.
Proof.
  intros Hb Hx. induction before as [|a before IH]; cbn [app find].
  - rewrite Hx. reflexivity.
  - rewrite (Hb a (or_introl eq_refl)). apply IH.
    intros b Hin. apply Hb. right. exact Hin.
Qed.

Lemma carries_label (label : str) (b : Block) :
  isBlockType LINE b && streq (Text b) label = true
  <-> BlockType b = LINE /\ Text b = label.
Proof.
  rewrite andb_true_iff, isBlockType_LINE, streq_eq. reflexivity.
Qed.

(** [blocks.find(block => block.BlockType === 'LINE' && block.Text ===
    header.text)] finds the first LINE block with that text. *)
Lemma find_FirstLineWith (blocks : list Block) (label : str) (h : Block) :
  find (fun block => isBlockType LINE block && streq (Text block) label) blocks
  = Some h
  <-> FirstLineWith blocks label h.
Proof.
  split.
  - intros H. destruct (find_first _ _ _ H) as (before & after & Hb & Hh & Hn).
    exists before, after. apply carries_label in Hh. destruct Hh as [H1 H2].
    repeat split; try assumption.
    intros b Hin Hc. apply carries_label in Hc. rewrite (Hn b Hin) in Hc.
    discriminate.
  - intros (before & after & -> & H1 & H2 & Hn). apply find_at_first.
    + intros b Hin.
      destruct (isBlockType LINE b && streq (Text b) label) eqn:E;
        [|reflexivity].
      apply carries_label in E. destruct (Hn b Hin E).
    + apply carries_label. split; assumption.
Qed.

Lemma headerBlocks_in (blocks : list Block) (h : Block) :
  In h (headerBlocks blocks)
  <-> exists label, In label headers /\ FirstLineWith blocks label h.
Proof.
  unfold headerBlocks. rewrite in_flat_map. split.
  - intros (label & Hl & Hin). exists label. split; [exact Hl|].
    apply find_FirstLineWith.
    destruct (find _ blocks) as [b|]; [|destruct Hin].
    destruct Hin as [-> | []]. reflexivity.
  - intros (label & Hl & Hf). exists label. split; [exact Hl|].
    apply find_FirstLineWith in Hf. rewrite Hf. left. reflexivity.
Qed.

(** [Math.min] returns one of its arguments, and none is below it. *)
Lemma Qmin_list_least (t : Q) (ts : list Q) :
  In (Qmin_list t ts) (t :: ts) /\
  forall y, In y (t :: ts) -> Qmin_list t ts <= y.
Proof.
  unfold Qmin_list. revert t; induction ts as [|u ts IH]; intros t;
    cbn [fold_left].
  - split; [left; reflexivity|]. intros y [<- | []]. apply Qle_refl.
  - destruct (IH (if Qle_bool t u then t else u)) as [Hin Hle].
    destruct (Qle_bool t u) eqn:E.
    + split.
      * destruct Hin as [<- | Hin]; [left; reflexivity | right; right; exact Hin].
      * intros y [<- | [<- | Hy]].
        -- apply Hle. left. reflexivity.
        -- apply Qle_trans with t; [apply Hle; left; reflexivity|].
           apply Qle_bool_iff. exact E.
        -- apply Hle. right. exact Hy.
    + split.
      * destruct Hin as [<- | Hin]; [right; left; reflexivity | right; right; exact Hin].
      * intros y [<- | [<- | Hy]].
        -- apply Qle_trans with u; [apply Hle; left; reflexivity|].
           apply Qlt_le_weak. apply Qnot_le_lt. intros H.
           apply Qle_bool_iff in H. congruence.
        -- apply Hle. left. reflexivity.
        -- apply Hle. right. exact Hy.
Qed.

(** [tableTop] is the least top among the matched header lines. *)
Lemma tableTopOf_least (blocks : list Block) (tableTop : Q) :
  tableTopOf blocks = Some tableTop -> LeastHeaderTop blocks tableTop.
Proof.
  unfold tableTopOf.
  destruct (map (fun h => Top (BoundingBox h)) (headerBlocks blocks))
    as [|t ts] eqn:Htops; [discriminate|].
  intros [= <-]. destruct (Qmin_list_least t ts) as [Hin Hle].
  rewrite <- Htops in Hin, Hle. split.
  - apply in_map_iff in Hin. destruct Hin as (h & Hh & Hin).
    apply headerBlocks_in in Hin. destruct Hin as (label & Hl & Hf).
    exists label, h. repeat split; try assumption. rewrite Hh. reflexivity.
  - intros label h Hl Hf. apply Hle. apply in_map_iff. exists h.
    split; [reflexivity|]. apply headerBlocks_in. exists label.
    split; assumption.
Qed.

Lemma least_tableTopOf (blocks : list Block) (tableTop : Q) :
  LeastHeaderTop blocks tableTop ->
  exists t, tableTopOf blocks = Some t /\ t == tableTop.
Proof.
  intros [(label & h & Hl & Hf & Hh) Hleast].
  destruct (tableTopOf blocks) as [t|] eqn:Ht.
  - exists t. split; [reflexivity|].
    destruct (tableTopOf_least _ _ Ht) as [(label' & h' & Hl' & Hf' & Hh') Hleast'].
    apply Qle_antisym.
    + rewrite <- Hh. exact (Hleast' label h Hl Hf).
    + rewrite <- Hh'. exact (Hleast label' h' Hl' Hf').
  - exfalso. unfold tableTopOf in Ht.
    assert (Hin : In h (headerBlocks blocks))
      by (apply headerBlocks_in; exists label; split; assumption).
    destruct (headerBlocks blocks); [destruct Hin | discriminate].
Qed.

(** The table lines are the lines of the region. *)
Lemma tableLines_region (blocks : list Block) (t tableTop : Q) :
  t == tableTop -> tableLines blocks t = regionLines blocks tableTop.
Proof.
  intros Ht. unfold tableLines, regionLines. apply filter_ext. intros b.
  unfold Qlt_bool, tableBottom. f_equal. f_equal. f_equal.
  destruct (Qle_bool (Top (BoundingBox b)) t) eqn:E1,
           (Qle_bool (Top (BoundingBox b)) tableTop) eqn:E2; try reflexivity.
  - apply Qle_bool_iff in E1. rewrite Ht in E1. apply Qle_bool_iff in E1.
    congruence.
  - apply Qle_bool_iff in E2. rewrite <- Ht in E2. apply Qle_bool_iff in E2.
    congruence.
Qed.

Lemma regionLines_in (blocks : list Block) (tableTop : Q) (line : Block) :
  In line (regionLines blocks tableTop) ->
  In line blocks /\ BlockType line = LINE /\
  tableTop < Top (BoundingBox line) /\
  Top (BoundingBox line) < JsDouble.decimal (9 # 10).
Proof.
  unfold regionLines. rewrite filter_In.
  intros (Hin & H). apply andb_prop in H. destruct H as [H H3].
  apply andb_prop in H. destruct H as [H1 H2].
  apply isBlockType_LINE in H1. apply negb_true_iff in H2, H3.
  repeat split; try assumption.
  - apply Qnot_le_lt. intros H. apply Qle_bool_iff in H. congruence.
  - apply Qnot_le_lt. intros H. apply Qle_bool_iff in H. congruence.
Qed.

(** Below a header at top 0.001 or lower down the page, no row has a
    whole-number key. *)
Lemma region_below_header (blocks : list Block) (tableTop : Q) :
  1 # 1000 <= tableTop ->
  NoWholeNumberRow (regionLines blocks tableTop).
Proof.
  intros Ht line Hin.
  destruct (regionLines_in _ _ _ Hin) as (_ & _ & Hlo & Hhi).
  unfold quantizedTop.
  assert (H2 : JsDouble.decimal (9 # 10) <= 91 # 100)
    by (vm_compute; discriminate).
  apply quantized_not_index; lra.
Qed.

End HeaderFacts.

(** *** The order in which the rows are walked *)

Section RowOrder.

Import LocalFileProcessingAdvanced Samples TableSpec.

(** In the region the only array index among the keys is 0. *)
Lemma region_index (blocks : list Block) (tableTop : Q) (line : Block) :
  In line (regionLines blocks tableTop) ->
  groupIndex (quantizedTop line)
  = if atPageTop line then Some 0%Z else None.
Proof.
  intros Hin. destruct (regionLines_in _ _ _ Hin) as (_ & _ & _ & Hhi).
  unfold groupIndex, atPageTop. apply arrayIndex_below_one.
  unfold quantizedTop. apply quantized_below_one.
  assert (H2 : JsDouble.decimal (9 # 10) <= 91 # 100)
    by (vm_compute; discriminate).
  lra.
Qed.

Lemma rowOpeners_distinct (lines : list Block) :
  ForallOrdPairs (fun a b => sameRow a b = false) (rowOpeners [] lines).
Proof.
  assert (H0 : Grouped [] []).
  { unfold Grouped. cbn. repeat split; try constructor; intros ? []. }
  exact (proj1 (proj2 (Grouped_loop lines [] [] H0))).
Qed.

Lemma one_row_at_page_top (o : Block) (openers : list Block) :
  atPageTop o = true ->
  Forall (fun b => sameRow o b = false) openers ->
  forall b, In b openers -> atPageTop b = false.
Proof.
  intros Ho Hall b Hb. rewrite Forall_forall in Hall.
  destruct (atPageTop b) eqn:E; [|reflexivity].
  assert (sameRow o b = true).
  { unfold sameRow, atPageTop in *.
    apply sameKey_trans with (JsDouble.Finite 0); [exact Ho|].
    rewrite sameKey_sym. exact E. }
  rewrite (Hall b Hb) in H. discriminate.
Qed.

(** [Object.values] on the groups of the region: the group under the
    key 0, if there is one, then the others in creation order. *)
Lemma Object_values_in_order (openers lines : list Block) :
  (forall o, In o openers ->
     groupIndex (quantizedTop o) = if atPageTop o then Some 0%Z else None) ->
  ForallOrdPairs (fun a b => sameRow a b = false) openers ->
  Object_values (groupsOver openers lines)
  = map (fun opener => filter (sameRow opener) lines)
      (filter atPageTop openers
       ++ filter (fun opener => negb (atPageTop opener)) openers).
Proof.
  intros Hidx Hdistinct. unfold Object_values. rewrite map_app. f_equal.
  - induction Hdistinct as [|o openers Ho Hrest IH]; [reflexivity|].
    unfold groupsOver in *. cbn [map indexGroups filter].
    rewrite (Hidx o (or_introl eq_refl)).
    destruct (atPageTop o) eqn:Eo.
    + pose proof (one_row_at_page_top o openers Eo Ho) as Hnone.
      destruct (groups_without_index openers lines) as [E1 _].
      { intros o' Ho'. rewrite (Hidx o' (or_intror Ho')), (Hnone o' Ho').
        reflexivity. }
      unfold groupsOver in E1. rewrite E1.
      assert (E2 : filter atPageTop openers = []).
      { clear - Hnone. induction openers as [|b openers IHo]; [reflexivity|].
        cbn [filter]. rewrite (Hnone b (or_introl eq_refl)).
        apply IHo. intros b' Hb'. apply Hnone. right. exact Hb'. }
      rewrite E2. reflexivity.
    + apply IH. intros o' Ho'. apply Hidx. right. exact Ho'.
  - clear Hdistinct. induction openers as [|o openers IH]; [reflexivity|].
    unfold groupsOver in *. cbn [map filter fst].
    rewrite (Hidx o (or_introl eq_refl)).
    destruct (atPageTop o); cbn [negb map snd].
    + apply IH. intros o' Ho'. apply Hidx. right. exact Ho'.
    + f_equal. apply IH. intros o' Ho'. apply Hidx. right. exact Ho'.
Qed.

End RowOrder.

(** *** The row-detection state machine *)

Section TableZone.

Import LocalFileProcessingAdvanced Samples TableSpec.

(** One step of the row-detection state machine on a data row. *)
Lemma processGroup_row (items : list CurrentItem)
    (currentItem : option CurrentItem) (group : list Block) (text : str) :
  isHeaderRow group = false ->
  leftmostText group = Some text ->
  processGroup (items, currentItem) group =
  match matchItemNo text with
  | Some no =>
      (match currentItem with
       | Some cur => items ++ [cur]
       | None => items
       end, Some (newItem no))
  | None =>
      match currentItem with
      | Some cur => (items, Some (classify cur text))
      | None => (items, currentItem)
      end
  end.
Proof.
  intros Hh Ht. unfold processGroup. rewrite Hh.
  unfold leftmostText in Ht.
  destruct (sortByLeft group) as [|first rest]; [discriminate|].
  simpl in Ht. injection Ht as ->. reflexivity.
Qed.

(** The state machine on four data rows. *)
Lemma two_items_of_groups (blocks : list Block) (tableTop : Q) :
  tableTopOf blocks = Some tableTop ->
  forallb (fun group => negb (isHeaderRow group))
    (Object_values (lineGroupsOf (tableLines blocks tableTop))) = true ->
  map leftmostText
    (Object_values (lineGroupsOf (tableLines blocks tableTop)))
  = [Some (lit "1."); Some (lit "2,000 PCS");
     Some (lit "2."); Some (lit "500 EA")] ->
  extractTableData blocks
  = [mkLineItem (lit "1") (lit "2,000") (lit "pcs") [] [] [];
     mkLineItem (lit "2") (lit "500") (lit "ea") [] [] []].
Proof.
  intros Htop Hrows Htexts. unfold extractTableData. rewrite Htop.
  destruct (Object_values (lineGroupsOf (tableLines blocks tableTop)))
    as [|g1 [|g2 [|g3 [|g4 [|g5 gs]]]]]; try discriminate.
  cbn [map] in Htexts. injection Htexts as H1 H2 H3 H4.
  cbn [forallb] in Hrows.
  repeat (apply andb_prop in Hrows; destruct Hrows as [?Hh Hrows]).
  repeat match goal with
         | H : negb _ = true |- _ => apply negb_true_iff in H
         end.
  cbn [fold_left].
  rewrite (processGroup_row _ _ g1 _ Hh H1). item_number.
  rewrite (processGroup_row _ _ g2 _ Hh0 H2). item_number.
  rewrite (processGroup_row _ _ g3 _ Hh1 H3). item_number.
  rewrite (processGroup_row _ _ g4 _ Hh2 H4).
  reflexivity.
Qed.

Lemma rowsOf_in (lines row : list Block) (line : Block) :
  In row (rowsOf lines) -> In line row -> In line lines.
Proof.
  unfold rowsOf. rewrite in_map_iff. intros (o & <- & _) Hin.
  apply filter_In in Hin. exact (proj1 Hin).
Qed.

Lemma isHeaderRow_repeatsHeader (row : list Block) :
  isHeaderRow row = repeatsHeader row.
Proof. reflexivity. Qed.

Lemma repeatsHeader_false (row : list Block) :
  (forall line, In line row -> ~ In (Text line) headers) ->
  repeatsHeader row = false.
Proof.
  intros H. unfold repeatsHeader.
  destruct (existsb _ row) eqn:E; [|reflexivity].
  apply existsb_exists in E. destruct E as (line & Hin & Hex).
  apply existsb_exists in Hex. destruct Hex as (h & Hh & Heq).
  apply streq_eq in Heq. destruct (H line Hin). rewrite Heq. exact Hh.
Qed.

Lemma leftmostText_leftmostLine (row : list Block) :
  leftmostText row = option_map Text (leftmostLine row).
Proof. unfold leftmostText. rewrite sortByLeft_hd. reflexivity. Qed.

(** C7, as the claim states it: with header lines of least top 0.10 and
    four line groups whose left-most lines read "1.", "2,000 PCS", "2."
    and "500 EA", the extractor would return the two items.  In this
    table the group of "1." also holds, to the right, a line that reads
    "Quantity": the group is skipped as a header row, "2,000 PCS" finds
    no item under construction, and one item is returned. *)
Lemma header_label_in_first_row_leaves_one_item :
  LeastHeaderTop orderTableWithLabel (JsDouble.decimal (1 # 10)) /\
  map (fun row => option_map Text (leftmostLine row))
      (rowsOf (regionLines orderTableWithLabel (JsDouble.decimal (1 # 10))))
  = [Some (lit "1."); Some (lit "2,000 PCS");
     Some (lit "2."); Some (lit "500 EA")] /\
  extractTableData orderTableWithLabel
  = [mkLineItem (lit "2") (lit "500") (lit "ea") [] [] []].
Proof.
  split; [|split].
  - apply tableTopOf_least. vm_compute. reflexivity.
  - vm_compute. reflexivity.
  - vm_compute. reflexivity.
Qed.

(** C7, amended.  Let the least top among the matched header lines be
    0.10, let the rows of the table region be four (a row holds the
    lines of the region that share a top quantised to three decimals;
    rows come in the order in which their first lines occur among the
    blocks) whose left-most lines (the first line of least left in each
    row) read "1.", "2,000 PCS", "2." and "500 EA", and let no line of
    the region carry a header label as its text.  Then the table zone
    extractor returns exactly two items: item "1" with quantity "2,000"
    and unit "pcs", then item "2" with quantity "500" and unit "ea" (no
    descriptions, price or amount). *)
Theorem extractTableData_two_items (blocks : list Block) (tableTop : Q) :
  LeastHeaderTop blocks tableTop ->
  tableTop == JsDouble.decimal (1 # 10) ->
  map (fun row => option_map Text (leftmostLine row))
      (rowsOf (regionLines blocks tableTop))
  = [Some (lit "1."); Some (lit "2,000 PCS");
     Some (lit "2."); Some (lit "500 EA")] ->
  (forall line, In line (regionLines blocks tableTop) ->
                ~ In (Text line) headers) ->
  extractTableData blocks
  = [mkLineItem (lit "1") (lit "2,000") (lit "pcs") [] [] [];
     mkLineItem (lit "2") (lit "500") (lit "ea") [] [] []].
Proof.
  intros Hleast Htenth Htexts Hlabels.
  destruct (least_tableTopOf _ _ Hleast) as (t & Htop & Ht).
  assert (Hgroups : Object_values (lineGroupsOf (tableLines blocks t))
                    = rowsOf (regionLines blocks tableTop)).
  { rewrite (tableLines_region _ _ _ Ht). apply Object_values_rows.
    apply region_below_header. rewrite Htenth. vm_compute. discriminate. }
  apply (two_items_of_groups blocks t Htop); rewrite Hgroups.
  - apply forallb_forall. intros row Hrow. apply negb_true_iff.
    rewrite isHeaderRow_repeatsHeader. apply repeatsHeader_false.
    intros line Hin. apply Hlabels. exact (rowsOf_in _ _ _ Hrow Hin).
  - rewrite <- Htexts. apply map_ext. apply leftmostText_leftmostLine.
Qed.

Lemma extractTableData_two_items_witness :
  extractTableData orderTable
  = [mkLineItem (lit "1") (lit "2,000") (lit "pcs") [] [] [];
     mkLineItem (lit "2") (lit "500") (lit "ea") [] [] []].
Proof.
  apply (extractTableData_two_items orderTable (JsDouble.decimal (1 # 10))).
  - apply tableTopOf_least. vm_compute. reflexivity.
  - reflexivity.
  - vm_compute. reflexivity.
  - intros line Hin Hlabel. vm_compute in Hin.
    repeat (destruct Hin as [<- | Hin]; [vm_compute in Hlabel; intuition discriminate|]).
    destruct Hin.
Defined.

End TableZone.

(* ================================================================== *)
(** * Further properties of the code *)

(** ** Trimming *)

Section TrimFacts.

Lemma trimStart_idem (s : str) : trimStart (trimStart s) = trimStart s.
Proof.
  induction s as [|c s IH]; simpl; [reflexivity|].
  destruct (isSpace c) eqn:Hc; [exact IH|].
  simpl. rewrite Hc. reflexivity.
Qed.

Lemma trimStart_snoc (l : str) (c : ascii) :
  isSpace c = false -> trimStart (l ++ [c]) = trimStart l ++ [c].
Proof.
  intros Hc. induction l as [|x l IH]; simpl.
  - rewrite Hc. reflexivity.
  - destruct (isSpace x); [exact IH | reflexivity].
Qed.

Lemma trimEnd_cons (c : ascii) (r : str) :
  isSpace c = false -> trimEnd (c :: r) = c :: trimEnd r.
Proof.
  intros Hc. unfold trimEnd. simpl.
  rewrite (trimStart_snoc _ _ Hc), rev_app_distr. reflexivity.
Qed.

Lemma trimEnd_idem (s : str) : trimEnd (trimEnd s) = trimEnd s.
Proof.
  unfold trimEnd. rewrite rev_involutive, trimStart_idem. reflexivity.
Qed.

(** Trimming twice is trimming once. *)
Lemma trim_idem (s : str) : trim (trim s) = trim s.
Proof.
  unfold trim.
  assert (H : trimStart (trimEnd (trimStart s)) = trimEnd (trimStart s)).
  { destruct (trimStart s) as [|c r] eqn:E; [reflexivity|].
    assert (Hc : isSpace c = false).
    { destruct (isSpace c) eqn:Hc; [|reflexivity].
      pose proof (trimStart_idem s) as Hi. rewrite E in Hi.
      simpl in Hi. rewrite Hc in Hi.
      pose proof (trimStart_decompose r) as [lead [Hr _]].
      apply (f_equal (@List.length ascii)) in Hi.
      apply (f_equal (@List.length ascii)) in Hr.
      rewrite length_app in Hr. simpl in Hi. lia. }
    rewrite (trimEnd_cons _ _ Hc). simpl. rewrite Hc. reflexivity. }
  rewrite H. apply trimEnd_idem.
Qed.

(** White space added at the end does not survive trimming. *)
Lemma trim_snoc_space (s : str) (c : ascii) :
  isSpace c = true -> trim (s ++ [c]) = trim s.
Proof.
  intros Hc. unfold trim. induction s as [|x s IH]; simpl.
  - rewrite Hc. reflexivity.
  - destruct (isSpace x) eqn:Hx; [exact IH|].
    unfold trimEnd. simpl. rewrite rev_app_distr. simpl. rewrite Hc.
    reflexivity.
Qed.

End TrimFacts.

(** ** Text of a block, in closed form *)

Section BlockTextClosedForm.

Import TextractUtils Samples.

Lemma childTexts_loop (bm : JsObject.t Block) (ids : list str)
    (texts : list str) :
  forallb (resolves bm) ids = true ->
  forOf ids (fun texts childId => childTexts texts (JsObject.get bm childId))
    texts
  = Ok (texts ++ flat_map (contribution bm) ids).
Proof.
  revert texts; induction ids as [|id ids IH]; intros texts; simpl.
  - intros _. rewrite app_nil_r. reflexivity.
  - intros H. apply andb_prop in H. destruct H as [Hid Hids].
    unfold resolves in Hid. unfold contribution at 1, childTexts at 1.
    destruct (JsObject.get bm id) as [w|]; [|discriminate].
    destruct (isBlockType WORD w); cbn [bind app].
    + rewrite (IH _ Hids), <- app_assoc. reflexivity.
    + destruct (isBlockType SELECTION_ELEMENT w); cbn [bind app].
      * rewrite (IH _ Hids), <- app_assoc. reflexivity.
      * exact (IH _ Hids).
Qed.

(** X1.  When every CHILD id of a block resolves, [getTextForBlock]
    returns the contributions of the children, in the order of the
    relationships and of their ids, joined with single spaces: a WORD
    gives its text, a SELECTION_ELEMENT gives "[X]" when selected and
    "[ ]" otherwise, any other block gives nothing; relationships of
    other kinds are ignored. *)
Theorem getTextForBlock_joins_children (block : Block)
    (blockMap : JsObject.t Block) :
  ChildrenResolve block blockMap ->
  getTextForBlock (Some block) blockMap
  = Ok (join (lit " ") (flat_map (contribution blockMap) (childIds block))).
Proof.
  intros H. apply ChildrenResolve_forallb in H.
  unfold getTextForBlock, childIds in *.
  destruct (Relationships block) as [rels|]; [|reflexivity].
  rewrite (forOf_relationships (isRelation CHILD)
             (fun texts childId =>
                childTexts texts (JsObject.get blockMap childId))).
  rewrite (childTexts_loop _ _ _ H). reflexivity.
Qed.

Lemma getTextForBlock_joins_children_witness :
  getTextForBlock
    (Some (valueSet "v" ["w1"%string; "s1"%string; "p1"%string]))
    [(lit "w1", word "w1" "Paid");
     (lit "s1", mkBlock (lit "s1") SELECTION_ELEMENT [] None (Some SELECTED)
                  None (box 0 0) None);
     (lit "p1", page "p1")]
  = Ok (lit "Paid [X]").
Proof.
  apply (getTextForBlock_joins_children
           (valueSet "v" ["w1"%string; "s1"%string; "p1"%string])).
  intros rels rel id Hrels Hrel Hchild Hid.
  injection Hrels as <-. destruct Hrel as [<- | []].
  destruct Hid as [<- | [<- | [<- | []]]]; vm_compute; discriminate.
Defined.

Lemma getText_loop (bm : JsObject.t Block) (ids : list str) (text : str) :
  forallb (resolves bm) ids = true ->
  (forall id w, In id ids -> JsObject.get bm id = Some w ->
                isBlockType SELECTION_ELEMENT w = false) ->
  forOf ids
    (fun (text : str) (childId : str) =>
       match JsObject.get bm childId with
       | None => Throw TypeError
       | Some child =>
           if isBlockType WORD child
           then Ok (text ++ Text child ++ lit " ")
           else Ok text
       end) text
  = Ok (text ++ List.concat (map (fun w => w ++ lit " ")
                          (flat_map (contribution bm) ids))).
Proof.
  revert text; induction ids as [|id ids IH]; intros text;
    cbn [forOf flat_map forallb map List.concat].
  - intros _ _. rewrite app_nil_r. reflexivity.
  - intros H Hsel. apply andb_prop in H. destruct H as [Hid Hids].
    unfold resolves in Hid. unfold contribution at 1.
    destruct (JsObject.get bm id) as [w|] eqn:Hw; [|discriminate].
    assert (Hs : isBlockType SELECTION_ELEMENT w = false)
      by (apply (Hsel id w); [left; reflexivity | exact Hw]).
    assert (Hrest : forall id' w', In id' ids ->
              JsObject.get bm id' = Some w' ->
              isBlockType SELECTION_ELEMENT w' = false)
      by (intros id' w' Hin; apply Hsel; right; exact Hin).
    rewrite Hs. destruct (isBlockType WORD w); cbn [bind app].
    + rewrite (IH _ Hids Hrest). cbn [map List.concat].
      rewrite <- !app_assoc. reflexivity.
    + exact (IH _ Hids Hrest).
Qed.

Lemma concat_with_separator (sep : str) (ws : list str) :
  List.concat (map (fun w => w ++ sep) ws)
  = match ws with
    | [] => []
    | _ :: _ => join sep ws ++ sep
    end.
Proof.
  induction ws as [|w ws IH]; simpl; [reflexivity|].
  rewrite IH. destruct ws as [|w' ws]; simpl.
  - rewrite app_nil_r. reflexivity.
  - rewrite <- !app_assoc. reflexivity.
Qed.

(** X2.  On a block whose CHILD ids all resolve and none of whose
    children is a SELECTION_ELEMENT, the two text derivations agree up to
    trimming: [getText] of [LocalFileProcessing.js] returns the trimmed
    text of [getTextForBlock]. *)
Theorem getText_agrees_without_checkboxes (block : Block)
    (blockMap : JsObject.t Block) :
  ChildrenResolve block blockMap ->
  (forall id w, In id (childIds block) ->
                JsObject.get blockMap id = Some w ->
                isBlockType SELECTION_ELEMENT w = false) ->
  exists t,
    getTextForBlock (Some block) blockMap = Ok t /\
    LocalFileProcessing.getText block blockMap = Ok (trim t).
Proof.
  intros Hres Hsel. eexists. split.
  - apply getTextForBlock_joins_children. exact Hres.
  - apply ChildrenResolve_forallb in Hres.
    unfold LocalFileProcessing.getText, childIds in *.
    destruct (Relationships block) as [rels|]; [|reflexivity].
    set (body := fun (text : str) (childId : str) =>
                   match JsObject.get blockMap childId with
                   | None => Throw TypeError
                   | Some child =>
                       if isBlockType WORD child
                       then Ok (text ++ Text child ++ lit " ")
                       else Ok text
                   end).
    rewrite (forOf_relationships (isRelation CHILD) body).
    unfold body. rewrite (getText_loop _ _ _ Hres Hsel). cbn [bind app].
    rewrite concat_with_separator.
    destruct (flat_map (contribution blockMap)
                (flat_map Ids (filter (isRelation CHILD) rels)))
      as [|w ws]; [reflexivity|].
    f_equal. apply (trim_snoc_space _ " "%char). reflexivity.
Qed.

Lemma getText_agrees_without_checkboxes_witness :
  exists t,
    getTextForBlock (Some (valueSet "v" ["w1"%string; "w2"%string]))
      [(lit "w1", word "w1" " Main"); (lit "w2", word "w2" "Street ")]
    = Ok t /\
    LocalFileProcessing.getText (valueSet "v" ["w1"%string; "w2"%string])
      [(lit "w1", word "w1" " Main"); (lit "w2", word "w2" "Street ")]
    = Ok (trim t).
Proof.
  apply (getText_agrees_without_checkboxes
           (valueSet "v" ["w1"%string; "w2"%string])).
  - intros rels rel id Hrels Hrel Hchild Hid.
    injection Hrels as <-. destruct Hrel as [<- | []].
    destruct Hid as [<- | [<- | []]]; vm_compute; discriminate.
  - intros id w [<- | [<- | []]] Hw; vm_compute in Hw;
      injection Hw as <-; reflexivity.
Defined.

End BlockTextClosedForm.

(** ** Key-value pairs: what the mappings hold *)

Section KeyValueContents.

Import TextractUtils Samples.

Lemma get_In {V : Type} (o : JsObject.t V) (k : str) (v : V) :
  JsObject.get o k = Some v -> In (k, v) o.
Proof.
  induction o as [|[k' v'] o IH]; simpl; [discriminate|].
  destruct (streq k k') eqn:E.
  - apply streq_eq in E. intros [= ->]. left. congruence.
  - intros H. right. exact (IH H).
Qed.

Lemma set_Forall {V : Type} (P : str * V -> Prop) (o : JsObject.t V)
    (k : str) (v : V) :
  Forall P o -> P (k, v) -> Forall P (JsObject.set o k v).
Proof.
  intros Ho Hkv. induction Ho as [|[k' v'] o Hx Ho IH]; simpl.
  - constructor; [exact Hkv | constructor].
  - destruct (streq k k'); constructor; auto.
Qed.

Lemma getText_is_trimmed (block : Block) (bm : JsObject.t Block) (s : str) :
  LocalFileProcessing.getText block bm = Ok s -> trim s = s.
Proof.
  unfold LocalFileProcessing.getText.
  destruct (Relationships block) as [rels|].
  - destruct (forOf rels _ []) as [text|]; cbn [bind]; [|discriminate].
    intros [= <-]. apply trim_idem.
  - intros [= <-]. reflexivity.
Qed.

Lemma pairKey_keeps_trimmed (m : BlockMaps) (kv kv' : JsObject.t str)
    (k : str) :
  Forall (fun p => Trimmed (fst p) /\ Trimmed (snd p)) kv ->
  LocalFileProcessing.pairKey m kv k = Ok kv' ->
  Forall (fun p => Trimmed (fst p) /\ Trimmed (snd p)) kv'.
Proof.
  intros Hkv. unfold LocalFileProcessing.pairKey.
  destruct (JsObject.get (keyMap m) k) as [kb|]; [|discriminate].
  destruct (LocalFileProcessing.valueBlockIdOf kb) as [vid|]; cbn [bind];
    [|discriminate].
  destruct (JsObject.get (valueMap m) vid) as [vb|];
    [|intros [= <-]; exact Hkv].
  destruct (LocalFileProcessing.getText kb (blockMap m)) as [kt|] eqn:Hkt;
    cbn [bind]; [|discriminate].
  destruct (LocalFileProcessing.getText vb (blockMap m)) as [vt|] eqn:Hvt;
    cbn [bind]; [|discriminate].
  apply getText_is_trimmed in Hkt. apply getText_is_trimmed in Hvt.
  destruct kt as [|c kt]; [intros [= <-]; exact Hkv|].
  destruct vt as [|d vt]; [intros [= <-]; exact Hkv|].
  cbn [truthy andb]. intros [= <-].
  apply set_Forall; [exact Hkv|]. cbn [fst snd].
  rewrite Hkt, Hvt. repeat split; try discriminate; assumption.
Qed.

(** X3.  Every pair of the mapping returned by [extractKeyValuePairs] of
    [LocalFileProcessing.js] has a key and a value that are not empty and
    carry no white space at either end: a key block whose own text or
    whose value text is empty leaves no pair. *)
Theorem local_pairs_are_trimmed_and_not_empty (blocks : list Block)
    (keyValuePairs : JsObject.t str) :
  LocalFileProcessing.extractKeyValuePairs blocks = Ok keyValuePairs ->
  forall k v, JsObject.get keyValuePairs k = Some v ->
              Trimmed k /\ Trimmed v.
Proof.
  unfold LocalFileProcessing.extractKeyValuePairs.
  destruct (organizeBlocks blocks) as [m|]; cbn [bind]; [|discriminate].
  intros H.
  assert (Hall : Forall (fun p => Trimmed (fst p) /\ Trimmed (snd p))
                   keyValuePairs).
  { revert H. generalize (JsObject.keys (keyMap m)).
    assert (H0 : Forall (fun p : str * str => Trimmed (fst p) /\ Trimmed (snd p))
                   JsObject.empty) by constructor.
    revert H0. generalize (@JsObject.empty str) as kv.
    intros kv Hkv keys. revert kv Hkv.
    induction keys as [|k keys IH]; intros kv Hkv; simpl.
    - intros [= <-]. exact Hkv.
    - destruct (LocalFileProcessing.pairKey m kv k) as [kv1|] eqn:Hk;
        cbn [bind]; [|discriminate].
      apply IH. exact (pairKey_keeps_trimmed _ _ _ _ Hkv Hk). }
  intros k v Hget. apply get_In in Hget.
  rewrite Forall_forall in Hall. exact (Hall (k, v) Hget).
Qed.

Lemma local_pairs_are_trimmed_and_not_empty_witness :
  Trimmed (lit "Name") /\ Trimmed (lit "Bob").
Proof.
  apply (local_pairs_are_trimmed_and_not_empty danglingValueBlocks
           [(lit "Name", lit "Bob")]); vm_compute; reflexivity.
Defined.

Lemma writes_come_from_values (m : BlockMaps) (t' : str) (ids : list str)
    (kv kv' : JsObject.t str) :
  forOf ids (writer m t') kv = Ok kv' ->
  forall t v, JsObject.get kv' t = Some v ->
    JsObject.get kv t = Some v \/
    (t = t' /\ exists vid,
        In vid ids /\
        getTextForBlock (JsObject.get (valueMap m) vid) (blockMap m) = Ok v).
Proof.
  revert kv; induction ids as [|id ids IH]; intros kv; cbn [forOf].
  - intros [= <-] t v H. left; exact H.
  - unfold writer at 1.
    destruct (getTextForBlock (JsObject.get (valueMap m) id) (blockMap m))
      as [v0|] eqn:Hv0; cbn [bind]; [|discriminate].
    intros H t v Hget.
    destruct (IH _ H t v Hget) as [Hold | [-> [vid [Hin Hv]]]].
    + destruct (streq t' t) eqn:E.
      * apply streq_eq in E. subst t'. rewrite get_set_same in Hold.
        injection Hold as <-. right. split; [reflexivity|].
        exists id. split; [left; reflexivity | exact Hv0].
      * apply streq_neq in E. rewrite (get_set_other _ _ _ _ E) in Hold.
        left; exact Hold.
    + right. split; [reflexivity|]. exists vid. split; [right; exact Hin|exact Hv].
Qed.

(** X4.  Every pair of the mapping returned by [extractKeyValuePairs] of
    [textract-utils.js] comes from the blocks: its key is the text of a
    KEY block of the batch and its value is the text of a value block
    that this KEY block lists in a VALUE relationship.  A KEY block
    without VALUE ids leaves no pair. *)
Theorem pairs_come_from_key_and_value_blocks (blocks : list Block)
    (m : BlockMaps) (keyValues : JsObject.t str) :
  organizeBlocks blocks = Ok m ->
  TextractUtils.extractKeyValuePairs blocks = Ok keyValues ->
  forall t v, JsObject.get keyValues t = Some v ->
    exists k kb vid,
      In k (JsObject.keys (keyMap m)) /\
      JsObject.get (keyMap m) k = Some kb /\
      getTextForBlock (Some kb) (blockMap m) = Ok t /\
      In vid (valueIdsOf kb) /\
      getTextForBlock (JsObject.get (valueMap m) vid) (blockMap m) = Ok v.
Proof.
  intros Hm. unfold TextractUtils.extractKeyValuePairs. rewrite Hm.
  cbn [bind].
  assert (G : forall keys kv kv',
             forOf keys (matchKey m) kv = Ok kv' ->
             forall t v, JsObject.get kv' t = Some v ->
               JsObject.get kv t = Some v \/
               exists k kb vid,
                 In k keys /\
                 JsObject.get (keyMap m) k = Some kb /\
                 getTextForBlock (Some kb) (blockMap m) = Ok t /\
                 In vid (valueIdsOf kb) /\
                 getTextForBlock (JsObject.get (valueMap m) vid) (blockMap m)
                 = Ok v).
  { induction keys as [|k keys IH]; intros kv kv'; cbn [forOf].
    - intros [= <-] t v H. left; exact H.
    - destruct (matchKey m kv k) as [kv1|] eqn:Hk; cbn [bind]; [|discriminate].
      intros H t v Hget.
      destruct (IH _ _ H t v Hget)
        as [Hold | (k' & kb & vid & Hin & Hrest)].
      + destruct (matchKey_writes _ _ _ _ Hk) as (kb & t' & Hkb & Ht' & Hw).
        destruct (writes_come_from_values _ _ _ _ _ Hw t v Hold)
          as [Hkv | [-> [vid [Hin Hv]]]].
        * left; exact Hkv.
        * right. exists k, kb, vid. repeat split; auto. left; reflexivity.
      + right. exists k', kb, vid. split; [right; exact Hin | exact Hrest]. }
  intros H t v Hget.
  destruct (G _ _ _ H t v Hget) as [Hempty | Hfound]; [discriminate|].
  exact Hfound.
Qed.

Lemma pairs_come_from_key_and_value_blocks_witness :
  exists k kb vid,
    In k (JsObject.keys (keyMap duplicateKeyMaps)) /\
    JsObject.get (keyMap duplicateKeyMaps) k = Some kb /\
    getTextForBlock (Some kb) (blockMap duplicateKeyMaps) = Ok (lit "Name") /\
    In vid (valueIdsOf kb) /\
    getTextForBlock (JsObject.get (valueMap duplicateKeyMaps) vid)
      (blockMap duplicateKeyMaps) = Ok (lit "Bob").
Proof.
  apply (pairs_come_from_key_and_value_blocks duplicateKeyBlocks
           duplicateKeyMaps [(lit "Name", lit "Bob")]);
    vm_compute; reflexivity.
Defined.

End KeyValueContents.

(** ** Pattern fallback: when nothing is found *)

Section PatternFallbackNull.

Import TextractUtils Samples.

Lemma split_single (p : ascii -> bool) (s : str) :
  (1 <? List.length (split p s))%nat = false <->
  forall c, In c s -> p c = false.
Proof.
  destruct (split_first p s)
    as [q [qs [Hs [Hq [[-> ->] | [c [rest [Hc [-> Hqs]]]]]]]]].
  - rewrite Hs. cbn. split; [|reflexivity]. intros _ c Hin.
    rewrite forallb_forall in Hq. specialize (Hq c Hin).
    destruct (p c); [discriminate | reflexivity].
  - rewrite Hs. destruct qs as [|q' qs'].
    + exfalso. symmetry in Hqs. exact (split_not_nil _ _ Hqs).
    + cbn. split; [discriminate|]. intros H.
      rewrite (H c) in Hc; [discriminate|].
      apply in_or_app. right. left. reflexivity.
Qed.

Lemma scanLines_none (lines : list str) (fieldName : str) :
  scanLines lines fieldName = None <->
  forall line, In line lines ->
    includes line (toLowerCase fieldName) = false \/
    forall c, In c line -> isSeparator c = false.
Proof.
  induction lines as [|l lines IH]; cbn [scanLines].
  - split; [intros _ line [] | reflexivity].
  - destruct (includes l (toLowerCase fieldName)) eqn:Hinc.
    + destruct (1 <? List.length (split isSeparator l))%nat eqn:Hlen.
      * split; [discriminate|]. intros H. exfalso.
        destruct (H l (or_introl eq_refl)) as [Hno | Hsep]; [congruence|].
        apply (proj2 (split_single isSeparator l)) in Hsep. congruence.
      * rewrite IH. pose proof (proj1 (split_single _ _) Hlen) as Hnosep.
        split.
        -- intros H line [<- | Hin]; [right; exact Hnosep | exact (H line Hin)].
        -- intros H line Hin. apply H. right; exact Hin.
    + rewrite IH. split.
      * intros H line [<- | Hin]; [left; exact Hinc | exact (H line Hin)].
      * intros H line Hin. apply H. right; exact Hin.
Qed.

(** X5.  The pattern fallback extractor returns null exactly when no line
    of the lower-cased text holds both the lower-cased field name and one
    of the separators ':', '-', '='.  A line that holds the name without
    a separator does not end the search: the lines after it are still
    scanned. *)
Theorem extractFieldByPattern_null_iff (blocks : list Block)
    (fieldName : str) :
  extractFieldByPattern blocks fieldName = None <->
  forall line,
    In line (split (Ascii.eqb newline) (toLowerCase (extractText blocks))) ->
    ~ Substring (toLowerCase fieldName) line \/
    forall c, In c line -> isSeparator c = false.
Proof.
  unfold extractFieldByPattern. rewrite scanLines_none.
  split; intros H line Hin; destruct (H line Hin) as [Hno | Hsep];
    try (right; exact Hsep); left.
  - intros Hsub. apply includes_spec in Hsub. congruence.
  - destruct (includes line (toLowerCase fieldName)) eqn:E; [|reflexivity].
    exfalso. apply Hno. apply includes_spec. exact E.
Qed.

Lemma extractFieldByPattern_null_iff_witness :
  extractFieldByPattern
    [line "l1" "Order No"; line "l2" "Ref 12"; line "l3" "ORDER NO = 7"]
    (lit "Order No")
  = Some (lit "7") /\
  extractFieldByPattern [line "l1" "Order No"; line "l2" "Ref: 12"]
    (lit "Order No")
  = None.
Proof.
  split; [vm_compute; reflexivity|].
  apply (proj2 (extractFieldByPattern_null_iff
                  [line "l1" "Order No"; line "l2" "Ref: 12"]
                  (lit "Order No"))).
  intros ln Hin. vm_compute in Hin.
  destruct Hin as [<- | [<- | []]].
  - right. intros c Hc.
    repeat (destruct Hc as [<- | Hc]; [reflexivity|]). destruct Hc.
  - left. intros Hsub. apply includes_spec in Hsub. vm_compute in Hsub.
    discriminate.
Defined.

End PatternFallbackNull.

(** ** Company records with an empty name, pages without text *)

Section CompanyEdges.

Import TextractUtils Samples.

Lemma includes_empty (s : str) : includes s [] = true.
Proof. destruct s; reflexivity. Qed.

Lemma includes_in_empty (p : str) : p <> [] -> includes [] p = false.
Proof. destruct p; [congruence | reflexivity]. Qed.

Lemma find_all_false {A : Type} (f : A -> bool) (l : list A) :
  (forall x, In x l -> f x = false) -> find f l = None.
Proof.
  induction l as [|a l IH]; intros H; simpl; [reflexivity|].
  rewrite (H a (or_introl eq_refl)). apply IH.
  intros x Hin. apply H. right; exact Hin.
Qed.

Lemma find_skips {A : Type} (f : A -> bool) (earlier later : list A) (x : A) :
  (forall e, In e earlier -> f e = false) -> f x = true ->
  find f (earlier ++ x :: later) = Some x.
Proof.
  intros He Hx. induction earlier as [|a earlier IH]; simpl.
  - rewrite Hx. reflexivity.
  - rewrite (He a (or_introl eq_refl)). apply IH.
    intros e Hin. apply He. right; exact Hin.
Qed.

(** X6.  A registry record whose company name is the empty string
    matches every text.  When it is the first record that matches, the
    single-page orchestrator takes the empty name for "no company" and
    throws "Company not recognized in single page document", whatever the
    document holds and whatever records follow. *)
Theorem empty_company_name_rejects_single_page
    (blocks : list Block) (earlier later : list CompanyRecord)
    (r : CompanyRecord) (getTargetTables : str -> list str) :
  company r = [] ->
  (forall e, In e earlier ->
             ~ MatchesIgnoringCase (company e) (extractText blocks)) ->
  findMatchingCompanyInPage (extractText blocks) (earlier ++ r :: later)
  = Some r /\
  processSinglePageDocument (Ok (Some blocks)) (Ok (earlier ++ r :: later))
    getTargetTables
  = Throw (Error (lit "Company not recognized in single page document")).
Proof.
  intros Hname Hearlier.
  assert (Hfind : find (fun record =>
                          includes (toLowerCase (extractText blocks))
                                   (toLowerCase (company record)))
                       (earlier ++ r :: later) = Some r).
  { apply find_skips.
    - intros e Hin. apply includes_no_match. exact (Hearlier e Hin).
    - rewrite Hname. apply includes_empty. }
  split; [exact Hfind|].
  unfold processSinglePageDocument, identifyCompanyAndFields, bind.
  rewrite Hfind. cbn [id_company]. rewrite Hname. reflexivity.
Qed.

Lemma empty_company_name_rejects_single_page_witness :
  processSinglePageDocument
    (Ok (Some [line "l1" "Acme Corp invoice"]))
    (Ok ([] ++ mkCompanyRecord [] [] None :: [acme; acmeCorp]))
    (fun _ => [])
  = Throw (Error (lit "Company not recognized in single page document")).
Proof.
  apply (empty_company_name_rejects_single_page
           [line "l1" "Acme Corp invoice"] [] [acme; acmeCorp]
           (mkCompanyRecord [] [] None) (fun _ => [])).
  - reflexivity.
  - intros e [].
Defined.

Lemma extractTextFromPage_empty (blocks : list Block) (pageId : str) :
  NoLineOfPage blocks pageId -> extractTextFromPage blocks pageId = [].
Proof.
  intros H. unfold extractTextFromPage.
  assert (E : filter (fun block =>
                        isBlockType LINE block &&
                        relsSome (Relationships block)
                          (fun rel => isRelation CHILD rel
                                      && idsInclude (Ids rel) pageId))
                     blocks = []).
  { induction blocks as [|b blocks IH]; [reflexivity|]. cbn [filter].
    destruct (isBlockType LINE b) eqn:Hb.
    - rewrite (H b (or_introl eq_refl) Hb). cbn [andb].
      apply IH. intros b' Hin. apply H. right; exact Hin.
    - cbn [andb]. apply IH. intros b' Hin. apply H. right; exact Hin. }
  rewrite E. reflexivity.
Qed.

(** X7.  The text of a page is made of the LINE blocks that list the
    page's id in a CHILD relationship.  A page that no LINE block lists
    has the empty text; with a registry whose company names are not empty
    it matches no company, so the multi-page orchestrator passes it over:
    it adds no result and only advances the page counter. *)
Theorem page_without_lines_is_passed_over
    (blocks : list Block) (records : list CompanyRecord) (st : LoopState)
    (pageBlock : Block) :
  NoLineOfPage blocks (Id pageBlock) ->
  (forall r, In r records -> company r <> []) ->
  extractTextFromPage blocks (Id pageBlock) = [] /\
  processPage blocks records st pageBlock
  = Ok (mkLoopState (results st) (nextToken st) (S (currentPage st))
          (finished st)).
Proof.
  intros Hpage Hnames.
  pose proof (extractTextFromPage_empty _ _ Hpage) as Htext.
  split; [exact Htext|].
  unfold processPage. rewrite Htext.
  assert (Hnone : findMatchingCompanyInPage [] records = None).
  { unfold findMatchingCompanyInPage. apply find_all_false.
    intros r Hin. cbn [toLowerCase map].
    apply includes_in_empty. specialize (Hnames r Hin).
    destruct (company r); [congruence | discriminate]. }
  rewrite Hnone. reflexivity.
Qed.

Lemma page_without_lines_is_passed_over_witness :
  processPage [page "p1"; line "l1" "Acme order"] [acme; acmeCorp]
    initialState (page "p1")
  = Ok (mkLoopState [] None 2 false).
Proof.
  apply (page_without_lines_is_passed_over
           [page "p1"; line "l1" "Acme order"] [acme; acmeCorp]
           initialState (page "p1")).
  - intros b [<- | [<- | []]] Hb; [discriminate | reflexivity].
  - intros r [<- | [<- | []]]; discriminate.
Defined.

End CompanyEdges.

(** ** The multi-page orchestrator: page numbers and pages without company *)

Section PageNumbers.

Import TextractUtils Samples.
Local Open Scope nat_scope.

Lemma processPage_step (blocks : list Block) (records : list CompanyRecord)
    (st st' : LoopState) (pageBlock : Block) :
  processPage blocks records st pageBlock = Ok st' ->
  currentPage st' = S (currentPage st) /\
  (results st' = results st \/
   exists r, results st' = results st ++ [r] /\ pageNumber r = currentPage st).
Proof.
  unfold processPage.
  destruct (findMatchingCompanyInPage _ records) as [c|].
  - destruct (extractFieldsFromPage _ _ _) as [fs|]; cbn [bind]; [|discriminate].
    intros [= <-]. split; [reflexivity|]. right. eexists. split; reflexivity.
  - intros [= <-]. split; [reflexivity | left; reflexivity].
Qed.

Lemma StronglySorted_snoc (l : list nat) (y : nat) :
  StronglySorted lt l -> Forall (fun x => x < y) l ->
  StronglySorted lt (l ++ [y]).
Proof.
  intros Hs. induction Hs as [|x l Hs IH Hx]; intros Hy; simpl.
  - constructor; constructor.
  - inversion Hy; subst. constructor; [apply IH; assumption|].
    apply Forall_app. split; [exact Hx | constructor; [assumption|constructor]].
Qed.

Lemma processPage_numbered (blocks : list Block)
    (records : list CompanyRecord) (st st' : LoopState) (pageBlock : Block) :
  1 <= currentPage st -> Numbered st ->
  processPage blocks records st pageBlock = Ok st' ->
  1 <= currentPage st' /\ Numbered st'.
Proof.
  intros Hpos [Hsorted Hrange] H.
  destruct (processPage_step _ _ _ _ _ H) as [Hcur [Hres | [r [Hres Hr]]]];
    rewrite Hcur; (split; [lia|]); unfold Numbered; rewrite Hres, Hcur.
  - split; [exact Hsorted|].
    eapply Forall_impl; [|exact Hrange]. cbv beta. intros; lia.
  - split.
    + rewrite map_app. cbn [map]. apply StronglySorted_snoc; [exact Hsorted|].
      apply Forall_map. eapply Forall_impl; [|exact Hrange].
      cbv beta. intros; lia.
    + apply Forall_app. split.
      * eapply Forall_impl; [|exact Hrange]. cbv beta. intros; lia.
      * constructor; [lia | constructor].
Qed.

Lemma pages_numbered (blocks : list Block) (records : list CompanyRecord)
    (pages : list Block) (st st' : LoopState) :
  1 <= currentPage st -> Numbered st ->
  forOf pages (processPage blocks records) st = Ok st' ->
  1 <= currentPage st' /\ Numbered st' /\
  currentPage st' = currentPage st + List.length pages.
Proof.
  revert st; induction pages as [|p pages IH]; intros st Hpos Hnum;
    cbn [forOf List.length].
  - intros [= <-]. repeat split; try assumption; try apply Hnum. lia.
  - destruct (processPage blocks records st p) as [st1|] eqn:Hp; cbn [bind];
      [|discriminate].
    intros H.
    destruct (processPage_numbered _ _ _ _ _ Hpos Hnum Hp) as [Hpos1 Hnum1].
    destruct (IH _ Hpos1 Hnum1 H) as (Hp' & Hn' & Hc').
    repeat split; try assumption; try apply Hn'.
    destruct (processPage_step _ _ _ _ _ Hp) as [Hcur _]. lia.
Qed.

Lemma processResponse_numbered (response : Response)
    (records : list CompanyRecord) (st st' : LoopState) :
  1 <= currentPage st -> Numbered st ->
  processResponse response records st = Ok st' ->
  1 <= currentPage st' /\ Numbered st'.
Proof.
  intros Hpos Hnum. unfold processResponse.
  destruct (Blocks response) as [blocks|]; [|discriminate].
  destruct (forOf _ _ st) as [st1|] eqn:Hp; cbn [bind]; [|discriminate].
  destruct (pages_numbered _ _ _ _ _ Hpos Hnum Hp) as (Hp1 & Hn1 & _).
  destruct (processingComplete response); intros [= <-]; split; assumption.
Qed.

Lemma pollingLoop_numbered (fuel : nat) (provider : Provider) (jobId : str)
    (records : list CompanyRecord) (polls : nat) (st : LoopState)
    (rs : list ExtractionResult) (n : nat) :
  1 <= currentPage st -> Numbered st ->
  pollingLoop fuel provider jobId records polls st = Returned (Ok rs) n ->
  StronglySorted lt (map pageNumber rs) /\
  Forall (fun r => 1 <= pageNumber r) rs.
Proof.
  revert polls st; induction fuel as [|fuel IH]; intros polls st Hpos Hnum;
    cbn [pollingLoop].
  - destruct (finished st); [|discriminate].
    intros [= <- _]. destruct Hnum as [Hs Hr]. split; [exact Hs|].
    eapply Forall_impl; [|exact Hr]. cbv beta. intros; lia.
  - destruct (finished st).
    + intros [= <- _]. destruct Hnum as [Hs Hr]. split; [exact Hs|].
      eapply Forall_impl; [|exact Hr]. cbv beta. intros; lia.
    + destruct (getAsyncResults provider polls jobId (nextToken st))
        as [response|]; [|discriminate].
      destruct (processResponse response records st) as [st1|] eqn:Hp;
        [|discriminate].
      destruct (processResponse_numbered _ _ _ _ Hpos Hnum Hp) as [Hp1 Hn1].
      apply IH; assumption.
Qed.

(** X8.  The results that [processMultiPageDocument] returns carry
    strictly increasing page numbers, the first at least 1: the counter
    runs over the PAGE blocks of all batches in the order received,
    whether or not a page matched a company, so results keep the page
    order across batches and no number occurs twice. *)
Theorem multi_page_results_are_in_page_order (fuel : nat)
    (provider : Provider) (records : list CompanyRecord)
    (rs : list ExtractionResult) (n : nat) :
  processMultiPageDocument fuel provider records = Returned (Ok rs) n ->
  StronglySorted lt (map pageNumber rs) /\
  Forall (fun r => 1 <= pageNumber r) rs.
Proof.
  unfold processMultiPageDocument.
  destruct (startDocumentAnalysis provider) as [jobId|]; [|discriminate].
  apply pollingLoop_numbered.
  - cbn. lia.
  - split; cbn; constructor.
Qed.

Lemma multi_page_results_are_in_page_order_witness :
  StronglySorted lt [1; 2] /\
  Forall (fun r => 1 <= pageNumber r)
    [mkExtractionResult (lit "Acme") 1 [(lit "Date:", None)] [lit "orders"];
     mkExtractionResult (lit "Acme") 2 [(lit "Date:", None)] [lit "orders"]].
Proof.
  apply (multi_page_results_are_in_page_order 5 (twoBatches IN_PROGRESS)
           [acme]
           [mkExtractionResult (lit "Acme") 1 [(lit "Date:", None)]
              [lit "orders"];
            mkExtractionResult (lit "Acme") 2 [(lit "Date:", None)]
              [lit "orders"]] 2).
  vm_compute; reflexivity.
Defined.

Lemma pages_without_company (blocks : list Block)
    (records : list CompanyRecord) (pages : list Block) (st : LoopState) :
  (forall pageBlock, In pageBlock pages ->
     findMatchingCompanyInPage
       (extractTextFromPage blocks (Id pageBlock)) records = None) ->
  forOf pages (processPage blocks records) st
  = Ok (mkLoopState (results st) (nextToken st)
          (currentPage st + List.length pages) (finished st)).
Proof.
  revert st; induction pages as [|p pages IH]; intros st H;
    cbn [forOf List.length].
  - rewrite Nat.add_0_r. destruct st; reflexivity.
  - unfold processPage at 1. rewrite (H p (or_introl eq_refl)). cbn [bind].
    rewrite IH; [|intros pb Hin; apply H; right; exact Hin].
    cbn [results nextToken currentPage finished].
    rewrite Nat.add_succ_r. reflexivity.
Qed.

(** X9.  In the multi-page flow a batch none of whose pages matches a
    company is no error: the iteration completes, adds no result and
    advances the page counter by the number of PAGE blocks of the
    batch. *)
Theorem batch_without_company_adds_nothing (response : Response)
    (blocks : list Block) (records : list CompanyRecord) (st : LoopState) :
  Blocks response = Some blocks ->
  NoCompanyOnPages blocks records ->
  exists st',
    processResponse response records st = Ok st' /\
    results st' = results st /\
    currentPage st'
    = currentPage st + List.length (filter (isBlockType PAGE) blocks).
Proof.
  intros Hb Hnone. unfold processResponse. rewrite Hb.
  rewrite (pages_without_company _ _ _ _ Hnone). cbn [bind].
  destruct (processingComplete response); eexists; repeat split.
Qed.

Lemma batch_without_company_adds_nothing_witness :
  exists st',
    processResponse (batch1 SUCCEEDED) [acmeCorp] initialState = Ok st' /\
    results st' = [] /\
    currentPage st' = 1 + 1.
Proof.
  apply (batch_without_company_adds_nothing (batch1 SUCCEEDED)
           [page "p1"; lineOf "a1" "Acme order" ["p1"%string]]
           [acmeCorp] initialState).
  - reflexivity.
  - intros pb [<- | []]. vm_compute; reflexivity.
Defined.

End PageNumbers.

(** ** Table zone: what the extractor returns *)

Section TableItems.

Import LocalFileProcessingAdvanced Samples TableSpec.

Lemma span_prefix (p : ascii -> bool) (s : str) :
  forallb p (fst (span p s)) = true.
Proof.
  induction s as [|c s IH]; simpl; [reflexivity|].
  destruct (p c) eqn:Hc; [|reflexivity].
  destruct (span p s) as [a b]. simpl in *. rewrite Hc, IH. reflexivity.
Qed.

Lemma matchItemNo_digits (text no : str) :
  matchItemNo text = Some no -> no <> [] /\ forallb isDigit no = true.
Proof.
  unfold matchItemNo. pose proof (span_prefix isDigit text) as H.
  destruct (span isDigit text) as [digits rest]. simpl in H.
  destruct digits as [|d digits]; [discriminate|].
  destruct (streq rest (lit ".")); [|discriminate].
  intros [= <-]. split; [discriminate | exact H].
Qed.

Lemma matchQuantity_shape (text q u : str) :
  matchQuantity text = Some (q, u) ->
  q <> [] /\
  forallb (fun c => isDigit c || Ascii.eqb c ",") q = true /\
  In (toLowerCase u) (map toLowerCase units).
Proof.
  unfold matchQuantity.
  pose proof (span_prefix (fun c => isDigit c || Ascii.eqb c ",") text) as H.
  destruct (span (fun c => isDigit c || Ascii.eqb c ",") text)
    as [number rest]. simpl in H.
  destruct (span isSpace rest) as [spaces unit].
  destruct number as [|n number]; [discriminate|].
  destruct spaces as [|w spaces]; [discriminate|].
  destruct (existsb _ units) eqn:E; [|discriminate].
  intros [= <- <-]. split; [discriminate|]. split; [exact H|].
  apply existsb_exists in E. destruct E as [u0 [Hin Heq]].
  apply streq_eq in Heq. rewrite Heq. apply in_map. exact Hin.
Qed.

Lemma classify_keeps_shape (cur : CurrentItem) (text : str) :
  WellShapedItem (finalize cur) ->
  WellShapedItem (finalize (classify cur text)) /\
  cur_itemNo (classify cur text) = cur_itemNo cur.
Proof.
  intros (Hno & Hdig & Hprice & Hamount & Hq). unfold classify.
  destruct (matchQuantity text) as [[q u]|] eqn:Hm.
  - split; [|reflexivity].
    destruct (matchQuantity_shape _ _ _ Hm) as (Hq1 & Hq2 & Hu).
    unfold WellShapedItem. cbn. repeat split; auto.
  - destruct (matchProductCode text || matchCode text || matchLot text);
      split; try reflexivity; unfold WellShapedItem; cbn;
      repeat split; auto.
Qed.

Lemma processGroup_items (st : list CurrentItem * option CurrentItem)
    (group : list Block) :
  Forall (fun c => WellShapedItem (finalize c)) (itemsOf st) ->
  Forall (fun c => WellShapedItem (finalize c)) (itemsOf (processGroup st group))
  /\ map cur_itemNo (itemsOf (processGroup st group))
     = map cur_itemNo (itemsOf st) ++ itemNumberOf group.
Proof.
  destruct st as [items cur]. intros Hst.
  unfold processGroup, itemNumberOf, leftmostText.
  destruct (isHeaderRow group).
  { split; [exact Hst | rewrite app_nil_r; reflexivity]. }
  destruct (sortByLeft group) as [|first rest].
  { split; [exact Hst | rewrite app_nil_r; reflexivity]. }
  cbn [hd_error option_map].
  destruct (matchItemNo (Text first)) as [no|] eqn:Hno.
  - destruct (matchItemNo_digits _ _ Hno) as [Hne Hdig].
    assert (Hnew : WellShapedItem (finalize (newItem no))).
    { unfold WellShapedItem. cbn. repeat split; auto. }
    unfold itemsOf in *. cbn [fst snd] in *. split.
    + apply Forall_app. split; [|constructor; [exact Hnew | constructor]].
      destruct cur; [exact Hst | rewrite app_nil_r in Hst; exact Hst].
    + destruct cur; rewrite ?map_app, ?app_nil_r; reflexivity.
  - destruct cur as [cur|].
    + unfold itemsOf in *. cbn [fst snd] in *.
      apply Forall_app in Hst. destruct Hst as [Hitems Hcur].
      inversion Hcur as [|? ? Hc _]; subst.
      destruct (classify_keeps_shape cur (Text first) Hc) as [Hc' Hsame].
      split.
      * apply Forall_app. split; [exact Hitems|].
        constructor; [exact Hc' | constructor].
      * rewrite !map_app. cbn [map]. rewrite Hsame, app_nil_r. reflexivity.
    + split; [exact Hst | rewrite app_nil_r; reflexivity].
Qed.

Lemma rows_items (groups : list (list Block))
    (st : list CurrentItem * option CurrentItem) :
  Forall (fun c => WellShapedItem (finalize c)) (itemsOf st) ->
  Forall (fun c => WellShapedItem (finalize c))
         (itemsOf (fold_left processGroup groups st))
  /\ map cur_itemNo (itemsOf (fold_left processGroup groups st))
     = map cur_itemNo (itemsOf st) ++ flat_map itemNumberOf groups.
Proof.
  revert st; induction groups as [|g groups IH]; intros st Hst;
    cbn [fold_left flat_map].
  - split; [exact Hst | rewrite app_nil_r; reflexivity].
  - destruct (processGroup_items st g Hst) as [H1 H2].
    destruct (IH _ H1) as [H3 H4]. split; [exact H3|].
    rewrite H4, H2, <- app_assoc. reflexivity.
Qed.

Lemma extractTableData_items (blocks : list Block) (tableTop : Q) :
  tableTopOf blocks = Some tableTop ->
  extractTableData blocks
  = map finalize
      (itemsOf (fold_left processGroup
                  (Object_values (lineGroupsOf (tableLines blocks tableTop)))
                  ([], None))).
Proof.
  intros Htop. unfold extractTableData. rewrite Htop.
  destruct (fold_left processGroup _ ([], None)) as [items cur].
  unfold itemsOf. cbn [fst snd]. destruct cur; [reflexivity|].
  rewrite app_nil_r. reflexivity.
Qed.

(** X10.  When no LINE block carries one of the five header labels
    ("Item No.", "Quantity", "Descriptions", "Unit Price", "Amount") as
    its whole text, the table zone extractor returns no item, whatever
    else the blocks hold. *)
Theorem extractTableData_without_header (blocks : list Block) :
  (forall block, In block blocks -> isBlockType LINE block = true ->
                 ~ In (Text block) headers) ->
  extractTableData blocks = [].
Proof.
  intros H. unfold extractTableData, tableTopOf.
  assert (E : headerBlocks blocks = []).
  { unfold headerBlocks.
    assert (G : forall hs, (forall h, In h hs -> In h headers) ->
              flat_map (fun header =>
                          match find (fun block => isBlockType LINE block
                                        && streq (Text block) header) blocks with
                          | Some b => [b]
                          | None => []
                          end) hs = []).
    { induction hs as [|h hs IH]; intros Hin; [reflexivity|]. cbn [flat_map].
      rewrite find_all_false.
      - apply IH. intros h' Hh'. apply Hin. right; exact Hh'.
      - intros b Hb. destruct (isBlockType LINE b) eqn:Hline; [|reflexivity].
        cbn [andb]. apply streq_neq. intros Heq.
        apply (H b Hb Hline). rewrite Heq. apply Hin. left; reflexivity. }
    apply G. auto. }
  rewrite E. reflexivity.
Qed.

Lemma extractTableData_without_header_witness :
  extractTableData
    [lineAt "a" "Item No" (1 # 10) (1 # 10); lineAt "b" "1." (2 # 10) (1 # 10);
     word "w" "Quantity"]
  = [].
Proof.
  apply extractTableData_without_header.
  intros b [<- | [<- | [<- | []]]] Hline; try discriminate;
    intros Hin; vm_compute in Hin; intuition discriminate.
Defined.

Lemma span_app_stop (p : ascii -> bool) (a b : str) :
  forallb p a = true ->
  match b with [] => True | c :: _ => p c = false end ->
  span p (a ++ b) = (a, b).
Proof.
  intros Ha Hb. induction a as [|x a IH]; cbn [app].
  - destruct b as [|c b]; [reflexivity|]. cbn [span]. rewrite Hb. reflexivity.
  - cbn [forallb] in Ha. apply andb_prop in Ha. destruct Ha as [Hx Ha].
    cbn [span]. rewrite Hx, (IH Ha). reflexivity.
Qed.

Lemma span_decompose (p : ascii -> bool) (s : str) :
  s = fst (span p s) ++ snd (span p s).
Proof.
  induction s as [|c s IH]; cbn [span]; [reflexivity|].
  destruct (p c); [|reflexivity].
  destruct (span p s) as [a b]. cbn [fst snd app] in *. rewrite <- IH.
  reflexivity.
Qed.

Lemma forallb_rev {A : Type} (p : A -> bool) (l : list A) :
  forallb p (rev l) = forallb p l.
Proof.
  destruct (forallb p l) eqn:E.
  - rewrite forallb_forall in *. intros x Hx. apply E. apply in_rev. exact Hx.
  - destruct (forallb p (rev l)) eqn:E'; [|reflexivity].
    rewrite forallb_forall in E'.
    assert (forallb p l = true).
    { apply forallb_forall. intros x Hx. apply E'. apply in_rev.
      rewrite rev_involutive. exact Hx. }
    congruence.
Qed.

(** [/^(\d+)\.$/] captures the digits of a text made of digits and a
    final full stop. *)
Lemma matchItemNo_itemNumberIn (text : str) :
  matchItemNo text = itemNumberIn text.
Proof.
  unfold itemNumberIn.
  destruct (rev text) as [|c [|d ds]] eqn:Hr;
    apply (f_equal (@rev ascii)) in Hr; rewrite rev_involutive in Hr.
  - subst text. reflexivity.
  - subst text. unfold matchItemNo. cbn. destruct (isDigit c); reflexivity.
  - change (rev (c :: d :: ds)) with (rev (d :: ds) ++ [c]) in Hr.
    unfold matchItemNo.
    destruct (Ascii.eqb c "." && forallb isDigit (d :: ds)) eqn:Htest.
    + apply andb_prop in Htest. destruct Htest as [Hc Hall].
      apply Ascii.eqb_eq in Hc. subst c.
      rewrite Hr, span_app_stop; [| rewrite forallb_rev; exact Hall | reflexivity].
      destruct (rev (d :: ds)) eqn:E; [|reflexivity].
      apply (f_equal (@List.length ascii)) in E. rewrite length_rev in E.
      discriminate.
    + pose proof (span_prefix isDigit text) as Hd.
      pose proof (span_decompose isDigit text) as Ht.
      destruct (span isDigit text) as [digits rest]. cbn [fst snd] in *.
      destruct digits as [|x digits]; [reflexivity|].
      destruct (streq rest (lit ".")) eqn:Hrest; [|reflexivity].
      apply streq_eq in Hrest. subst rest. rewrite Hr in Ht.
      apply app_inj_tail in Ht. destruct Ht as [Hdigits ->].
      rewrite <- Hdigits, forallb_rev in Hd. rewrite Hd in Htest.
      discriminate.
Qed.

Lemma itemNumberOf_rowNumber (row : list Block) :
  itemNumberOf row = rowNumber row.
Proof.
  unfold itemNumberOf, rowNumber.
  rewrite isHeaderRow_repeatsHeader, leftmostText_leftmostLine.
  destruct (repeatsHeader row); [reflexivity|].
  destruct (leftmostLine row) as [line|]; [|reflexivity].
  cbn [option_map]. rewrite matchItemNo_itemNumberIn. reflexivity.
Qed.

(** The item numbers, read off the groups the extractor walks. *)
Lemma numbers_of_groups (blocks : list Block) (tableTop : Q) :
  tableTopOf blocks = Some tableTop ->
  map itemNo (extractTableData blocks)
  = flat_map itemNumberOf
      (Object_values (lineGroupsOf (tableLines blocks tableTop))).
Proof.
  intros Htop. rewrite (extractTableData_items _ _ Htop).
  rewrite map_map.
  change (fun x => itemNo (finalize x)) with cur_itemNo.
  assert (H0 : Forall (fun c => WellShapedItem (finalize c))
                 (itemsOf (@nil CurrentItem, @None CurrentItem)))
    by constructor.
  exact (proj2 (rows_items _ _ H0)).
Qed.

(** X11.  When a header line is found, the table zone extractor returns
    one item for each row of the table region that repeats no header
    label and whose left-most line reads as digits followed by a full
    stop; the item number is that run of digits.  A row holds the lines
    of the region that share a top quantised to three decimals, in
    double arithmetic; the rows are walked in the order in which their
    first lines occur among the blocks, except that a row quantised to 0
    is walked first; the left-most line of a row is its first line of
    least left.  Rows walked before the first such row produce
    nothing. *)
Theorem extractTableData_one_item_per_number_row (blocks : list Block)
    (tableTop : Q) :
  LeastHeaderTop blocks tableTop ->
  map itemNo (extractTableData blocks)
  = flat_map rowNumber (rowsInOrder (regionLines blocks tableTop)).
Proof.
  intros Hleast.
  destruct (least_tableTopOf _ _ Hleast) as (t & Htop & Ht).
  rewrite (numbers_of_groups _ _ Htop), (tableLines_region _ _ _ Ht).
  rewrite lineGroupsOf_rows, Object_values_in_order.
  - apply flat_map_ext. apply itemNumberOf_rowNumber.
  - intros o Ho. apply (region_index blocks tableTop).
    exact (rowOpeners_incl _ _ _ Ho).
  - apply rowOpeners_distinct.
Qed.

Lemma extractTableData_one_item_per_number_row_witness :
  map itemNo (extractTableData shuffledTable)
  = [lit "9"; lit "12"; lit "3"].
Proof.
  rewrite (extractTableData_one_item_per_number_row shuffledTable
             (JsDouble.decimal (1 # 10000))).
  - vm_compute. reflexivity.
  - apply tableTopOf_least. vm_compute. reflexivity.
Defined.

(** X12.  Every item the table zone extractor returns has an item number
    made of digits, an empty unit price and an empty amount (no row
    pattern fills them), and either no quantity and no unit, or a
    quantity made of digits and commas with one of the units pcs, pls,
    ea, unit, unites, units in lower case. *)
Theorem extractTableData_items_are_well_shaped (blocks : list Block)
    (i : LineItem) :
  In i (extractTableData blocks) -> WellShapedItem i.
Proof.
  destruct (tableTopOf blocks) as [top|] eqn:Htop.
  - rewrite (extractTableData_items _ _ Htop). intros Hin.
    apply in_map_iff in Hin. destruct Hin as [c [<- Hc]].
    assert (H0 : Forall (fun c => WellShapedItem (finalize c))
                   (itemsOf (@nil CurrentItem, @None CurrentItem)))
      by constructor.
    pose proof (proj1 (rows_items
                         (Object_values (lineGroupsOf (tableLines blocks top)))
                         _ H0)) as Hall.
    rewrite Forall_forall in Hall. exact (Hall c Hc).
  - unfold extractTableData. rewrite Htop. intros [].
Qed.

Lemma extractTableData_items_are_well_shaped_witness :
  WellShapedItem (mkLineItem (lit "1") (lit "2,000") (lit "pcs") [] [] []).
Proof.
  apply (extractTableData_items_are_well_shaped tableBlocks).
  vm_compute. left; reflexivity.
Defined.

End TableItems.

(** ** Writing results to the target tables *)

Section Storing.

Import TextractUtils Samples.
Local Open Scope nat_scope.

(** The writes sent so far are numbered in order: the sink and the clock
    were asked with the position of each write. *)
Lemma storeInTables_sent (sink : Sink) (s3Location : S3Location)
    (r : ExtractionResult) (tables : list str) (sent : list PutAttempt) :
  (forall n a, nth_error sent n = Some a ->
     stored a = put sink n (tableName a) (item a) /\
     processedAt (item a) = now sink n) ->
  let sent' :=
    fold_left (fun sent table =>
                 let n := List.length sent in
                 let it := mkStoredItem (documentIdOf s3Location)
                             (res_company r) (pageNumber r)
                             (extractedFields r) (now sink n) in
                 sent ++ [mkPutAttempt table it (put sink n table it)])
              tables sent in
  map writeOf sent'
  = map writeOf sent
    ++ map (fun table => (table, res_company r, pageNumber r,
                          documentIdOf s3Location)) tables
  /\ (forall n a, nth_error sent' n = Some a ->
        stored a = put sink n (tableName a) (item a) /\
        processedAt (item a) = now sink n).
Proof.
  revert sent; induction tables as [|t tables IH]; intros sent Hsent;
    cbn [fold_left map].
  - rewrite app_nil_r. split; [reflexivity | exact Hsent].
  - edestruct (IH (sent ++
                   [mkPutAttempt t
                      (mkStoredItem (documentIdOf s3Location) (res_company r)
                         (pageNumber r) (extractedFields r)
                         (now sink (List.length sent)))
                      (put sink (List.length sent) t
                         (mkStoredItem (documentIdOf s3Location)
                            (res_company r) (pageNumber r)
                            (extractedFields r)
                            (now sink (List.length sent))))]))
      as [Hw Hn].
    + intros n a Hnth.
      destruct (Nat.lt_ge_cases n (List.length sent)) as [Hlt | Hge].
      * rewrite nth_error_app1 in Hnth by exact Hlt. exact (Hsent n a Hnth).
      * rewrite nth_error_app2 in Hnth by exact Hge.
        destruct (n - List.length sent) as [|k] eqn:Hk.
        -- cbn in Hnth. injection Hnth as <-. cbn.
           replace n with (List.length sent) by lia. split; reflexivity.
        -- destruct k; discriminate.
    + split; [|exact Hn].
      cbv zeta in Hw. rewrite Hw, map_app, <- app_assoc. reflexivity.
Qed.

Lemma storeInTables_spec (sink : Sink) (s3Location : S3Location)
    (r : ExtractionResult) (sent : list PutAttempt) :
  (forall n a, nth_error sent n = Some a ->
     stored a = put sink n (tableName a) (item a) /\
     processedAt (item a) = now sink n) ->
  map writeOf (storeInTables sink s3Location r sent)
  = map writeOf sent
    ++ map (fun table => (table, res_company r, pageNumber r,
                          documentIdOf s3Location)) (res_targetTables r)
  /\ (forall n a,
        nth_error (storeInTables sink s3Location r sent) n = Some a ->
        stored a = put sink n (tableName a) (item a) /\
        processedAt (item a) = now sink n).
Proof.
  intros Hsent.
  exact (storeInTables_sent sink s3Location r (res_targetTables r) sent Hsent).
Qed.

Lemma store_guard (sink : Sink) (s3Location : S3Location)
    (r : ExtractionResult) (sent : list PutAttempt) :
  match res_targetTables r with
  | [] => sent
  | _ :: _ => storeInTables sink s3Location r sent
  end = storeInTables sink s3Location r sent.
Proof.
  unfold storeInTables. destruct (res_targetTables r); reflexivity.
Qed.

(** X13.  [storeResultsInTables] sends exactly one write for every
    result and every target table of that result, in the order of the
    results and of their tables, each with the result's company and page
    number and the document's identifier.  This holds whatever the sink
    answers: a write that fails stops neither the writes to the other
    tables of the result nor those of the later results.  The n-th write
    is the one whose outcome and time stamp were taken n-th. *)
Theorem storeResultsInTables_sends_every_write (sink : Sink)
    (results : list ExtractionResult) (s3Location : S3Location) :
  map writeOf (storeResultsInTables sink results s3Location)
  = flat_map (fun r =>
                map (fun table => (table, res_company r, pageNumber r,
                                   documentIdOf s3Location))
                    (res_targetTables r)) results
  /\ (forall n a,
        nth_error (storeResultsInTables sink results s3Location) n = Some a ->
        stored a = put sink n (tableName a) (item a) /\
        processedAt (item a) = now sink n).
Proof.
  unfold storeResultsInTables.
  assert (G : forall rs sent,
             (forall n a, nth_error sent n = Some a ->
                stored a = put sink n (tableName a) (item a) /\
                processedAt (item a) = now sink n) ->
             map writeOf
               (fold_left (fun sent r =>
                             match res_targetTables r with
                             | [] => sent
                             | _ :: _ => storeInTables sink s3Location r sent
                             end) rs sent)
             = map writeOf sent
               ++ flat_map (fun r =>
                              map (fun table =>
                                     (table, res_company r, pageNumber r,
                                      documentIdOf s3Location))
                                  (res_targetTables r)) rs
             /\ (forall n a,
                   nth_error
                     (fold_left (fun sent r =>
                                   match res_targetTables r with
                                   | [] => sent
                                   | _ :: _ =>
                                       storeInTables sink s3Location r sent
                                   end) rs sent) n = Some a ->
                   stored a = put sink n (tableName a) (item a) /\
                   processedAt (item a) = now sink n)).
  { induction rs as [|r rs IH]; intros sent Hsent; cbn [fold_left flat_map].
    - rewrite app_nil_r. split; [reflexivity | exact Hsent].
    - rewrite store_guard.
      destruct (storeInTables_spec sink s3Location r sent Hsent) as [Hw Hn].
      destruct (IH _ Hn) as [Hw' Hn']. split; [|exact Hn'].
      rewrite Hw', Hw, <- app_assoc. reflexivity. }
  exact (G results [] ltac:(intros [|n] a H; discriminate)).
Qed.

Lemma storeResultsInTables_sends_every_write_witness :
  map writeOf
    (storeResultsInTables (mkSink (fun _ _ _ => false) (fun _ => lit "t"))
       [mkExtractionResult (lit "Acme") 1 [] [lit "orders"; lit "audit"];
        mkExtractionResult (lit "Acme") 2 [] [];
        mkExtractionResult (lit "Acme") 3 [] [lit "orders"]]
       (mkS3Location (lit "inbox") (lit "po/17.pdf")))
  = [(lit "orders", lit "Acme", 1, lit "inbox-po-17-pdf");
     (lit "audit", lit "Acme", 1, lit "inbox-po-17-pdf");
     (lit "orders", lit "Acme", 3, lit "inbox-po-17-pdf")].
Proof.
  rewrite (proj1 (storeResultsInTables_sends_every_write _ _ _)).
  vm_compute; reflexivity.
Defined.

Lemma sanitizeKey_fixes (k : str) :
  sanitizeKey k = k ->
  forall c, In c k -> (if isAlnum c then c else "-"%char) = c.
Proof.
  unfold sanitizeKey. induction k as [|x k IH]; cbn [map]; intros H c Hin;
    [destruct Hin|].
  injection H as Hx Hk. destruct Hin as [<- | Hin]; [exact Hx | auto].
Qed.

Lemma sanitizeKey_idem (k : str) : sanitizeKey (sanitizeKey k) = sanitizeKey k.
Proof.
  unfold sanitizeKey. rewrite map_map. apply map_ext. intros c.
  destruct (isAlnum c) eqn:E; [rewrite E; reflexivity | reflexivity].
Qed.

(** X14.  The document identifier is the bucket, a hyphen, and the key
    with every character outside a-z, A-Z, 0-9 turned into a hyphen.  The
    rewritten key keeps its length and holds only letters, digits and
    hyphens.  The identifier does not determine the document: a key and
    its rewritten form share one (and they differ as soon as the key holds
    a character other than a letter, a digit or a hyphen), and so do a
    bucket ending in "-x" with key k and the bucket without it with key
    "x-k". *)
Theorem documentId_is_not_injective (b x k : str) :
  List.length (sanitizeKey k) = List.length k /\
  forallb (fun c => isAlnum c || Ascii.eqb c "-") (sanitizeKey k) = true /\
  documentIdOf (mkS3Location b (sanitizeKey k))
  = documentIdOf (mkS3Location b k) /\
  documentIdOf (mkS3Location (b ++ lit "-" ++ sanitizeKey x) k)
  = documentIdOf (mkS3Location b (x ++ lit "-" ++ k)) /\
  (forall c, In c k -> isAlnum c = false -> c <> "-"%char ->
             sanitizeKey k <> k).
Proof.
  split; [apply length_map|]. split; [|split; [|split]].
  4:{ intros c Hin Hc Hne Heq. apply Hne.
      rewrite <- (sanitizeKey_fixes _ Heq c Hin). unfold sanitizeKey.
      rewrite Hc. reflexivity. }
  - unfold sanitizeKey. apply forallb_forall. intros c Hc.
    apply in_map_iff in Hc. destruct Hc as [c0 [<- _]].
    destruct (isAlnum c0) eqn:E; [rewrite E|]; reflexivity.
  - unfold documentIdOf. cbn [bucket key]. rewrite sanitizeKey_idem.
    reflexivity.
  - unfold documentIdOf, sanitizeKey. cbn [bucket key].
    rewrite !map_app, <- !app_assoc. reflexivity.
Qed.

End Storing.

(** ** The storage-event handler *)

Section Handler.

Import TextractUtils ProcessorFunction Samples.
Local Open Scope nat_scope.

Lemma unknown_page_count_is_one (services : Services) :
  PageCountUnknown services ->
  getPageCount (headObject services) (layoutAnalysis services) = Num 1.
Proof.
  unfold getPageCount.
  intros [[e ->] | (metadata & -> & Hdecl & Hlayout)]; [reflexivity|].
  rewrite Hdecl. destruct Hlayout as [[e ->] | ->]; reflexivity.
Qed.

(** X15.  When the single-page orchestrator returns, it returns exactly
    one result: for page 1, for the first registry record whose name
    occurs in the document text, a name that is not empty, with the
    fields extracted for that record and the target tables looked up for
    its name. *)
Theorem single_page_success_is_one_result
    (analysis : result (option (list Block)))
    (registry : result (list CompanyRecord))
    (getTargetTables : str -> list str) (rs : list ExtractionResult) :
  processSinglePageDocument analysis registry getTargetTables = Ok rs ->
  exists blocks records r extracted,
    analysis = Ok (Some blocks) /\ registry = Ok records /\
    findMatchingCompanyInPage (extractText blocks) records = Some r /\
    company r <> [] /\
    extractFields blocks (fields r) = Ok extracted /\
    rs = [mkExtractionResult (company r) 1 extracted
            (getTargetTables (company r))].
Proof.
  unfold processSinglePageDocument, identifyCompanyAndFields,
    findMatchingCompanyInPage.
  destruct analysis as [[blocks|]|]; cbn [bind]; try discriminate.
  destruct registry as [records|]; cbn [bind]; [|discriminate].
  destruct (find _ records) as [r|] eqn:Hfind; cbn [id_company fieldsToExtract];
    [|discriminate].
  destruct (company r) as [|c cs] eqn:Hc; cbn [truthy negb]; [discriminate|].
  destruct (extractFields blocks (fields r)) as [extracted|] eqn:He;
    cbn [bind]; [|discriminate].
  intros [= <-]. exists blocks, records, r, extracted.
  rewrite Hc. repeat split; auto. discriminate.
Qed.

Lemma single_page_success_is_one_result_witness :
  exists blocks records r extracted,
    Ok (Some [line "l1" "ACME order"; line "l2" "Date: 7/1"])
    = Ok (Some blocks) /\
    Ok [acmeCorp; acme] = Ok records /\
    findMatchingCompanyInPage (extractText blocks) records = Some r /\
    company r <> [] /\
    extractFields blocks (fields r) = Ok extracted /\
    [mkExtractionResult (lit "Acme") 1 [(lit "Date:", Some (lit "7/1"))]
       [lit "t"]]
    = [mkExtractionResult (company r) 1 extracted ([lit "t"])].
Proof.
  apply (single_page_success_is_one_result
           (Ok (Some [line "l1" "ACME order"; line "l2" "Date: 7/1"]))
           (Ok [acmeCorp; acme]) (fun _ => [lit "t"])).
  vm_compute; reflexivity.
Defined.

(** X16.  When the page count of the document cannot be established (the
    metadata request fails, or no count is declared and the layout
    analysis fails or carries no blocks), the handler takes the count for
    1 and runs the single-page flow: it answers with a failure naming the
    document, or with a success that reports page count 1 and exactly one
    result, for page 1. *)
Theorem handler_with_unknown_page_count (fuel : nat)
    (s3Location : S3Location) (services : Services) :
  PageCountUnknown services ->
  exists response,
    handler fuel (Ok s3Location) services = Some response /\
    ((exists e, response = Failure e (Some s3Location)) \/
     (exists r, response = Success (Num 1) 1 [r] /\ pageNumber r = 1)).
Proof.
  intros Hunknown. unfold handler.
  rewrite (unknown_page_count_is_one _ Hunknown). cbn [greaterThanOne Z.ltb Z.compare].
  destruct (processSinglePageDocument _ _ _) as [rs|e] eqn:Hp.
  - unfold processSinglePageDocument, identifyCompanyAndFields in Hp.
    destruct (formsAnalysis services) as [[blocks|]|]; cbn [bind] in Hp;
      try discriminate.
    destruct (getAllCompanyRecords (scanCompanies services)) as [records|];
      cbn [bind] in Hp; [|discriminate].
    destruct (negb _) in Hp; [discriminate|].
    destruct (extractFields _ _) as [extracted|]; cbn [bind] in Hp;
      [|discriminate].
    injection Hp as <-. eexists. split; [reflexivity|].
    right. eexists. split; reflexivity.
  - eexists. split; [reflexivity|]. left. exists e. reflexivity.
Qed.

Lemma handler_with_unknown_page_count_witness :
  exists response,
    handler 0 (Ok inbox)
      (mkServices (Throw TypeError) (Ok None) (Ok (Some [acme]))
         (Ok (Some [line "l1" "Acme order"])) (fun _ => Ok None)
         (twoBatches IN_PROGRESS))
    = Some response /\
    ((exists e, response = Failure e (Some inbox)) \/
     (exists r, response = Success (Num 1) 1 [r] /\ pageNumber r = 1)).
Proof.
  apply handler_with_unknown_page_count.
  left. exists TypeError. reflexivity.
Defined.

Lemma pollingLoop_without_company (fuel : nat) (provider : Provider)
    (jobId : str) (records : list CompanyRecord) (polls : nat)
    (st : LoopState) (rs : list ExtractionResult) (n : nat) :
  NoCompanyInJob provider records ->
  pollingLoop fuel provider jobId records polls st = Returned (Ok rs) n ->
  rs = results st.
Proof.
  intros Hjob. revert polls st; induction fuel as [|fuel IH]; intros polls st;
    cbn [pollingLoop].
  - destruct (finished st); [|discriminate]. intros [= <- _]. reflexivity.
  - destruct (finished st); [intros [= <- _]; reflexivity|].
    unfold getAsyncResults.
    destruct (getDocumentAnalysis provider polls jobId _) as [response|] eqn:Hr;
      [|discriminate].
    destruct (Hjob _ _ _ _ Hr) as [blocks [Hb Hnone]].
    unfold processResponse. rewrite Hb.
    rewrite (pages_without_company _ _ _ _ Hnone). cbn [bind].
    destruct (processingComplete response); intros H; apply IH in H;
      exact H.
Qed.

(** X17.  The handler treats a document without a known company
    differently by page count.  With a count that is not above 1, a
    document in whose text no registry name occurs is answered with the
    failure "Company not recognized in single page document".  With a
    count above 1, a job none of whose pages matches a company is
    answered, once the polling has ended, with a success that reports
    zero results. *)
Theorem handler_without_company (fuel : nat) (s3Location : S3Location)
    (services : Services) (records : list CompanyRecord) :
  getAllCompanyRecords (scanCompanies services) = Ok records ->
  let pageCount := getPageCount (headObject services)
                     (layoutAnalysis services) in
  (greaterThanOne pageCount = false ->
   forall blocks,
     formsAnalysis services = Ok (Some blocks) ->
     (forall r, In r records ->
                ~ MatchesIgnoringCase (company r) (extractText blocks)) ->
     handler fuel (Ok s3Location) services
     = Some (Failure
               (Error (lit "Company not recognized in single page document"))
               (Some s3Location))) /\
  (greaterThanOne pageCount = true ->
   NoCompanyInJob (asyncProvider services) records ->
   forall rs n,
     processMultiPageDocument fuel (asyncProvider services) records
     = Returned (Ok rs) n ->
     handler fuel (Ok s3Location) services = Some (Success pageCount 0 [])).
Proof.
  intros Hscan pageCount. subst pageCount. unfold handler. split.
  - intros Hsingle blocks Hforms Hnone. rewrite Hsingle, Hforms, Hscan.
    unfold processSinglePageDocument, identifyCompanyAndFields. cbn [bind].
    rewrite find_all_false; [reflexivity|].
    intros r Hin. apply includes_no_match. exact (Hnone r Hin).
  - intros Hmulti Hjob rs n Hrun. rewrite Hmulti, Hscan, Hrun.
    unfold processMultiPageDocument in Hrun.
    destruct (startDocumentAnalysis (asyncProvider services)) as [jobId|];
      [|discriminate].
    apply (pollingLoop_without_company _ _ _ _ _ _ _ _ Hjob) in Hrun.
    subst rs. reflexivity.
Qed.

Lemma handler_without_company_witness :
  handler 5 (Ok inbox) (declaring "1 page")
  = Some (Failure
            (Error (lit "Company not recognized in single page document"))
            (Some inbox)) /\
  handler 5 (Ok inbox) (declaring "2 pages") = Some (Success (Num 2) 0 []).
Proof.
  split.
  - apply (proj1 (handler_without_company 5 inbox (declaring "1 page")
                    [acmeCorp] eq_refl) eq_refl
                 [line "l1" "Acme order"] eq_refl).
    intros r [<- | []]. apply includes_no_match. vm_compute; reflexivity.
  - apply (proj2 (handler_without_company 5 inbox (declaring "2 pages")
                    [acmeCorp] eq_refl) eq_refl) with (rs := []) (n := 2).
    + intros polls jobId token response Hr.
      cbn in Hr. injection Hr as <-.
      destruct polls; eexists; (split; [reflexivity|]);
        intros pb [<- | []]; vm_compute; reflexivity.
    + vm_compute; reflexivity.
Defined.

End Handler.

(** ** The order fields of LocalFileProcessing.js *)

Section OrderFieldsFacts.

Import TextractUtils Samples.

Lemma local_extractText_fold (blocks : list Block) (text : str) :
  fold_left (fun text block =>
               if isBlockType LINE block
               then text ++ Text block ++ [newline] else text) blocks text
  = text ++ List.concat (map (fun t => t ++ [newline])
                           (map Text (filter (isBlockType LINE) blocks))).
Proof.
  revert text; induction blocks as [|b blocks IH]; intros text;
    cbn [fold_left filter].
  - cbn. rewrite app_nil_r. reflexivity.
  - rewrite IH. destruct (isBlockType LINE b); [|reflexivity].
    cbn [map List.concat]. rewrite <- !app_assoc. reflexivity.
Qed.

(** X18.  The two text flatteners agree up to the final newline:
    [extractText] of [LocalFileProcessing.js] ends every LINE text with a
    newline, [extractText] of [textract-utils.js] puts newlines between
    the LINE texts only.  With at least one LINE block the former is the
    latter followed by one newline; with none both are empty. *)
Theorem local_extractText_adds_final_newline (blocks : list Block) :
  LocalFileProcessing.extractText blocks
  = match filter (isBlockType LINE) blocks with
    | [] => []
    | _ :: _ => TextractUtils.extractText blocks ++ [newline]
    end.
Proof.
  unfold LocalFileProcessing.extractText, TextractUtils.extractText.
  rewrite local_extractText_fold, concat_with_separator. cbn [app].
  destruct (filter (isBlockType LINE) blocks); reflexivity.
Qed.

Lemma spanWhile_prefix (p : ascii -> bool) (s : str) :
  forallb p (fst (spanWhile p s)) = true /\
  s = fst (spanWhile p s) ++ snd (spanWhile p s).
Proof.
  induction s as [|c s IH]; cbn [spanWhile]; [split; reflexivity|].
  destruct (p c) eqn:Hc; [|split; reflexivity].
  destruct (spanWhile p s) as [a b]. cbn [fst snd] in *.
  destruct IH as [Ha Hs]. split.
  - cbn. rewrite Hc, Ha. reflexivity.
  - cbn. rewrite <- Hs. reflexivity.
Qed.

Lemma date_characters_are_not_spaces (c : ascii) :
  isDigit c || Ascii.eqb c "/" = true -> isSpace c = false.
Proof.
  destruct c as [[] [] [] [] [] [] [] []]; vm_compute; intros H;
    try reflexivity; discriminate.
Qed.

Lemma trim_without_spaces (d : str) :
  (forall c, In c d -> isSpace c = false) -> trim d = d.
Proof.
  intros H.
  assert (G : forall s, (forall c, In c s -> isSpace c = false) ->
                        trimStart s = s).
  { intros [|c s] Hs; [reflexivity|]. cbn.
    rewrite (Hs c (or_introl eq_refl)). reflexivity. }
  unfold trim, trimEnd. rewrite (G d H).
  rewrite G; [apply rev_involutive|].
  intros c Hc. apply in_rev in Hc. exact (H c Hc).
Qed.

Lemma handlerFields_date (blocks : list Block)
    (kv : JsObject.t str) (f : LocalFileProcessing.OrderFields) :
  LocalFileProcessing.extractKeyValuePairs blocks = Ok kv ->
  LocalFileProcessing.handlerFields blocks = Ok f ->
  LocalFileProcessing.date f
  = LocalFileProcessing.orElseMatch
      (LocalFileProcessing.fromPairs kv (lit "Date:"))
      (matchAfter (lit "Date:") digitsAndSlashes
         (LocalFileProcessing.extractText blocks)).
Proof.
  intros Hkv. unfold LocalFileProcessing.handlerFields. rewrite Hkv.
  cbn [bind].
  destruct (LocalFileProcessing.fromPairs kv (lit "Date:")) as [|c v].
  - cbn [truthy negb]. rewrite orb_true_r. intros [= <-]. reflexivity.
  - destruct (_ || _); intros [= <-]; reflexivity.
Qed.

Lemma spanWhile_stops (p : ascii -> bool) (s : str) :
  StopsAt p (snd (spanWhile p s)).
Proof.
  induction s as [|c s IH]; cbn [spanWhile]; [exact I|].
  destruct (p c) eqn:Hc; [|exact Hc].
  destruct (spanWhile p s) as [a b]. exact IH.
Qed.

Lemma spanWhile_app_stop (p : ascii -> bool) (a b : str) :
  forallb p a = true -> StopsAt p b -> spanWhile p (a ++ b) = (a, b).
Proof.
  intros Ha Hb. induction a as [|x a IH]; cbn [app].
  - destruct b as [|c b]; [reflexivity|]. cbn [spanWhile].
    cbn in Hb. rewrite Hb. reflexivity.
  - cbn [forallb] in Ha. apply andb_prop in Ha. destruct Ha as [Hx Ha].
    cbn [spanWhile]. rewrite Hx, (IH Ha). reflexivity.
Qed.

(** [text] reads white space, then the whole run [d] of digits and
    slashes. *)
Lemma digitsAndSlashes_run (rest d : str) :
  digitsAndSlashes rest = Some d
  <-> exists spaces after,
        rest = spaces ++ d ++ after /\
        forallb isSpace spaces = true /\
        d <> [] /\ forallb isDateChar d = true /\ StopsAt isDateChar after.
Proof.
  unfold digitsAndSlashes. fold isDateChar. split.
  - destruct (spanWhile_prefix isSpace rest) as [Hw Hrest].
    destruct (spanWhile isSpace rest) as [w r]. cbn [fst snd] in *.
    destruct (spanWhile_prefix isDateChar r) as [Hd Hr].
    pose proof (spanWhile_stops isDateChar r) as Hstop.
    destruct (spanWhile isDateChar r) as [run after]. cbn [fst snd] in *.
    destruct run as [|c run]; [discriminate|].
    intros [= <-]. exists w, after. subst r.
    repeat split; try assumption. discriminate.
  - intros (spaces & after & -> & Hsp & Hne & Hd & Hstop).
    assert (Hfirst : StopsAt isSpace (d ++ after)).
    { destruct d as [|c d]; [congruence|]. cbn.
      apply date_characters_are_not_spaces.
      cbn [forallb] in Hd. apply andb_prop in Hd. exact (proj1 Hd). }
    rewrite (spanWhile_app_stop _ _ _ Hsp Hfirst).
    rewrite (spanWhile_app_stop _ _ _ Hd Hstop). cbn [fst].
    destruct d; [congruence | reflexivity].
Qed.

Lemma startsWith_skipn (text prefix rest : str) :
  text = prefix ++ rest -> skipn (List.length prefix) text = rest.
Proof.
  intros ->. rewrite skipn_app, skipn_all, Nat.sub_diag. reflexivity.
Qed.

(** The match starts where the literal first occurs with the capture
    succeeding after it. *)
Lemma matchAfter_leftmost (prefix : str) (capture : str -> option str)
    (text c : str) :
  matchAfter prefix capture text = Some c ->
  exists before rest,
    text = before ++ prefix ++ rest /\ capture rest = Some c /\
    forall before' rest',
      text = before' ++ prefix ++ rest' ->
      (List.length before' < List.length before)%nat ->
      capture rest' = None.
Proof.
  induction text as [|x text IH]; cbn [matchAfter].
  - destruct (startsWith [] prefix) eqn:Hs; [|discriminate].
    apply startsWith_spec in Hs. destruct Hs as [rest Hrest].
    rewrite (startsWith_skipn _ _ _ Hrest).
    destruct (capture rest) eqn:Hc; [|discriminate].
    intros [= <-]. exists [], rest. split; [exact Hrest|].
    split; [exact Hc|]. intros before' rest' _ Hlt. cbn in Hlt. lia.
  - assert (Hlater :
      (forall rest, x :: text = prefix ++ rest -> capture rest = None) ->
      matchAfter prefix capture text = Some c ->
      exists before rest,
        x :: text = before ++ prefix ++ rest /\ capture rest = Some c /\
        forall before' rest',
          x :: text = before' ++ prefix ++ rest' ->
          (List.length before' < List.length before)%nat ->
          capture rest' = None).
    { intros Hhere H.
      destruct (IH H) as (before & rest & -> & Hcap & Hmin).
      exists (x :: before), rest. split; [reflexivity|].
      split; [exact Hcap|].
      intros [|y before'] rest' Heq Hlt.
      - apply Hhere. exact Heq.
      - cbn [app] in Heq. injection Heq as _ Heq.
        apply (Hmin before' rest' Heq). cbn in Hlt. lia. }
    destruct (startsWith (x :: text) prefix) eqn:Hs.
    + apply startsWith_spec in Hs. destruct Hs as [rest Hrest].
      rewrite (startsWith_skipn _ _ _ Hrest).
      destruct (capture rest) as [c'|] eqn:Hc.
      * intros [= <-]. exists [], rest. split; [exact Hrest|].
        split; [exact Hc|]. intros before' rest' _ Hlt. cbn in Hlt. lia.
      * apply Hlater. intros rest' Heq. rewrite Hrest in Heq.
        apply app_inv_head in Heq. subst rest'. exact Hc.
    + apply Hlater. intros rest' Heq.
      assert (startsWith (x :: text) prefix = true)
        by (apply startsWith_spec; exists rest'; exact Heq).
      congruence.
Qed.

(** No match: the capture fails after every occurrence of the
    literal. *)
Lemma matchAfter_none (prefix : str) (capture : str -> option str)
    (text : str) :
  matchAfter prefix capture text = None ->
  forall before rest, text = before ++ prefix ++ rest -> capture rest = None.
Proof.
  induction text as [|x text IH]; cbn [matchAfter].
  - intros H before rest Heq.
    destruct before; [|discriminate]. cbn [app] in Heq.
    assert (Hs : startsWith [] prefix = true)
      by (apply startsWith_spec; exists rest; exact Heq).
    rewrite Hs, (startsWith_skipn _ _ _ Heq) in H.
    destruct (capture rest); [discriminate | reflexivity].
  - intros H [|y before] rest Heq.
    + cbn [app] in Heq.
      assert (Hs : startsWith (x :: text) prefix = true)
        by (apply startsWith_spec; exists rest; exact Heq).
      rewrite Hs, (startsWith_skipn _ _ _ Heq) in H.
      destruct (capture rest); [discriminate | reflexivity].
    + cbn [app] in Heq. injection Heq as _ Heq.
      apply (IH ltac:(destruct (if startsWith (x :: text) prefix then _ else _);
                      [discriminate | exact H]) before rest Heq).
Qed.

Lemma DateRunAt_capture (text before d : str) :
  DateRunAt text before d
  <-> exists rest, text = before ++ lit "Date:" ++ rest /\
                   digitsAndSlashes rest = Some d.
Proof.
  split.
  - intros (spaces & after & Htext & H). exists (spaces ++ d ++ after).
    split; [exact Htext|]. apply digitsAndSlashes_run.
    exists spaces, after. split; [reflexivity | exact H].
  - intros (rest & Htext & Hcap). apply digitsAndSlashes_run in Hcap.
    destruct Hcap as (spaces & after & -> & H).
    exists spaces, after. split; [exact Htext | exact H].
Qed.

(** The date the pattern [/Date:\s*([0-9\/]+)/] reads off a text. *)
Lemma date_match (text : str) :
  match matchAfter (lit "Date:") digitsAndSlashes text with
  | Some d =>
      trim d = d /\
      exists before,
        DateRunAt text before d /\
        forall before' d', DateRunAt text before' d' ->
                           (List.length before <= List.length before')%nat
  | None => forall before d, ~ DateRunAt text before d
  end.
Proof.
  destruct (matchAfter (lit "Date:") digitsAndSlashes text) as [d|] eqn:Hm.
  - destruct (matchAfter_leftmost _ _ _ _ Hm) as (before & rest & Htext & Hcap & Hmin).
    split.
    + apply trim_without_spaces. intros c Hc.
      apply date_characters_are_not_spaces.
      apply digitsAndSlashes_run in Hcap.
      destruct Hcap as (_ & _ & _ & _ & _ & Hd & _).
      rewrite forallb_forall in Hd. exact (Hd c Hc).
    + exists before. split.
      * apply DateRunAt_capture. exists rest. split; assumption.
      * intros before' d' Hrun. apply DateRunAt_capture in Hrun.
        destruct Hrun as (rest' & Htext' & Hcap').
        destruct (Nat.le_gt_cases (List.length before) (List.length before'))
          as [Hle | Hlt]; [exact Hle|].
        rewrite (Hmin before' rest' Htext' Hlt) in Hcap'. discriminate.
  - intros before d Hrun. apply DateRunAt_capture in Hrun.
    destruct Hrun as (rest & Htext & Hcap).
    rewrite (matchAfter_none _ _ _ Hm before rest Htext) in Hcap.
    discriminate.
Qed.

Lemma app_same_length {A : Type} (a a' b b' : list A) :
  a ++ b = a' ++ b' -> List.length a = List.length a' -> a = a' /\ b = b'.
Proof.
  revert a'; induction a as [|x a IH]; intros [|x' a'] Heq Hlen;
    try discriminate.
  - split; [reflexivity | exact Heq].
  - cbn [app] in Heq. injection Heq as -> Heq. injection Hlen as Hlen.
    destruct (IH a' Heq Hlen) as [-> ->]. split; reflexivity.
Qed.

(** A run of digits and slashes is determined by the place where it
    starts. *)
Lemma date_run_determined (text before before' d d' : str) :
  DateRunAt text before d -> DateRunAt text before' d' ->
  List.length before = List.length before' -> d = d'.
Proof.
  intros H H' Hlen. apply DateRunAt_capture in H, H'.
  destruct H as (rest & Htext & Hcap). destruct H' as (rest' & Htext' & Hcap').
  rewrite Htext in Htext'.
  assert (Hsame : before = before' /\ lit "Date:" ++ rest = lit "Date:" ++ rest').
  { apply app_same_length; assumption. }
  destruct Hsame as [_ Hrest]. apply app_inv_head in Hrest. congruence.
Qed.

(** X19.  In the handler of [LocalFileProcessing.js] the date is the
    text paired with the form key "Date:" when that text is not empty.
    Otherwise it is read off the flattened text, at the left-most place
    where "Date:" is followed by optional white space and then a digit
    or a slash: the date is the whole run of digits and slashes found
    there, up to the first other character (so a date written with
    hyphens is cut at its first hyphen).  It stays empty exactly when
    the text has no such place. *)
Theorem handler_date_is_paired_or_digits_and_slashes (blocks : list Block)
    (f : LocalFileProcessing.OrderFields) :
  LocalFileProcessing.handlerFields blocks = Ok f ->
  exists keyValuePairs,
    LocalFileProcessing.extractKeyValuePairs blocks = Ok keyValuePairs /\
    ((JsObject.get keyValuePairs (lit "Date:")
      = Some (LocalFileProcessing.date f) /\
      LocalFileProcessing.date f <> []) \/
     (truthy (JsObject.get keyValuePairs (lit "Date:")) = false /\
      ((LocalFileProcessing.date f = [] /\
        forall before d,
          ~ DateRunAt (LocalFileProcessing.extractText blocks) before d) \/
       (exists before,
          DateRunAt (LocalFileProcessing.extractText blocks) before
            (LocalFileProcessing.date f) /\
          forall before' d',
            DateRunAt (LocalFileProcessing.extractText blocks) before' d' ->
            (List.length before <= List.length before')%nat)))).
Proof.
  intros H.
  destruct (LocalFileProcessing.extractKeyValuePairs blocks) as [kv|] eqn:Hkv.
  2:{ unfold LocalFileProcessing.handlerFields in H. rewrite Hkv in H.
      discriminate. }
  exists kv. split; [reflexivity|].
  rewrite (handlerFields_date _ _ _ Hkv H).
  unfold LocalFileProcessing.fromPairs, LocalFileProcessing.orElseMatch.
  pose proof (date_match (LocalFileProcessing.extractText blocks)) as Hdate.
  destruct (JsObject.get kv (lit "Date:")) as [[|c v]|].
  2:{ left. split; [reflexivity | discriminate]. }
  all: right; split; [reflexivity|];
    destruct (matchAfter (lit "Date:") digitsAndSlashes
                (LocalFileProcessing.extractText blocks)) as [d|];
    [ right; destruct Hdate as [-> Hrun]; exact Hrun
    | left; split; [reflexivity | exact Hdate] ].
Qed.

Lemma handler_date_is_paired_or_digits_and_slashes_witness :
  LocalFileProcessing.handlerFields hyphenDateOrder
  = Ok (LocalFileProcessing.mkOrderFields (lit "PO-77") [] (lit "2024")) /\
  exists keyValuePairs,
    LocalFileProcessing.extractKeyValuePairs hyphenDateOrder
    = Ok keyValuePairs /\
    ((JsObject.get keyValuePairs (lit "Date:") = Some (lit "2024") /\
      lit "2024" <> []) \/
     (truthy (JsObject.get keyValuePairs (lit "Date:")) = false /\
      ((lit "2024" = [] /\
        forall before d,
          ~ DateRunAt (LocalFileProcessing.extractText hyphenDateOrder)
              before d) \/
       (exists before,
          DateRunAt (LocalFileProcessing.extractText hyphenDateOrder) before
            (lit "2024") /\
          forall before' d',
            DateRunAt (LocalFileProcessing.extractText hyphenDateOrder)
              before' d' ->
            (List.length before <= List.length before')%nat)))).
Proof.
  split; [vm_compute; reflexivity|].
  exact (handler_date_is_paired_or_digits_and_slashes hyphenDateOrder
           (LocalFileProcessing.mkOrderFields (lit "PO-77") [] (lit "2024"))
           ltac:(vm_compute; reflexivity)).
Defined.

End OrderFieldsFacts.
